(** * PennyWise: classification of bank transactions and income-proportional
      settlement of shared expenses

    A shallow embedding of [src/core/calculations.py] and
    [src/categorization/transaction_categories.py].

    - Python [float] is IEEE 754 binary64: it is Rocq's primitive [float],
      whose operations the kernel evaluates with the same rounding as CPython.
    - A Python [dict] keeps its keys in insertion order, and
      [sum(d.values())] adds in that order: a [dict] is an association list
      that is updated in place.
    - Methods that mutate [self] or raise are written in a state and exception
      monad over the object they mutate.
    - A pandas [DataFrame] is an index of labels with named columns; the
      frames live in a store of references, since [df.copy()] allocates. *)

From Stdlib Require Import ZArith Lia List Bool Ascii String Floats.
From Stdlib Require Import Decimal DecimalString.
From stdpp Require Import gmap strings.

Set Warnings "-inexact-float".

(** ** Exceptions and the state-exception monad *)

(** The two reasons for which pandas refuses [df.loc[label, col] = v]: the
    label is not in the index and does not fit the 64 bits of its labels
    (pandas raises [ValueError]), or the dtype of the column does not take
    the value (pandas 3 raises [TypeError]; pandas 2 widens the dtype
    instead). *)
Inductive refusal : Type :=
| LabelOutOfRange
| ValueNotTaken.

(** [ValueError] and [KeyError] are Python's. [LocError] is the exception
    with which pandas refuses an assignment through [loc], its class given by
    the reason; the message is pandas' own and is not kept. [NoSuchObject]
    is not Python's: it stops a call that is given a reference to no object
    of the store, which no Python program can hold. *)
Inductive exn : Type :=
| ValueError (msg : string)
| KeyError (key : string)
| NoSuchObject
| LocError (why : refusal).

Inductive outcome (A : Type) : Type :=
| Return (a : A)
| Raise (e : exn).
Arguments Return {A} a.
Arguments Raise {A} e.

Definition Py (S A : Type) : Type := S -> outcome A * S.

Definition ret {S A} (a : A) : Py S A := fun s => (Return a, s).

Definition raise {S A} (e : exn) : Py S A := fun s => (Raise e, s).

Definition bind {S A B} (m : Py S A) (k : A -> Py S B) : Py S B :=
  fun s => match m s with
           | (Return a, s') => k a s'
           | (Raise e, s') => (Raise e, s')
           end.

Definition get_state {S} : Py S S := fun s => (Return s, s).

Definition modify {S} (f : S -> S) : Py S unit := fun s => (Return tt, f s).

Declare Scope py_scope.
Delimit Scope py_scope with py.
Notation "x <- c ;; k" := (bind c (fun x => k))
  (at level 100, c at next level, right associativity) : py_scope.
Notation "c ;;; k" := (bind c (fun _ => k))
  (at level 100, right associativity) : py_scope.

(** ** Python floats *)

Module PyFloat.

(** [math.isfinite]: neither an infinity nor a NaN. *)
Definition isfinite (x : float) : bool :=
  match Prim2SF x with
  | S754_zero _ | S754_finite _ _ _ => true
  | S754_infinity _ | S754_nan => false
  end.

(** [sum(xs)] of a sequence of floats: the start value is [0] and the
    elements are added from left to right. (From CPython 3.12 on, [sum]
    carries a compensation term; it returns the same float whenever no
    addition of the plain sum rounds or overflows.) *)
Definition sum (xs : list float) : float :=
  fold_left PrimFloat.add xs 0%float.

(** The float of a natural number below [2^63] (an integer literal such as
    [1000.0]). *)
Definition of_Z (n : Z) : float := of_uint63 (Uint63.of_Z n).

(** *** [format(x, ".2f")]

    The exact binary value is rounded to two decimals, half to even, and
    printed with its sign; NaN and the infinities print as words. *)

Definition round_half_even_div (n d : Z) : Z :=
  let q := (n / d)%Z in
  let r := (n mod d)%Z in
  match (2 * r ?= d)%Z with
  | Lt => q
  | Gt => (q + 1)%Z
  | Eq => if Z.even q then q else (q + 1)%Z
  end.

(** [|x| * 100] rounded to an integer, for [|x| = m * 2^e]. *)
Definition hundredths (m : positive) (e : Z) : Z :=
  if (0 <=? e)%Z then (Z.pos m * 2 ^ e * 100)%Z
  else round_half_even_div (Z.pos m * 100) (2 ^ (- e)).

Definition digits_of_Z (n : Z) : string :=
  NilZero.string_of_uint (N.to_uint (Z.to_N n)).

Definition two_digits (n : Z) : string :=
  if (n <? 10)%Z then String "0" (digits_of_Z n) else digits_of_Z n.

Definition sign_str (s : bool) : string := if s then "-"%string else EmptyString.

Definition format_2f (x : float) : string :=
  match Prim2SF x with
  | S754_nan => "nan"%string
  | S754_infinity s => String.append (sign_str s) "inf"
  | S754_zero s => String.append (sign_str s) "0.00"
  | S754_finite s m e =>
      let h := hundredths m e in
      String.append (sign_str s)
        (String.append (digits_of_Z (h / 100))
           (String "." (two_digits (h mod 100))))
  end.

End PyFloat.

(** ** Python dictionaries from [str] to [float] *)

Module Dict.

Definition t : Type := list (string * float).

Definition empty : t := [].

(** [d.get(k, default)] *)
Fixpoint get (d : t) (k : string) (default : float) : float :=
  match d with
  | [] => default
  | (k', v) :: d' => if String.eqb k' k then v else get d' k default
  end.

(** [d[k] = v]: an existing key keeps its place, a new key goes last. *)
Fixpoint set (d : t) (k : string) (v : float) : t :=
  match d with
  | [] => [(k, v)]
  | (k', v') :: d' =>
      if String.eqb k' k then (k', v) :: d' else (k', v') :: set d' k v
  end.

(** [d.values()] *)
Definition values (d : t) : list float := map snd d.

Definition keys (d : t) : list string := map fst d.

End Dict.

(** ** [src/core/calculations.py] *)

Module Calculations.

Record Person : Type := mkPerson {
  name : string;
  monthly_income : float;
  personal_expenses : Dict.t;
  shared_expenses_paid : Dict.t
}.

(** The [date] field is set at construction and read by nothing; it is left
    out. The two persons are two objects that share no dictionary. *)
Record Contribution : Type := mkContribution {
  person_a : Person;
  person_b : Person;
  shared_expenses : Dict.t
}.

(** [Person(name, monthly_income=income)] *)
Definition new_person (n : string) (income : float) : Person :=
  mkPerson n income Dict.empty Dict.empty.

(** [Contribution(Person(na, ia), Person(nb, ib))] *)
Definition new_contribution (na : string) (ia : float) (nb : string) (ib : float)
  : Contribution :=
  mkContribution (new_person na ia) (new_person nb ib) Dict.empty.

(** The local variable [person] of [add_expense] refers to one of the two
    persons of the ledger. *)
Inductive person_ref : Type := PersonA | PersonB.

Definition deref (self : Contribution) (r : person_ref) : Person :=
  match r with PersonA => person_a self | PersonB => person_b self end.

Definition update_person (r : person_ref) (f : Person -> Person)
  : Py Contribution unit :=
  modify (fun self =>
    match r with
    | PersonA => mkContribution (f (person_a self)) (person_b self) (shared_expenses self)
    | PersonB => mkContribution (person_a self) (f (person_b self)) (shared_expenses self)
    end).

Definition add_shared_paid (category : string) (amount : float) (p : Person) : Person :=
  mkPerson (name p) (monthly_income p) (personal_expenses p)
    (Dict.set (shared_expenses_paid p) category
       (Dict.get (shared_expenses_paid p) category 0 + amount)%float).

Definition add_personal (category : string) (amount : float) (p : Person) : Person :=
  mkPerson (name p) (monthly_income p)
    (Dict.set (personal_expenses p) category
       (Dict.get (personal_expenses p) category 0 + amount)%float)
    (shared_expenses_paid p).

Definition add_shared_total (category : string) (amount : float) (self : Contribution)
  : Contribution :=
  mkContribution (person_a self) (person_b self)
    (Dict.set (shared_expenses self) category
       (Dict.get (shared_expenses self) category 0 + amount)%float).

Definition unknown_person (who : string) : exn :=
  ValueError (String.append "Unknown person: " who).

Definition add_expense (category : string) (amount : float) (paid_by : string)
    (is_shared : bool) : Py Contribution unit :=
  (self <- get_state ;;
   person <- (if String.eqb paid_by (name (person_a self)) then ret PersonA
              else if String.eqb paid_by (name (person_b self)) then ret PersonB
              else raise (unknown_person paid_by)) ;;
   if is_shared then
     (update_person person (add_shared_paid category amount) ;;;
      modify (add_shared_total category amount))
   else
     update_person person (add_personal category amount))%py.

Definition get_total_shared_expenses : Py Contribution float :=
  (self <- get_state ;;
   ret (PyFloat.sum (Dict.values (shared_expenses self))))%py.

Definition get_person_shared_paid (who : string) : Py Contribution float :=
  (self <- get_state ;;
   if String.eqb who (name (person_a self)) then
     ret (PyFloat.sum (Dict.values (shared_expenses_paid (person_a self))))
   else if String.eqb who (name (person_b self)) then
     ret (PyFloat.sum (Dict.values (shared_expenses_paid (person_b self))))
   else raise (unknown_person who))%py.

(** *** FairShareCalculator *)

Definition calculate_income_ratio (a b : Person) : float * float :=
  let total_income := (monthly_income a + monthly_income b)%float in
  if (total_income =? 0)%float then (0.5, 0.5)%float
  else
    let ratio_a := (monthly_income a / total_income)%float in
    (ratio_a, (1 - ratio_a)%float).

Definition calculate_fair_shares : Py Contribution (float * float) :=
  (contribution <- get_state ;;
   let '(ratio_a, ratio_b) :=
     calculate_income_ratio (person_a contribution) (person_b contribution) in
   total_shared <- get_total_shared_expenses ;;
   ret ((total_shared * ratio_a)%float, (total_shared * ratio_b)%float))%py.

(** *** BalanceSheet *)

Record PersonBalance : Type := mkPersonBalance {
  pb_name : string;
  fair_share : float;
  actual_paid : float;
  balance : float
}.

Record Balance : Type := mkBalance {
  total_shared_expenses : float;
  balance_person_a : PersonBalance;
  balance_person_b : PersonBalance;
  summary : string
}.

(** The three characters that stand between the creditor and the amount in
    the format string of [_generate_summary], as the bytes of the source
    file: U+00E2, U+201A, U+00AC. *)
Definition currency_mark : string :=
  String "195" (String "162" (String "226" (String "128" (String "154"
    (String "194" (String "172" EmptyString)))))).

Definition _generate_summary (person_a_name person_b_name : string)
    (balance_a : float) : string :=
  if (PrimFloat.abs balance_a <? 0.01)%float then
    "All expenses are perfectly balanced"%string
  else
    let debtor := if (0 <? balance_a)%float then person_a_name else person_b_name in
    let creditor := if (0 <? balance_a)%float then person_b_name else person_a_name in
    let amount := PrimFloat.abs balance_a in
    String.append debtor
      (String.append " owes "
         (String.append creditor
            (String.append " "
               (String.append currency_mark (PyFloat.format_2f amount))))).

Definition generate_monthly_balance : Py Contribution Balance :=
  (contribution <- get_state ;;
   shares <- calculate_fair_shares ;;
   let '(fair_share_a, fair_share_b) := shares in
   actual_paid_a <- get_person_shared_paid (name (person_a contribution)) ;;
   actual_paid_b <- get_person_shared_paid (name (person_b contribution)) ;;
   let balance_a := (fair_share_a - actual_paid_a)%float in
   total <- get_total_shared_expenses ;;
   ret (mkBalance total
          (mkPersonBalance (name (person_a contribution)) fair_share_a actual_paid_a balance_a)
          (mkPersonBalance (name (person_b contribution)) fair_share_b actual_paid_b
             (- balance_a)%float)
          (_generate_summary (name (person_a contribution)) (name (person_b contribution))
             balance_a)))%py.

(** A sequence of calls on one ledger, stopped by the first exception. *)
Record call : Type := mkCall {
  c_category : string;
  c_amount : float;
  c_paid_by : string;
  c_is_shared : bool
}.

Definition do_call (c : call) : Py Contribution unit :=
  add_expense (c_category c) (c_amount c) (c_paid_by c) (c_is_shared c).

Fixpoint run (cs : list call) : Py Contribution unit :=
  match cs with
  | [] => ret tt
  | c :: cs' => (do_call c ;;; run cs')%py
  end.

(** The ledgers that a fresh two-person ledger reaches by successful calls
    of [add_expense]. *)
Inductive reachable : Contribution -> Prop :=
| reach_new na ia nb ib : reachable (new_contribution na ia nb ib)
| reach_add self c self' :
    reachable self ->
    do_call c self = (Return tt, self') ->
    reachable self'.

End Calculations.

(** ** [src/categorization/transaction_categories.py] *)

Module Categories.

(** *** Strings *)

(** [needle in hay] for two strings. *)
Fixpoint contains (needle hay : string) : bool :=
  if String.prefix needle hay then true
  else match hay with
       | EmptyString => false
       | String _ hay' => contains needle hay'
       end.

(** [needle] occurs in [hay] as a substring. *)
Definition substring (needle hay : string) : Prop :=
  exists before after, hay = String.append before (String.append needle after).

(** [str.upper] on ASCII text: the letters [a] to [z] are raised, every
    other byte is kept. *)
Definition upper_char (c : ascii) : ascii :=
  let n := nat_of_ascii c in
  if (97 <=? n)%nat && (n <=? 122)%nat then ascii_of_nat (n - 32) else c.

Fixpoint upper_ascii (s : string) : string :=
  match s with
  | EmptyString => EmptyString
  | String c s' => String (upper_char c) (upper_ascii s')
  end.

(** The letter A with diaeresis, U+00C4, in UTF-8. *)
Definition A_uml : string := String "195" (String "132" EmptyString).

(** A mapping from categories to keywords, in the order of declaration. *)
Definition mapping : Type := list (string * list string).

Definition DEFAULT_CATEGORY_MAPPINGS : mapping :=
  [ ("food",
      ["LIDL"; "K-MARKET"; "K MARKET"; "S-MARKET"; "ALEPA"; "PRISMA";
       "CITYMARKET"; "SALE"; "TOKMANNI"; "RUOHONJUURI"]);
    ("transport",
      ["HSL"; "VR"; "FINNAIR"; "NORWEGIAN"; "TAXI"; "TAKSI";
       "UBER"; "BOLT.EU"; "VANTAAN TAKSI";
       String.append "L" (String.append A_uml "HITAKSI")]);
    ("utilities",
      ["HELEN"; "VANTAAN ENERGIA"; "CARUNA"; "HSY"; "DNA OYJ";
       "ELISA"; "TELIA"; "FORTUM"]);
    ("entertainment",
      ["NETFLIX"; "SPOTIFY"; "HBO"; "ELOKUVA"; "FINNKINO"; "ZYNGA";
       "STEAM"; "SUPERCELL"; "NINTENDO"; "PLAYSTATION"]);
    ("health",
      ["APTEEKKI"; "YLIOPISTON APTEEKKI";
       String.append "MEHIL" (String.append A_uml "INEN"); "TERVEYSTALO";
       "AAVA"; String.append "HAMMASL" (String.append A_uml
                 (String.append A_uml (String.append "K" (String.append A_uml "RI"))));
       "FYSIOS"; "HOITO"]);
    ("rent",
      ["VUOKRA"; "VUOKRANANTAJA"; "SATO"; "LUMO"; "KOJAMO"; "ASUNTO OY";
       "RENTAL"; "MAANVUOKRA"]) ]%string.

(** *** Data frames *)

(** A cell of a column of strings, of booleans, or a missing value. *)
Inductive cell : Type :=
| CStr (s : string)
| CBool (b : bool)
| CNaN.

(** [str(x)] *)
Definition str (x : cell) : string :=
  match x with
  | CStr s => s
  | CBool true => "True"
  | CBool false => "False"
  | CNaN => "nan"
  end.

(** The index holds one label per row; every column holds one cell per
    row. *)
Record DataFrame : Type := mkDataFrame {
  index : list Z;
  columns : list (string * list cell)
}.

(** [df[col]] *)
Fixpoint column (cols : list (string * list cell)) (col : string)
  : option (list cell) :=
  match cols with
  | [] => None
  | (n, vs) :: cols' => if String.eqb n col then Some vs else column cols' col
  end.

(** [df[col] = vs]: an existing column is replaced, a new one goes last. *)
Fixpoint set_column (cols : list (string * list cell)) (col : string)
    (vs : list cell) : list (string * list cell) :=
  match cols with
  | [] => [(col, vs)]
  | (n, old) :: cols' =>
      if String.eqb n col then (n, vs) :: cols'
      else (n, old) :: set_column cols' col vs
  end.

Definition frame_set_column (d : DataFrame) (col : string) (vs : list cell)
  : DataFrame :=
  mkDataFrame (index d) (set_column (columns d) col vs).

(** [df[col] = v] for a scalar [v]: the value of every row. *)
Definition frame_set_scalar (d : DataFrame) (col : string) (v : cell) : DataFrame :=
  frame_set_column d col (map (fun _ => v) (index d)).

Definition has_label (d : DataFrame) (label : Z) : bool :=
  existsb (Z.eqb label) (index d).

(** Setting with enlargement: a row for a label that the index lacks, and a
    column that the frame lacks, are added with missing values. *)
Definition with_label (d : DataFrame) (label : Z) : DataFrame :=
  if has_label d label then d
  else mkDataFrame (index d ++ [label])
         (map (fun nv => (fst nv, snd nv ++ [CNaN])) (columns d)).

Definition with_column (d : DataFrame) (col : string) : DataFrame :=
  match column (columns d) col with
  | Some _ => d
  | None => mkDataFrame (index d) (columns d ++ [(col, map (fun _ => CNaN) (index d))])
  end.

(** The cells of the rows labelled [label] become [v]. *)
Fixpoint set_where (label : Z) (v : cell) (idx : list Z) (vs : list cell)
  : list cell :=
  match idx, vs with
  | l :: idx', c :: vs' =>
      (if Z.eqb l label then v else c) :: set_where label v idx' vs'
  | _, _ => []
  end.

(** The frame that [df.loc[label, col] = v] leaves when pandas takes the
    assignment: the row and the column are added when they are missing, and
    the cells of the rows with the label are set. The assignment itself,
    with the cases in which pandas refuses it, is [loc_assign] below. *)
Definition loc_set (d : DataFrame) (label : Z) (col : string) (v : cell)
  : DataFrame :=
  let d1 := with_column (with_label d label) col in
  mkDataFrame (index d1)
    (map (fun nv => if String.eqb (fst nv) col
                    then (fst nv, set_where label v (index d1) (snd nv))
                    else nv)
         (columns d1)).

(** The cell of column [col] in the row at position [pos]. *)
Definition cell_at (d : DataFrame) (col : string) (pos : nat) : option cell :=
  match column (columns d) col with
  | Some vs => vs !! pos
  | None => None
  end.

(** Every column has one cell per row. *)
Definition well_formed (d : DataFrame) : Prop :=
  Forall (fun nv => length (snd nv) = length (index d)) (columns d).

(** *** The store of frames *)

Definition ref : Type := positive.

Abbreviation store := (gmap positive DataFrame).

Definition read (r : ref) : Py store DataFrame :=
  fun h => match h !! r with
           | Some d => (Return d, h)
           | None => (Raise NoSuchObject, h)
           end.

Definition update (r : ref) (f : DataFrame -> DataFrame) : Py store unit :=
  (d <- read r ;; modify (fun h : store => <[r := f d]> h))%py.

(** [df.copy()]: a new frame with the same labels and cells. *)
Definition copy (r : ref) : Py store ref :=
  (d <- read r ;;
   h <- get_state ;;
   let r' := fresh (dom h) in
   modify (fun h : store => <[r' := d]> h) ;;;
   ret r')%py.

(** [df[col]], which raises [KeyError] for a column that the frame lacks. *)
Definition get_column (r : ref) (col : string) : Py store (list cell) :=
  (d <- read r ;;
   match column (columns d) col with
   | Some vs => ret vs
   | None => raise (KeyError col)
   end)%py.

Section Categorization.

(** [str.upper], from the Python runtime. *)
Variable upper : string -> string.

Fixpoint first_match (description : string) (mappings : mapping) : string :=
  match mappings with
  | [] => "uncategorized"
  | (category, keywords) :: rest =>
      if existsb (fun keyword => contains (upper keyword) description) keywords
      then category
      else first_match description rest
  end.

Definition categorize_transaction (description : string) (amount : float)
    (mappings : mapping) : string :=
  let description := upper description in
  first_match description mappings.

Definition categorize_transactions (df : ref) (mappings : option mapping)
    (description_column amount_column : string) : Py store ref :=
  (let mappings :=
     match mappings with Some m => m | None => DEFAULT_CATEGORY_MAPPINGS end in
   result_df <- copy df ;;
   descriptions <- get_column result_df description_column ;;
   update result_df (fun d =>
     frame_set_column d "category"
       (map (fun x => CStr (categorize_transaction (str x) 0 mappings))
            descriptions)) ;;;
   update result_df (fun d => frame_set_scalar d "auto_categorized" (CBool true)) ;;;
   ret result_df)%py.

End Categorization.

(** The labels that fit a 64-bit index. *)
(** The label fits the 64 bits of the integer index of a frame. *)
Definition fits_int64 (label : Z) : bool :=
  ((- 2 ^ 63 <=? label) && (label <? 2 ^ 63))%Z.

Section Assignment.

(** Whether the installed pandas takes the value [v] for the column [col] in
    the rows of [label]: it is decided by the dtype of the column, which the
    frame does not show, and by the release. pandas 2 takes every value;
    pandas 3 does not take a string for a column of missing values only. *)
Variable takes : DataFrame -> Z -> string -> cell -> bool.

(** [df.loc[label, col] = v] on the frame at [r]. A label that the index
    lacks makes pandas add a row first: that is refused, with [ValueError],
    when the label does not fit the index. Then the value is set: that is
    refused, with [TypeError], when the column does not take it. A refused
    assignment leaves the frame as it was. *)
Definition loc_assign (r : ref) (label : Z) (col : string) (v : cell)
  : Py store unit :=
  (d <- read r ;;
   if negb (has_label d label) && negb (fits_int64 label) then
     raise (LocError LabelOutOfRange)
   else if takes d label col v then
     modify (fun h : store => <[r := loc_set d label col v]> h)
   else raise (LocError ValueNotTaken))%py.

Definition override_category (df : ref) (index : Z) (new_category : string)
  : Py store ref :=
  (df <- copy df ;;
   loc_assign df index "category" (CStr new_category) ;;;
   loc_assign df index "auto_categorized" (CBool false) ;;;
   ret df)%py.

End Assignment.

End Categories.

(** ** Notions for the statements about binary64 *)

Module Binary64.
Local Open Scope Z_scope.

(** The last step of [binary_round_aux]: the rounded mantissa is shifted
    once more when the rounding carried into a new bit. *)
Definition finish (sx : bool) (q e : Z) : spec_float :=
  let '(mrs, e') := shr_fexp prec emax q e loc_Exact in
  match shr_m mrs with
  | Z0 => S754_zero sx
  | Zpos m => if e' <=? emax - prec then S754_finite sx m e' else S754_infinity sx
  | Zneg _ => S754_nan
  end.

(** The float of a positive integer below [2^53]. *)
Definition canonical_integer (n : positive) : spec_float :=
  S754_finite false
    (Z.to_pos (Z.pos n * 2 ^ (53 - Z.pos (digits2_pos n))))
    (Z.pos (digits2_pos n) - 53).

(** The float of a natural number below [2^53], as [of_uint63] gives it. *)
Definition float_of_nonneg (n : Z) : spec_float :=
  match n with
  | Zpos p => canonical_integer p
  | _ => S754_zero false
  end.

(** The mantissa after [t] bits are shifted out and the rest is rounded to
    nearest, ties to even. *)
Definition rnd (r0 s0 : bool) (M t : Z) : Z :=
  let q := M / 2 ^ t in
  round_nearest_even q
    (loc_of_shr_record
       (Build_shr_record q (Z.odd (M / 2 ^ (t - 1)))
          (negb (M mod 2 ^ (t - 1) =? 0) || (r0 || s0)))).

Definition one : spec_float := S754_finite false 4503599627370496 (-52).

(** A zero, or a positive float that is at most one. *)
Definition in_unit (r : spec_float) : Prop :=
  match r with
  | S754_zero _ => True
  | S754_finite false m e => e <= 0 /\ Z.pos m <= 2 ^ (- e)
  | _ => False
  end.

(** [m1 * 2^e1 <= m2 * 2^e2], read at an exponent below both. *)
Definition val_le (m1 : positive) (e1 : Z) (m2 : positive) (e2 : Z) : Prop :=
  exists c, c <= e1 /\ c <= e2 /\ Z.pos m1 * 2 ^ (e1 - c) <= Z.pos m2 * 2 ^ (e2 - c).

(** A zero, or a positive float in canonical form. *)
Definition nonneg_finite (x : spec_float) : Prop :=
  match x with
  | S754_zero _ => True
  | S754_finite false m e => bounded prec emax m e = true
  | _ => False
  end.


End Binary64.

(** ** Notions and ledgers for the statements about the ledger *)

Module Ledgers.
Import Calculations.
Local Open Scope Z_scope.

(** The amount that [generate_monthly_balance] reads for person B: the
    lookup is by name, and person A is tried first. *)
Definition paid_read_for_b (self : Contribution) : float :=
  if String.eqb (name (person_b self)) (name (person_a self)) then
    PyFloat.sum (Dict.values (shared_expenses_paid (person_a self)))
  else PyFloat.sum (Dict.values (shared_expenses_paid (person_b self))).

(** The person that [add_expense] charges for a registered name: person A
    is tried first. *)
Definition payer_of (self : Contribution) (paid_by : string) : person_ref :=
  if String.eqb paid_by (name (person_a self)) then PersonA else PersonB.

Definition other (r : person_ref) : person_ref :=
  match r with PersonA => PersonB | PersonB => PersonA end.

(** The ledger of the test suite as it is constructed, after the rent, and
    after the utilities. *)
Definition ledger0 : Contribution := new_contribution "Alice" 3000 "Bob" 2000.

Definition ledger1 : Contribution :=
  mkContribution
    (mkPerson "Alice" 3000 [] [("rent"%string, 1000%float)])
    (mkPerson "Bob" 2000 [] [])
    [("rent"%string, 1000%float)].

Definition ledger2 : Contribution :=
  mkContribution
    (mkPerson "Alice" 3000 [] [("rent"%string, 1000%float)])
    (mkPerson "Bob" 2000 [] [("utilities"%string, 200%float)])
    [("rent"%string, 1000%float); ("utilities"%string, 200%float)].

(** The euro sign, U+20AC, in UTF-8. *)
Definition euro_sign : string :=
  String "226" (String "130" (String "172" EmptyString)).

(** Two shared payments of [1e308] for the rent: their sum overflows. *)
Definition overflowing_calls : list call :=
  [ mkCall "rent" 1e308 "Alice" true; mkCall "rent" 1e308 "Alice" true ].

Definition overflowing_ledger : Contribution :=
  snd (run overflowing_calls (new_contribution "Alice" 3000 "Bob" 2000)).













End Ledgers.

(** ** Notions and frames for the statements about frames *)

Module Frames.
Import Categories.

(** A keyword of the list occurs, in upper case, in the description in
    upper case. *)
Definition keyword_matches (upper : string -> string) (description : string)
    (keywords : list string) : Prop :=
  exists keyword, In keyword keywords /\
    substring (upper keyword) (upper description).

(** The columns after the cells of [col] went through [f]. *)
Definition map_column (col : string) (f : list cell -> list cell)
    (cols : list (string * list cell)) : list (string * list cell) :=
  map (fun nv => if String.eqb (fst nv) col then (fst nv, f (snd nv)) else nv) cols.

(** The store [h'] is the store [h] with one more frame, [d'], at the
    reference [r'], which [h] does not use: every frame of [h] is in [h']
    as it was. *)
Definition extends_with (h h' : store) (r' : ref) (d' : DataFrame) : Prop :=
  h !! r' = None /\
  h' !! r' = Some d' /\
  forall r0 d0, h !! r0 = Some d0 -> h' !! r0 = Some d0.

(** The frame that [override_category] builds in its copy when pandas takes
    its two assignments. *)
Definition overridden (d : DataFrame) (label : Z) (new_category : string)
  : DataFrame :=
  loc_set (loc_set d label "category" (CStr new_category))
    label "auto_categorized" (CBool false).

(** pandas takes the two assignments of [override_category] on the frame
    [d]: the label is in the index or fits it, the column [category] takes
    the string, and the column [auto_categorized] then takes [False]. *)
Definition override_taken (takes : DataFrame -> Z -> string -> cell -> bool)
    (d : DataFrame) (label : Z) (new_category : string) : bool :=
  (has_label d label || fits_int64 label) &&
  takes d label "category" (CStr new_category) &&
  takes (loc_set d label "category" (CStr new_category)) label
    "auto_categorized" (CBool false).

Definition is_missing (c : cell) : bool :=
  match c with CNaN => true | _ => false end.

(** pandas 3 on the frames of this file: a column that holds only missing
    values has the dtype [float64] and takes neither a string nor a
    boolean; a column that holds a string or a boolean takes the value, and
    so does a column that the frame lacks, which the assignment adds. *)
Definition takes_unless_all_missing (d : DataFrame) (label : Z) (col : string)
    (v : cell) : bool :=
  match v, column (columns d) col with
  | CNaN, _ => true
  | _, Some vs => negb (forallb is_missing vs)
  | _, None => true
  end.

(** Two expenses that are not classified yet: the column [category] holds
    missing values only. *)
Definition unclassified_frame : DataFrame :=
  mkDataFrame [0; 1]%Z
    [ ("recipient_name"%string, [CStr "LIDL HELSINKI"; CStr "NETFLIX"]);
      ("category"%string, [CNaN; CNaN]) ].

(** The frame that [categorize_transactions] builds in its copy, from the
    cells of the description column. *)
Definition categorized (upper : string -> string) (d : DataFrame)
    (mappings : option mapping) (descriptions : list cell) : DataFrame :=
  frame_set_scalar
    (frame_set_column d "category"
       (map (fun x => CStr (categorize_transaction upper (str x) 0
                              (match mappings with
                               | Some m => m
                               | None => DEFAULT_CATEGORY_MAPPINGS
                               end)))
            descriptions))
    "auto_categorized" (CBool true).

(** The rows labelled [label] hold [v] in every column named [col], and
    there is such a column. *)
Definition settled (d : DataFrame) (label : Z) (col : string) (v : cell) : Prop :=
  has_label d label = true /\
  (exists vs, column (columns d) col = Some vs) /\
  Forall (fun nv => fst nv = col -> set_where label v (index d) (snd nv) = snd nv)
    (columns d).

(** Three expenses, as [categorize_transactions] returns them. *)
Definition classified_frame : DataFrame :=
  mkDataFrame [3; 5; 8]%Z
    [ ("recipient_name"%string, [CStr "LIDL HELSINKI"; CStr "NETFLIX"; CStr "HSL"]);
      ("category"%string, [CStr "food"; CStr "entertainment"; CStr "transport"]);
      ("auto_categorized"%string, [CBool true; CBool true; CBool true]) ].

(** The same frame after [override_category(df, 5, "streaming")]. *)
Definition overridden_frame : DataFrame :=
  mkDataFrame [3; 5; 8]%Z
    [ ("recipient_name"%string, [CStr "LIDL HELSINKI"; CStr "NETFLIX"; CStr "HSL"]);
      ("category"%string, [CStr "food"; CStr "streaming"; CStr "transport"]);
      ("auto_categorized"%string, [CBool true; CBool false; CBool true]) ].

End Frames.

(** ** Notions for the statements about whole amounts *)

Module Books.
Import Calculations.
Local Open Scope Z_scope.

(** A dictionary of whole amounts, with the operations of [Dict]. *)
Definition zdict : Type := list (string * Z).

Fixpoint zget (d : zdict) (k : string) : Z :=
  match d with
  | [] => 0
  | (k', v) :: d' => if String.eqb k' k then v else zget d' k
  end.

Fixpoint zset (d : zdict) (k : string) (v : Z) : zdict :=
  match d with
  | [] => [(k, v)]
  | (k', v') :: d' =>
      if String.eqb k' k then (k', v) :: d' else (k', v') :: zset d' k v
  end.

Fixpoint ztotal (d : zdict) : Z :=
  match d with
  | [] => 0
  | (_, v) :: d' => v + ztotal d'
  end.

(** The dictionary of floats that holds the whole amounts of [d]. *)
Definition floats (d : zdict) : Dict.t :=
  map (fun kv => (fst kv, PyFloat.of_Z (snd kv))) d.

Definition nonneg (d : zdict) : Prop := List.Forall (fun kv => 0 <= snd kv) d.

(** The payer of the call is one of [na] and [nb]. *)
Definition registered (na nb : string) (c : call) : Prop :=
  c_paid_by c = na \/ c_paid_by c = nb.

(** The shared payments of a sequence of calls on a ledger of [na] and [nb]
    are whole numbers: [ta] is the total of those that [add_expense] charges
    to person A, [tb] of those that it charges to person B. The name is
    compared with [na] first. Personal payments are not constrained. *)
Inductive whole_paid (na nb : string) : list call -> Z -> Z -> Prop :=
| paid_nil : whole_paid na nb [] 0 0
| paid_personal c cs ta tb :
    c_is_shared c = false ->
    whole_paid na nb cs ta tb ->
    whole_paid na nb (c :: cs) ta tb
| paid_by_a c cs ta tb n ta' :
    c_is_shared c = true ->
    0 <= n ->
    c_amount c = PyFloat.of_Z n ->
    String.eqb (c_paid_by c) na = true ->
    ta' = n + ta ->
    whole_paid na nb cs ta tb ->
    whole_paid na nb (c :: cs) ta' tb
| paid_by_b c cs ta tb n tb' :
    c_is_shared c = true ->
    0 <= n ->
    c_amount c = PyFloat.of_Z n ->
    String.eqb (c_paid_by c) na = false ->
    String.eqb (c_paid_by c) nb = true ->
    tb' = n + tb ->
    whole_paid na nb cs ta tb ->
    whole_paid na nb (c :: cs) ta tb'.

(** The three dictionaries of shared payments hold whole amounts, none
    negative: [ta] in all for person A, [tb] for person B, and [ta + tb] in
    the ledger. *)
Definition whole_books (ta tb : Z) (self : Contribution) : Prop :=
  exists za zb zs,
    nonneg za /\ nonneg zb /\ nonneg zs /\
    shared_expenses_paid (person_a self) = floats za /\
    shared_expenses_paid (person_b self) = floats zb /\
    shared_expenses self = floats zs /\
    ztotal za = ta /\ ztotal zb = tb /\ ztotal zs = ta + tb.

(** Both ledgers have persons of the same names and incomes. *)
Definition same_people (self self' : Contribution) : Prop :=
  name (person_a self') = name (person_a self) /\
  name (person_b self') = name (person_b self) /\
  monthly_income (person_a self') = monthly_income (person_a self) /\
  monthly_income (person_b self') = monthly_income (person_b self).

(** Rent 1000 and food 150 paid by Alice, utilities 200 paid by Bob, and a
    personal expense, in two orders. *)
Definition month_calls : list call :=
  [ mkCall "rent" 1000 "Alice" true; mkCall "utilities" 200 "Bob" true;
    mkCall "hobby" 50 "Alice" false; mkCall "food" 150 "Alice" true ].

Definition month_calls_reordered : list call :=
  [ mkCall "utilities" 200 "Bob" true; mkCall "rent" 1000 "Alice" true;
    mkCall "hobby" 50 "Alice" false; mkCall "food" 150 "Alice" true ].

End Books.

(** ** Notions for the statements about overrides *)

Module Tables.
Import Categories Frames.

(** The columns with a column [col] of missing values added last when they
    have no column of that name. *)
Definition ensure_column (col : string) (idx : list Z)
    (cols : list (string * list cell)) : list (string * list cell) :=
  match column cols col with
  | Some _ => cols
  | None => cols ++ [(col, map (fun _ => CNaN) idx)]
  end.

(** The columns in which [override_category] assigns: those of the frame
    with a row for the label, with the two columns it writes. *)
Definition override_columns (d : DataFrame) (label : Z) : list (string * list cell) :=
  ensure_column "auto_categorized" (index (with_label d label))
    (ensure_column "category" (index (with_label d label))
       (columns (with_label d label))).

(** Two expenses without categories, labelled 0 and 1. *)
Definition plain_frame : DataFrame :=
  mkDataFrame [0; 1]%Z
    [ ("recipient_name"%string, [CStr "K-Market Kamppi"; CStr "Helen Oy"]);
      ("date"%string, [CStr "01.02.2024"; CStr "03.02.2024"]) ].

End Tables.

(** ** [src/examples/process_monthly_expenses.py] *)

Module Examples.
Import Calculations.
Local Open Scope Z_scope.

(** What the loops of [process_monthly_expenses] read of a row of a
    classified statement: [row['category']] and [row['amount']]. *)
Record row : Type := mkRow {
  row_category : string;
  row_amount : float
}.

(** [for _, row in categorized.iterrows(): contribution.add_expense(
    category=row['category'], amount=row['amount'], paid_by=paid_by,
    is_shared=True)] *)
Fixpoint add_rows (rows : list row) (paid_by : string) : Py Contribution unit :=
  match rows with
  | [] => ret tt
  | r :: rows' =>
      (add_expense (row_category r) (row_amount r) paid_by true ;;;
       add_rows rows' paid_by)%py
  end.

(** [process_monthly_expenses] from the classified statements on: the two
    statements are read by [import_bank_report] and classified by
    [categorize_transactions], and their rows are given here in the order
    of the frames. The result is the report, or the exception that a call
    raised. *)
Definition process_monthly_expenses
    (person_a_name : string) (person_a_income : float) (categorized_a : list row)
    (person_b_name : string) (person_b_income : float) (categorized_b : list row)
  : outcome Balance :=
  let contribution :=
    new_contribution person_a_name person_a_income person_b_name person_b_income in
  fst ((add_rows categorized_a person_a_name ;;;
        add_rows categorized_b person_b_name ;;;
        generate_monthly_balance)%py contribution).

(** The calls of [add_expense] that the loop over a statement makes. *)
Definition calls_of (rows : list row) (paid_by : string) : list call :=
  map (fun r => mkCall (row_category r) (row_amount r) paid_by true) rows.

(** The amounts of the rows are the whole numbers [zs], none negative. *)
Definition whole_rows (rows : list row) (zs : list Z) : Prop :=
  Forall2 (fun r z => 0 <= z /\ row_amount r = PyFloat.of_Z z) rows zs.

Definition total (zs : list Z) : Z := fold_right Z.add 0 zs.

End Examples.

(** ** Binary64 arithmetic on its specification

    The primitive operations are specified by the functions of [SpecFloat]
    on sign, mantissa and exponent. The lemmas below read those functions as
    integer arithmetic: shifts are divisions by powers of two, and rounding
    is decided by the bits that are shifted out. *)

Module Binary64Facts.
Import Binary64.
Local Open Scope Z_scope.

Lemma digits2_pos_size (p : positive) : digits2_pos p = Pos.size p.
Proof. induction p; cbn [digits2_pos Pos.size]; congruence. Qed.

Lemma Zdigits2_bounds (p : positive) :
  2 ^ (Z.pos (digits2_pos p) - 1) <= Z.pos p < 2 ^ Z.pos (digits2_pos p).
Proof.
  rewrite digits2_pos_size.
  pose proof (Pos.size_gt p) as Hgt. pose proof (Pos.size_le p) as Hle.
  apply Pos2Z.pos_lt_pos in Hgt. apply Pos2Z.pos_le_pos in Hle.
  rewrite Pos2Z.inj_pow in Hgt, Hle. rewrite (Pos2Z.inj_xO p) in Hle.
  split; [|exact Hgt].
  replace (Z.pos (Pos.size p)) with (Z.succ (Z.pos (Pos.size p) - 1)) in Hle by lia.
  rewrite Z.pow_succ_r in Hle by lia. lia.
Qed.

Lemma digits2_pos_unique (p : positive) (d : Z) :
  2 ^ (d - 1) <= Z.pos p < 2 ^ d -> Z.pos (digits2_pos p) = d.
Proof.
  intros [Hlo Hhi]. pose proof (Zdigits2_bounds p) as [Hlo' Hhi'].
  assert (0 < d).
  { destruct (Z_lt_le_dec 0 d) as [|Hd]; [assumption|].
    assert (2 ^ d <= 1); [|lia].
    destruct (Z.eq_dec d 0) as [->|]; [reflexivity|].
    rewrite Z.pow_neg_r by lia. lia. }
  assert (Z.pos (digits2_pos p) - 1 < d).
  { apply (Z.pow_lt_mono_r_iff 2); lia. }
  assert (d - 1 < Z.pos (digits2_pos p)).
  { apply (Z.pow_lt_mono_r_iff 2); lia. }
  lia.
Qed.

Lemma iter_pos_nat {A} (f : A -> A) (p : positive) : forall x,
  SpecFloat.iter_pos f p x = Nat.iter (Pos.to_nat p) f x.
Proof.
  induction p as [p IH|p IH|]; intros x; cbn [SpecFloat.iter_pos].
  - rewrite !IH. rewrite Pos2Nat.inj_xI.
    replace (S (2 * Pos.to_nat p))%nat with (Pos.to_nat p + (Pos.to_nat p + 1))%nat by lia.
    rewrite !Nat.iter_add. reflexivity.
  - rewrite !IH. rewrite Pos2Nat.inj_xO.
    replace (2 * Pos.to_nat p)%nat with (Pos.to_nat p + Pos.to_nat p)%nat by lia.
    rewrite Nat.iter_add. reflexivity.
  - reflexivity.
Qed.

Lemma shr_1_nonneg (m : Z) (r s : bool) :
  0 <= m ->
  shr_1 (Build_shr_record m r s) = Build_shr_record (m / 2) (Z.odd m) (r || s).
Proof.
  intros Hm. rewrite <- Z.div2_div.
  destruct m as [|p|p]; [reflexivity| |lia].
  destruct p; reflexivity.
Qed.

Lemma mod_pow2_succ (m n : Z) :
  0 <= n ->
  m mod 2 ^ (n + 1) = m mod 2 ^ n + 2 ^ n * (if Z.odd (m / 2 ^ n) then 1 else 0).
Proof.
  intros Hn. assert (Hp : 0 < 2 ^ n) by (apply Z.pow_pos_nonneg; lia).
  rewrite Z.pow_add_r, Z.pow_1_r by lia.
  rewrite Z.rem_mul_r by lia. now rewrite Zmod_odd.
Qed.

(** [n + 1] right shifts of a mantissa: the quotient, the last bit that was
    shifted out, and whether any bit before it was set. *)
Lemma iter_shr_1 (n : nat) (m : Z) (r s : bool) :
  0 <= m ->
  Nat.iter (S n) shr_1 (Build_shr_record m r s) =
  Build_shr_record (m / 2 ^ (Z.of_nat n + 1)) (Z.odd (m / 2 ^ Z.of_nat n))
    (negb (m mod 2 ^ Z.of_nat n =? 0) || (r || s)).
Proof.
  intros Hm. induction n as [|n IH].
  - cbn [Nat.iter]. rewrite shr_1_nonneg by exact Hm.
    change (2 ^ (Z.of_nat 0 + 1)) with 2. change (2 ^ Z.of_nat 0) with 1.
    rewrite Z.div_1_r, Z.mod_1_r. reflexivity.
  - rewrite Nat.iter_succ, IH.
    assert (Hp : 0 < 2 ^ Z.of_nat n) by (apply Z.pow_pos_nonneg; lia).
    assert (Hp1 : 0 < 2 ^ (Z.of_nat n + 1)) by (apply Z.pow_pos_nonneg; lia).
    assert (Hq : 0 <= m / 2 ^ (Z.of_nat n + 1)) by (apply Z.div_pos; lia).
    rewrite shr_1_nonneg by exact Hq.
    replace (Z.of_nat (S n)) with (Z.of_nat n + 1) by lia.
    f_equal.
    + rewrite Z.div_div by lia.
      rewrite (Z.pow_add_r 2 (Z.of_nat n + 1) 1) by lia. reflexivity.
    + rewrite (mod_pow2_succ m (Z.of_nat n)) by lia.
      assert (Hb := Z.mod_pos_bound m (2 ^ Z.of_nat n) Hp).
      destruct (Z.odd (m / 2 ^ Z.of_nat n)); cbn [orb].
      * destruct (Z.eqb_spec (m mod 2 ^ Z.of_nat n + 2 ^ Z.of_nat n * 1) 0); [lia|].
        reflexivity.
      * rewrite Z.mul_0_r, Z.add_0_r. reflexivity.
Qed.

Lemma fexp64 (e : Z) : fexp prec emax e = Z.max (e - 53) (-1074).
Proof. reflexivity. Qed.

Lemma iter_xO (d : positive) (m : positive) :
  Z.pos (PosDef.Pos.iter xO m d) = Z.pos m * 2 ^ Z.pos d.
Proof.
  change (PosDef.Pos.iter xO m d) with (Pos.iter xO m d).
  rewrite Pos2Nat.inj_iter, <- (positive_nat_Z d).
  induction (Pos.to_nat d) as [|n IH]; cbn [nat_rect].
  - change (2 ^ Z.of_nat 0) with 1. lia.
  - rewrite Pos2Z.inj_xO, IH, Nat2Z.inj_succ, Z.pow_succ_r by lia. lia.
Qed.

(** Alignment to a smaller exponent multiplies the mantissa by a power of
    two; to any other exponent, it does nothing. *)
Lemma shl_align_spec (mx : positive) (ex ex' : Z) :
  shl_align mx ex ex' =
  if ex' <? ex then (Z.to_pos (Z.pos mx * 2 ^ (ex - ex')), ex') else (mx, ex).
Proof.
  unfold shl_align. destruct (Z.ltb_spec ex' ex) as [H|H].
  - destruct (ex' - ex) as [|p|p] eqn:E; try lia.
    f_equal. apply Pos2Z.inj. rewrite iter_xO.
    replace (ex - ex') with (Z.pos p) by lia.
    rewrite Z2Pos.id; [reflexivity|]. apply Z.mul_pos_pos; [lia|].
    apply Z.pow_pos_nonneg; lia.
  - destruct (ex' - ex) as [|p|p] eqn:E; try lia; reflexivity.
Qed.

Lemma shl_align_fst (mx : positive) (ex ex' : Z) :
  ex' <= ex ->
  Z.pos (fst (shl_align mx ex ex')) = Z.pos mx * 2 ^ (ex - ex').
Proof.
  intros H. rewrite shl_align_spec. destruct (Z.ltb_spec ex' ex) as [H'|H']; cbn [fst].
  - rewrite Z2Pos.id; [reflexivity|]. apply Z.mul_pos_pos; [lia|].
    apply Z.pow_pos_nonneg; lia.
  - replace (ex - ex') with 0 by lia. lia.
Qed.

Lemma shr_spec (m : Z) (r s : bool) (e t : Z) :
  0 <= m ->
  shr (Build_shr_record m r s) e t =
  if 0 <? t then
    (Build_shr_record (m / 2 ^ t) (Z.odd (m / 2 ^ (t - 1)))
       (negb (m mod 2 ^ (t - 1) =? 0) || (r || s)), e + t)
  else (Build_shr_record m r s, e).
Proof.
  intros Hm. unfold shr. destruct t as [|p|p]; try reflexivity.
  change (0 <? Z.pos p) with true. cbv iota. f_equal.
  rewrite iter_pos_nat.
  destruct (Pos.to_nat p) as [|n] eqn:E; [pose proof (Pos2Nat.is_pos p); lia|].
  rewrite iter_shr_1 by exact Hm.
  assert (Z.pos p = Z.of_nat n + 1) as -> by lia.
  now replace (Z.of_nat n + 1 - 1) with (Z.of_nat n) by lia.
Qed.

Lemma binary_round_aux_unfold (sx : bool) (mx ex : Z) (lx : location) :
  binary_round_aux prec emax sx mx ex lx =
  let '(mrs, e) := shr_fexp prec emax mx ex lx in
  finish sx (round_nearest_even (shr_m mrs) (loc_of_shr_record mrs)) e.
Proof. reflexivity. Qed.

Lemma shr_fexp_exact_spec (m e : Z) :
  0 <= m ->
  shr_fexp prec emax m e loc_Exact =
  let t := fexp prec emax (Zdigits2 m + e) - e in
  if 0 <? t then
    (Build_shr_record (m / 2 ^ t) (Z.odd (m / 2 ^ (t - 1)))
       (negb (m mod 2 ^ (t - 1) =? 0)), e + t)
  else (Build_shr_record m false false, e).
Proof.
  intros Hm. unfold shr_fexp. cbn [shr_record_of_loc].
  rewrite shr_spec by exact Hm. cbv zeta.
  destruct (0 <? _); [|reflexivity]. now rewrite orb_false_r.
Qed.

(** A mantissa of at most 53 bits at its canonical exponent is final. *)
Lemma finish_canonical (sx : bool) (q : positive) (e : Z) :
  fexp prec emax (Z.pos (digits2_pos q) + e) <= e ->
  e <= 971 ->
  finish sx (Z.pos q) e = S754_finite sx q e.
Proof.
  intros Hc He. unfold finish. rewrite shr_fexp_exact_spec by lia. cbv zeta.
  cbn [Zdigits2].
  destruct (Z.ltb_spec 0 (fexp prec emax (Z.pos (digits2_pos q) + e) - e)); [lia|].
  cbn [shr_m]. change (emax - prec) with 971.
  destruct (Z.leb_spec e 971); [reflexivity|lia].
Qed.

Lemma digits_mul_pow2 (n q : positive) (k : Z) :
  0 <= k -> Z.pos q = Z.pos n * 2 ^ k ->
  Z.pos (digits2_pos q) = Z.pos (digits2_pos n) + k.
Proof.
  intros Hk Hq. apply digits2_pos_unique. rewrite Hq.
  pose proof (Zdigits2_bounds n) as [Hlo Hhi].
  assert (0 < 2 ^ k) by (apply Z.pow_pos_nonneg; lia).
  replace (Z.pos (digits2_pos n) + k - 1) with (Z.pos (digits2_pos n) - 1 + k) by lia.
  rewrite !Z.pow_add_r by lia. nia.
Qed.

(** Rounding an integer below [2^53], given with trailing zero bits, is
    exact. *)
Lemma binary_round_integer (n q : positive) (k : Z) :
  0 <= k ->
  Z.pos q = Z.pos n * 2 ^ k ->
  Z.pos n < 2 ^ 53 ->
  binary_round prec emax false q (- k) = canonical_integer n.
Proof.
  intros Hk Hq Hn. unfold binary_round, canonical_integer.
  pose proof (Zdigits2_bounds n) as [Hlo Hhi].
  set (d := Z.pos (digits2_pos n)) in *.
  assert (Hd : 1 <= d <= 53).
  { split; [subst d; lia|].
    destruct (Z_le_gt_dec d 53) as [|Hgt]; [assumption|exfalso].
    assert (2 ^ 53 <= 2 ^ (d - 1)) by (apply Z.pow_le_mono_r; lia). lia. }
  rewrite (digits_mul_pow2 n q k Hk Hq). fold d.
  replace (d + k + - k) with d by lia.
  rewrite fexp64. replace (Z.max (d - 53) (-1074)) with (d - 53) by lia.
  assert (Hpk : 0 < 2 ^ k) by (apply Z.pow_pos_nonneg; lia).
  assert (Hpd : 0 < 2 ^ (53 - d)) by (apply Z.pow_pos_nonneg; lia).
  assert (Hm53 : forall m : positive, Z.pos m = Z.pos n * 2 ^ (53 - d) ->
             Z.pos (digits2_pos m) = 53).
  { intros m Hm. rewrite (digits_mul_pow2 n m (53 - d)) by (lia || exact Hm).
    fold d. lia. }
  rewrite shl_align_spec. destruct (Z.ltb_spec (d - 53) (- k)) as [Hlt|Hge].
  - (* the mantissa is shifted left to 53 bits *)
    replace (Z.pos q * 2 ^ (- k - (d - 53))) with (Z.pos n * 2 ^ (53 - d)).
    2:{ rewrite Hq, <- Z.mul_assoc, <- Z.pow_add_r by lia. f_equal. f_equal. lia. }
    set (m := Z.to_pos (Z.pos n * 2 ^ (53 - d))).
    assert (Hm : Z.pos m = Z.pos n * 2 ^ (53 - d)) by (subst m; rewrite Z2Pos.id; nia).
    rewrite binary_round_aux_unfold, shr_fexp_exact_spec by lia. cbv zeta.
    cbn [Zdigits2]. rewrite (Hm53 m Hm), fexp64.
    destruct (Z.ltb_spec 0 (Z.max (53 + (d - 53) - 53) (-1074) - (d - 53))); [lia|].
    cbn [shr_m loc_of_shr_record round_nearest_even].
    apply finish_canonical; [rewrite (Hm53 m Hm), fexp64|]; lia.
  - (* the trailing zeros are shifted out *)
    rewrite binary_round_aux_unfold, shr_fexp_exact_spec by lia. cbv zeta.
    cbn [Zdigits2]. rewrite (digits_mul_pow2 n q k Hk Hq). fold d.
    replace (d + k + - k) with d by lia. rewrite fexp64.
    replace (Z.max (d - 53) (-1074) - - k) with (d - 53 + k) by lia.
    set (t := d - 53 + k).
    assert (Hdiv : Z.pos q / 2 ^ t = Z.pos n * 2 ^ (53 - d)).
    { rewrite Hq. replace k with (53 - d + t) by lia.
      rewrite Z.pow_add_r, Z.mul_assoc by lia.
      apply Z.div_mul. apply Z.pow_nonzero; lia. }
    set (m := Z.to_pos (Z.pos n * 2 ^ (53 - d))).
    assert (Hm : Z.pos m = Z.pos n * 2 ^ (53 - d)) by (subst m; rewrite Z2Pos.id; nia).
    destruct (Z.ltb_spec 0 t) as [Ht|Ht].
    + assert (Hodd : Z.odd (Z.pos q / 2 ^ (t - 1)) = false).
      { rewrite Hq. replace k with (1 + (53 - d) + (t - 1)) by lia.
        rewrite !Z.pow_add_r, !Z.mul_assoc by lia.
        rewrite Z.div_mul by (apply Z.pow_nonzero; lia).
        rewrite Z.mul_shuffle0, Z.pow_1_r, Z.odd_mul. apply andb_false_r. }
      assert (Hmod : Z.pos q mod 2 ^ (t - 1) = 0).
      { rewrite Hq. replace k with (1 + (53 - d) + (t - 1)) by lia.
        rewrite !Z.pow_add_r, !Z.mul_assoc by lia.
        apply Z.mod_mul. apply Z.pow_nonzero; lia. }
      rewrite Hodd, Hmod, Hdiv, <- Hm.
      cbn [Z.eqb negb shr_m loc_of_shr_record round_nearest_even].
      replace (- k + t) with (d - 53) by lia.
      apply finish_canonical; [rewrite (Hm53 m Hm), fexp64|]; lia.
    + assert (t = 0) by lia. 
      assert (Hqm : q = m).
      { apply Pos2Z.inj. rewrite Hm, Hq. f_equal. f_equal. lia. }
      cbn [shr_m loc_of_shr_record round_nearest_even]. rewrite Hqm.
      replace (- k) with (d - 53) by lia.
      apply finish_canonical; [rewrite (Hm53 m Hm), fexp64|]; lia.
Qed.

Lemma binary_normalize_integer (n : Z) :
  0 <= n < 2 ^ 53 ->
  binary_normalize prec emax n 0 false = float_of_nonneg n.
Proof.
  intros [Hlo Hhi]. destruct n as [|p|p]; [reflexivity| |lia].
  cbn [binary_normalize float_of_nonneg].
  apply (binary_round_integer p p 0); [lia| |exact Hhi].
  change (2 ^ 0) with 1. lia.
Qed.

Lemma Prim2SF_of_Z (n : Z) :
  0 <= n < 2 ^ 53 ->
  Prim2SF (of_uint63 (Uint63.of_Z n)) = float_of_nonneg n.
Proof.
  intros Hn. rewrite of_uint63_spec, Uint63.of_Z_spec.
  rewrite Z.mod_small.
  - now apply binary_normalize_integer.
  - change Uint63.wB with (2 ^ 63). 
    assert (2 ^ 53 < 2 ^ 63) by reflexivity. lia.
Qed.

(** The sum of the floats of two integers is the float of their sum, as long
    as the sum is below [2^53]. *)
Lemma SFadd_integers (m n : Z) :
  0 <= m -> 0 <= n -> m + n < 2 ^ 53 ->
  SF64add (float_of_nonneg m) (float_of_nonneg n) = float_of_nonneg (m + n).
Proof.
  intros Hm Hn Hsum.
  destruct m as [|p|p]; try lia.
  - destruct n as [|q|q]; try lia; reflexivity.
  - destruct n as [|q|q]; try lia; [reflexivity|].
    cbn [float_of_nonneg Z.add]. unfold canonical_integer at 1 2.
    unfold SF64add, SFadd. cbv zeta.
    pose proof (Zdigits2_bounds p) as [Hplo Hphi].
    pose proof (Zdigits2_bounds q) as [Hqlo Hqhi].
    set (dp := Z.pos (digits2_pos p)) in *.
    set (dq := Z.pos (digits2_pos q)) in *.
    assert (Hdp : 1 <= dp <= 53).
    { split; [subst dp; lia|].
      destruct (Z_le_gt_dec dp 53) as [|Hgt]; [assumption|exfalso].
      assert (2 ^ 53 <= 2 ^ (dp - 1)) by (apply Z.pow_le_mono_r; lia). lia. }
    assert (Hdq : 1 <= dq <= 53).
    { split; [subst dq; lia|].
      destruct (Z_le_gt_dec dq 53) as [|Hgt]; [assumption|exfalso].
      assert (2 ^ 53 <= 2 ^ (dq - 1)) by (apply Z.pow_le_mono_r; lia). lia. }
    set (ez := Z.min (dp - 53) (dq - 53)).
    cbn [cond_Zopp].
    rewrite !shl_align_fst by (subst ez; lia).
    assert (Hpp : 0 < 2 ^ (53 - dp)) by (apply Z.pow_pos_nonneg; lia).
    assert (Hpq : 0 < 2 ^ (53 - dq)) by (apply Z.pow_pos_nonneg; lia).
    rewrite !Z2Pos.id by nia.
    rewrite <- !Z.mul_assoc, <- !Z.pow_add_r by (subst ez; lia).
    replace (53 - dp + (dp - 53 - ez)) with (- ez) by lia.
    replace (53 - dq + (dq - 53 - ez)) with (- ez) by lia.
    rewrite <- Z.mul_add_distr_r, Pos2Z.add_pos_pos.
    assert (Hk : 0 < 2 ^ (- ez)) by (apply Z.pow_pos_nonneg; subst ez; lia).
    destruct (Z.pos (p + q) * 2 ^ (- ez)) as [|s|s] eqn:Es; try nia.
    cbn [binary_normalize].
    replace ez with (- - ez) at 1 by lia.
    apply (binary_round_integer (p + q) s (- ez)); [subst ez; lia|now symmetry|lia].
Qed.

(** *** Rounding in general *)

Lemma digits_div_pow2 (q : positive) (t : Z) (m : positive) :
  0 <= t -> Z.pos q / 2 ^ t = Z.pos m ->
  Z.pos (digits2_pos m) = Z.pos (digits2_pos q) - t.
Proof.
  intros Ht Hm. apply digits2_pos_unique. rewrite <- Hm.
  pose proof (Zdigits2_bounds q) as [Hlo Hhi].
  assert (Hp : 0 < 2 ^ t) by (apply Z.pow_pos_nonneg; lia).
  assert (Hdt : t < Z.pos (digits2_pos q)).
  { destruct (Z_lt_le_dec t (Z.pos (digits2_pos q))) as [|Hge]; [assumption|exfalso].
    assert (2 ^ Z.pos (digits2_pos q) <= 2 ^ t) by (apply Z.pow_le_mono_r; lia).
    rewrite Z.div_small in Hm by lia. lia. }
  split.
  - apply Z.div_le_lower_bound; [exact Hp|].
    rewrite <- Z.pow_add_r by lia.
    now replace (t + (Z.pos (digits2_pos q) - t - 1)) with (Z.pos (digits2_pos q) - 1) by lia.
  - apply Z.div_lt_upper_bound; [exact Hp|].
    rewrite <- Z.pow_add_r by lia.
    now replace (t + (Z.pos (digits2_pos q) - t)) with (Z.pos (digits2_pos q)) by lia.
Qed.

(** Rounding a mantissa that has enough trailing zero bits is exact. *)
Lemma binary_round_exact (n q : positive) (k ex e1 : Z) :
  0 <= k ->
  Z.pos q = Z.pos n * 2 ^ k ->
  e1 = fexp prec emax (Z.pos (digits2_pos q) + ex) ->
  e1 <= ex + k ->
  e1 <= 971 ->
  binary_round prec emax false q ex =
  S754_finite false (Z.to_pos (Z.pos n * 2 ^ (ex + k - e1))) e1.
Proof.
  intros Hk Hq He1 Hfit Hmax. unfold binary_round. rewrite <- He1.
  assert (Hpk : 0 < 2 ^ k) by (apply Z.pow_pos_nonneg; lia).
  assert (Hpf : 0 < 2 ^ (ex + k - e1)) by (apply Z.pow_pos_nonneg; lia).
  set (m := Z.to_pos (Z.pos n * 2 ^ (ex + k - e1))).
  assert (Hm : Z.pos m = Z.pos n * 2 ^ (ex + k - e1)) by (subst m; rewrite Z2Pos.id; nia).
  rewrite shl_align_spec. destruct (Z.ltb_spec e1 ex) as [Hlt|Hge].
  - assert (Hmq : Z.pos q * 2 ^ (ex - e1) = Z.pos m).
    { rewrite Hm, Hq, <- Z.mul_assoc, <- Z.pow_add_r by lia. f_equal. f_equal. lia. }
    rewrite Hmq, Pos2Z.id.
    assert (Hdm : Z.pos (digits2_pos m) = Z.pos (digits2_pos q) + (ex - e1)).
    { apply (digits_mul_pow2 q m (ex - e1)); [lia|now symmetry]. }
    rewrite binary_round_aux_unfold, shr_fexp_exact_spec by lia. cbv zeta.
    cbn [Zdigits2]. rewrite Hdm.
    replace (Z.pos (digits2_pos q) + (ex - e1) + e1) with (Z.pos (digits2_pos q) + ex) by lia.
    rewrite <- He1, Z.sub_diag. change (0 <? 0) with false. cbv iota.
    cbn [shr_m loc_of_shr_record round_nearest_even].
    apply finish_canonical; [|exact Hmax]. rewrite Hdm.
    replace (Z.pos (digits2_pos q) + (ex - e1) + e1) with (Z.pos (digits2_pos q) + ex) by lia.
    lia.
  - rewrite binary_round_aux_unfold, shr_fexp_exact_spec by lia. cbv zeta.
    cbn [Zdigits2]. rewrite <- He1.
    set (t := e1 - ex).
    assert (Hdiv : Z.pos q / 2 ^ t = Z.pos m).
    { rewrite Hm, Hq. replace k with (ex + k - e1 + t) by lia.
      rewrite Z.pow_add_r, Z.mul_assoc by lia.
      replace (ex + (ex + k - e1 + t) - e1) with (ex + k - e1) by lia.
      apply Z.div_mul. apply Z.pow_nonzero; lia. }
    assert (Hdm : Z.pos (digits2_pos m) = Z.pos (digits2_pos q) - t).
    { apply (digits_div_pow2 q t m); [lia|exact Hdiv]. }
    destruct (Z.ltb_spec 0 t) as [Ht|Ht].
    + assert (Hmod : Z.pos q mod 2 ^ (t - 1) = 0).
      { rewrite Hq. replace k with (k - (t - 1) + (t - 1)) by lia.
        rewrite Z.pow_add_r, Z.mul_assoc by lia.
        apply Z.mod_mul. apply Z.pow_nonzero; lia. }
      assert (Hodd : Z.odd (Z.pos q / 2 ^ (t - 1)) = false).
      { rewrite Hq. replace k with (1 + (k - t) + (t - 1)) by lia.
        rewrite !Z.pow_add_r, !Z.mul_assoc by lia.
        rewrite Z.div_mul by (apply Z.pow_nonzero; lia).
        rewrite Z.mul_shuffle0, Z.pow_1_r, Z.odd_mul. apply andb_false_r. }
      rewrite Hodd, Hmod, Hdiv.
      cbn [Z.eqb negb shr_m loc_of_shr_record round_nearest_even].
      replace (ex + t) with e1 by lia.
      apply finish_canonical; [|exact Hmax]. rewrite Hdm.
      replace (Z.pos (digits2_pos q) - t + e1) with (Z.pos (digits2_pos q) + ex) by lia.
      lia.
    + assert (Ht0 : t = 0) by lia. rewrite Ht0 in Hdiv, Hdm.
      change (2 ^ 0) with 1 in Hdiv. rewrite Z.div_1_r in Hdiv.
      apply Pos2Z.inj in Hdiv. subst q.
      cbn [shr_m loc_of_shr_record round_nearest_even].
      replace ex with e1 by lia.
      apply finish_canonical; [|exact Hmax]. rewrite He1 at 2.
      replace (Z.pos (digits2_pos m) + e1) with (Z.pos (digits2_pos m) + ex) by lia.
      lia.
Qed.

Lemma rnd_between (r0 s0 : bool) (M t : Z) :
  M / 2 ^ t <= rnd r0 s0 M t <= M / 2 ^ t + 1.
Proof.
  unfold rnd. cbv zeta. cbn [loc_of_shr_record].
  destruct (Z.odd (M / 2 ^ (t - 1))), (negb _ || _); cbn [round_nearest_even];
    try lia.
  destruct (Z.even (M / 2 ^ t)); lia.
Qed.

(** The remainder of the shift against half a unit decides the rounding. *)
Lemma rnd_cases (M t : Z) :
  0 <= M -> 1 <= t ->
  let q := M / 2 ^ t in
  let rem := M mod 2 ^ t in
  (2 * rem < 2 ^ t -> rnd false false M t = q) /\
  (2 ^ t < 2 * rem -> rnd false false M t = q + 1) /\
  (2 * rem = 2 ^ t -> rnd false false M t = if Z.even q then q else q + 1).
Proof.
  intros HM Ht. cbv zeta. unfold rnd. cbv zeta. rewrite orb_false_r.
  assert (Hp : 0 < 2 ^ (t - 1)) by (apply Z.pow_pos_nonneg; lia).
  assert (Hrem : M mod 2 ^ t =
            M mod 2 ^ (t - 1) + 2 ^ (t - 1) * (if Z.odd (M / 2 ^ (t - 1)) then 1 else 0)).
  { replace t with (t - 1 + 1) at 1 by lia. apply mod_pow2_succ. lia. }
  assert (H2 : 2 ^ t = 2 * 2 ^ (t - 1)).
  { replace t with (Z.succ (t - 1)) at 1 by lia. apply Z.pow_succ_r. lia. }
  pose proof (Z.mod_pos_bound M (2 ^ (t - 1)) Hp) as Hb.
  rewrite Hrem, H2.
  destruct (Z.odd (M / 2 ^ (t - 1)));
    destruct (Z.eqb_spec (M mod 2 ^ (t - 1)) 0) as [E|E];
    cbn [negb loc_of_shr_record round_nearest_even]; repeat split; intros; lia.
Qed.

(** Rounding when bits have to be shifted out. *)
Lemma binary_round_shift (q : positive) (ex t : Z) :
  t = fexp prec emax (Z.pos (digits2_pos q) + ex) - ex ->
  0 < t ->
  binary_round prec emax false q ex = finish false (rnd false false (Z.pos q) t) (ex + t).
Proof.
  intros Ht Hpos. unfold binary_round.
  rewrite shl_align_spec.
  destruct (Z.ltb_spec (fexp prec emax (Z.pos (digits2_pos q) + ex)) ex); [lia|].
  rewrite binary_round_aux_unfold, shr_fexp_exact_spec by lia. cbv zeta.
  cbn [Zdigits2]. rewrite <- Ht.
  destruct (Z.ltb_spec 0 t); [|lia]. unfold rnd. cbv zeta.
  now rewrite orb_false_r.
Qed.

Lemma finish_zero (sx : bool) (e : Z) : finish sx 0 e = S754_zero sx.
Proof.
  unfold finish. rewrite shr_fexp_exact_spec by lia. cbv zeta.
  destruct (0 <? _); reflexivity.
Qed.

(** The rounding carried into bit 54: one more shift. *)
Lemma finish_carry (sx : bool) (e : Z) :
  -1075 <= e -> e + 1 <= 971 ->
  finish sx (2 ^ 53) e = S754_finite sx (2 ^ 52) (e + 1).
Proof.
  intros Hlo Hhi. unfold finish. rewrite shr_fexp_exact_spec by lia. cbv zeta.
  change (Zdigits2 (2 ^ 53)) with 54. rewrite fexp64.
  replace (Z.max (54 + e - 53) (-1074) - e) with 1 by lia.
  change (0 <? 1) with true. cbv iota. change (2 ^ 53 / 2 ^ 1) with (2 ^ 52).
  change (2 ^ 52) with (Z.pos (2 ^ 52)). cbn [shr_m].
  change (emax - prec) with 971.
  destruct (Z.leb_spec (e + 1) 971); [reflexivity|lia].
Qed.

(** *** A ratio and its complement *)

Lemma pow2_split (t : Z) : 0 <= t -> 2 ^ (t + 1) = 2 * 2 ^ t.
Proof. intros. rewrite Z.pow_add_r, Z.pow_1_r by lia. lia. Qed.

(** A sum within half a unit in the last place of one is rounded to one. *)
Lemma round_to_one (S : positive) (t delta : Z) :
  1 <= t ->
  Z.pos S = 2 ^ 53 * 2 ^ t + delta ->
  - 2 ^ t <= 2 * delta <= 2 ^ t ->
  binary_round prec emax false S (-53 - t) = one.
Proof.
  intros Ht HS Hd.
  assert (HP : 2 <= 2 ^ t).
  { replace t with (t - 1 + 1) by lia. rewrite pow2_split by lia.
    assert (0 < 2 ^ (t - 1)) by (apply Z.pow_pos_nonneg; lia). lia. }
  assert (H53 : 2 ^ 53 = 9007199254740992) by reflexivity.
  assert (H52 : 2 ^ 52 = 4503599627370496) by reflexivity.
  destruct (Z_lt_le_dec delta 0) as [Hneg|Hpos].
  - assert (Hdig : Z.pos (digits2_pos S) = 53 + t).
    { apply digits2_pos_unique.
      replace (53 + t - 1) with (52 + t) by lia.
      rewrite !Z.pow_add_r by lia. rewrite HS. lia. }
    rewrite (binary_round_shift S (-53 - t) t) by (try rewrite Hdig, fexp64; lia).
    replace (-53 - t + t) with (-53) by lia.
    assert (Hq : Z.pos S / 2 ^ t = 2 ^ 53 - 1).
    { symmetry. apply (Z.div_unique _ _ _ (2 ^ t + delta)); lia. }
    assert (Hr : Z.pos S mod 2 ^ t = 2 ^ t + delta).
    { symmetry. apply (Z.mod_unique _ _ (2 ^ 53 - 1)); lia. }
    destruct (rnd_cases (Z.pos S) t) as (Hlt & Hgt & Heq); [lia|lia|].
    cbv zeta in Hlt, Hgt, Heq. rewrite Hq, Hr in *.
    assert (Hrnd : rnd false false (Z.pos S) t = 2 ^ 53).
    { destruct (Z.eq_dec (2 * (2 ^ t + delta)) (2 ^ t)) as [E|E].
      - rewrite (Heq E). rewrite H53. reflexivity.
      - rewrite Hgt by lia. lia. }
    rewrite Hrnd. rewrite finish_carry by lia. reflexivity.
  - assert (Hdig : Z.pos (digits2_pos S) = 54 + t).
    { apply digits2_pos_unique.
      replace (54 + t - 1) with (53 + t) by lia.
      rewrite !Z.pow_add_r by lia. rewrite HS.
      change (2 ^ 54) with (2 * 2 ^ 53). lia. }
    rewrite (binary_round_shift S (-53 - t) (t + 1)) by (try rewrite Hdig, fexp64; lia).
    replace (-53 - t + (t + 1)) with (-52) by lia.
    assert (H2 : 2 ^ (t + 1) = 2 * 2 ^ t) by (apply pow2_split; lia).
    assert (Hq : Z.pos S / 2 ^ (t + 1) = 2 ^ 52).
    { symmetry. apply (Z.div_unique _ _ _ delta); lia. }
    assert (Hr : Z.pos S mod 2 ^ (t + 1) = delta).
    { symmetry. apply (Z.mod_unique _ _ (2 ^ 52)); lia. }
    destruct (rnd_cases (Z.pos S) (t + 1)) as (Hlt & _ & _); [lia|lia|].
    cbv zeta in Hlt. rewrite Hq, Hr in Hlt. rewrite Hlt by lia.
    rewrite H52. apply (finish_canonical false 4503599627370496 (-52)); [|lia].
    reflexivity.
Qed.

(** [1 - x] for a float [x = m * 2^e] below [2^-1]: a float whose distance
    to the exact difference is at most half a unit in its last place. *)
Lemma sub_from_one (m : positive) (t : Z) :
  1 <= t ->
  Z.pos m < 2 ^ 53 ->
  exists ms es,
    SF64sub one (S754_finite false m (-53 - t)) = S754_finite false ms es /\
    -53 - t <= es /\
    - 2 ^ t <= 2 * (Z.pos ms * 2 ^ (es - (-53 - t)) + Z.pos m - 2 ^ 53 * 2 ^ t) <= 2 ^ t.
Proof.
  intros Ht Hm.
  assert (HP : 2 <= 2 ^ t).
  { replace t with (t - 1 + 1) by lia. rewrite pow2_split by lia.
    assert (0 < 2 ^ (t - 1)) by (apply Z.pow_pos_nonneg; lia). lia. }
  assert (H53 : 2 ^ 53 = 9007199254740992) by reflexivity.
  assert (H52 : 2 ^ 52 = 4503599627370496) by reflexivity.
  unfold SF64sub, SFsub, one. cbv zeta.
  replace (Z.min (-52) (-53 - t)) with (-53 - t) by lia.
  rewrite !shl_align_fst by lia. cbn [cond_Zopp].
  replace (-52 - (-53 - t)) with (t + 1) by lia. rewrite pow2_split by lia.
  rewrite Z.sub_diag. change (2 ^ 0) with 1. rewrite Z.mul_1_r.
  change (Z.pos 4503599627370496) with (2 ^ 52).
  replace (2 ^ 52 * (2 * 2 ^ t)) with (2 ^ 53 * 2 ^ t) by lia.
  destruct (2 ^ 53 * 2 ^ t - Z.pos m) as [|D|D] eqn:ED; try lia.
  cbn [binary_normalize].
  assert (Hdig : Z.pos (digits2_pos D) = 53 + t).
  { apply digits2_pos_unique.
    replace (53 + t - 1) with (52 + t) by lia.
    rewrite !Z.pow_add_r by lia. lia. }
  rewrite (binary_round_shift D (-53 - t) t) by (try rewrite Hdig, fexp64; lia).
  replace (-53 - t + t) with (-53) by lia.
  pose proof (Z.div_mod (Z.pos D) (2 ^ t) ltac:(lia)) as Hdm.
  pose proof (Z.mod_pos_bound (Z.pos D) (2 ^ t) ltac:(lia)) as Hrb.
  destruct (rnd_cases (Z.pos D) t) as (Hlt & Hgt & Heq); [lia|lia|].
  cbv zeta in Hlt, Hgt, Heq.
  pose proof (rnd_between false false (Z.pos D) t) as Hbt.
  set (q := Z.pos D / 2 ^ t) in *. set (rem := Z.pos D mod 2 ^ t) in *.
  set (q' := rnd false false (Z.pos D) t) in *.
  assert (Hq : 2 ^ 52 <= q <= 2 ^ 53 - 1) by nia.
  assert (Hdelta : - 2 ^ t <= 2 * (q' * 2 ^ t - Z.pos D) <= 2 ^ t).
  { destruct (Z.lt_trichotomy (2 * rem) (2 ^ t)) as [H|[H|H]].
    - rewrite (Hlt H). nia.
    - assert (q' = q \/ q' = q + 1) as [-> | ->] by lia; nia.
    - rewrite (Hgt H). nia. }
  destruct (Z.eq_dec q' (2 ^ 53)) as [Ecarry|Ecarry].
  - rewrite Ecarry in *. rewrite finish_carry by lia.
    exists 4503599627370496%positive, (-52). split; [reflexivity|]. split; [lia|].
    replace (-52 - (-53 - t)) with (t + 1) by lia. rewrite pow2_split by lia.
    change (Z.pos 4503599627370496) with (2 ^ 52). lia.
  - destruct q' as [|qp|qp] eqn:Eq'; try lia.
    assert (Hqd : Z.pos (digits2_pos qp) = 53).
    { apply digits2_pos_unique. change (53 - 1) with 52. lia. }
    rewrite finish_canonical by (try rewrite Hqd, fexp64; lia).
    exists qp, (-53). split; [reflexivity|]. split; [lia|].
    replace (-53 - (-53 - t)) with t by lia. lia.
Qed.

(** A float [x] in the unit interval and the float [1 - x] add up to one. *)
Lemma add_complement (m : positive) (e : Z) :
  e <= -53 ->
  Z.pos m < 2 ^ 53 ->
  SF64add (S754_finite false m e) (SF64sub one (S754_finite false m e)) = one.
Proof.
  intros He Hm.
  assert (H53 : 2 ^ 53 = 9007199254740992) by reflexivity.
  assert (H52 : 2 ^ 52 = 4503599627370496) by reflexivity.
  destruct (Z.eq_dec e (-53)) as [->|Hne].
  - (* the difference is exact *)
    unfold SF64sub, SFsub, one. cbv zeta.
    change (Z.min (-52) (-53)) with (-53).
    rewrite !shl_align_fst by lia. cbn [cond_Zopp].
    change (Z.pos 4503599627370496 * 2 ^ (-52 - -53)) with (2 ^ 53).
    rewrite Z.sub_diag. change (2 ^ 0) with 1. rewrite Z.mul_1_r.
    destruct (2 ^ 53 - Z.pos m) as [|D|D] eqn:ED; try lia.
    cbn [binary_normalize].
    pose proof (Zdigits2_bounds D) as [Hlo Hhi].
    set (d := Z.pos (digits2_pos D)) in *.
    assert (Hd : 1 <= d <= 53).
    { split; [subst d; lia|].
      destruct (Z_le_gt_dec d 53) as [|Hgt]; [assumption|exfalso].
      assert (2 ^ 53 <= 2 ^ (d - 1)) by (apply Z.pow_le_mono_r; lia). lia. }
    rewrite (binary_round_exact D D 0 (-53) (d - 106));
      [|lia|change (2 ^ 0) with 1; lia|fold d; rewrite fexp64; lia|lia|lia].
    replace (-53 + 0 - (d - 106)) with (53 - d) by lia.
    assert (Hpd : 0 < 2 ^ (53 - d)) by (apply Z.pow_pos_nonneg; lia).
    unfold SF64add, SFadd. cbv zeta.
    replace (Z.min (-53) (d - 106)) with (d - 106) by lia.
    rewrite !shl_align_fst by lia. cbn [cond_Zopp].
    rewrite Z2Pos.id by nia. rewrite Z.sub_diag. change (2 ^ 0) with 1.
    rewrite Z.mul_1_r. replace (-53 - (d - 106)) with (53 - d) by lia.
    rewrite <- Z.mul_add_distr_r.
    replace (Z.pos m + Z.pos D) with (2 ^ 53) by lia.
    rewrite <- Z.pow_add_r by lia.
    destruct (2 ^ (53 + (53 - d))) as [|Q|Q] eqn:EQ;
      try (assert (0 < 2 ^ (53 + (53 - d))) by (apply Z.pow_pos_nonneg; lia); lia).
    cbn [binary_normalize].
    assert (HdQ : Z.pos (digits2_pos Q) = 107 - d).
    { apply digits2_pos_unique. rewrite <- EQ.
      replace (107 - d - 1) with (53 + (53 - d)) by lia.
      split; [lia|]. apply Z.pow_lt_mono_r; lia. }
    rewrite (binary_round_exact 1 Q (106 - d) (d - 106) (-52));
      [|lia|rewrite <- EQ, Z.mul_1_l; f_equal; lia|rewrite HdQ, fexp64; lia|lia|lia].
    replace (d - 106 + (106 - d) - -52) with 52 by lia. reflexivity.
  - (* the difference is rounded *)
    set (t := -53 - e). assert (Ht : 1 <= t) by lia.
    replace e with (-53 - t) by lia.
    destruct (sub_from_one m t Ht Hm) as (ms & es & -> & Hes & Hdelta).
    unfold SF64add, SFadd. cbv zeta.
    replace (Z.min (-53 - t) es) with (-53 - t) by lia.
    rewrite !shl_align_fst by lia. cbn [cond_Zopp].
    rewrite Z.sub_diag. change (2 ^ 0) with 1. rewrite Z.mul_1_r.
    assert (Hp : 0 < 2 ^ (es - (-53 - t))) by (apply Z.pow_pos_nonneg; lia).
    destruct (Z.pos m + Z.pos ms * 2 ^ (es - (-53 - t))) as [|S|S] eqn:ES; try nia.
    cbn [binary_normalize].
    apply (round_to_one S t (Z.pos ms * 2 ^ (es - (-53 - t)) + Z.pos m - 2 ^ 53 * 2 ^ t));
      [exact Ht|lia|exact Hdelta].
Qed.

(** *** Rounding does not leave the unit interval *)

Lemma digits_le (p : positive) (k : Z) :
  0 <= k -> Z.pos p <= 2 ^ k -> Z.pos (digits2_pos p) <= k + 1.
Proof.
  intros Hk Hp. pose proof (Zdigits2_bounds p) as [Hlo _].
  assert (Z.pos (digits2_pos p) - 1 <= k); [|lia].
  apply (Z.pow_le_mono_r_iff 2); lia.
Qed.

Lemma Zdigits2_le (q k : Z) :
  0 <= q -> 0 <= k -> q <= 2 ^ k -> Zdigits2 q <= k + 1.
Proof.
  intros Hq Hk Hle. destruct q as [|p|p]; cbn [Zdigits2]; [lia| |lia].
  now apply digits_le.
Qed.

Lemma loc_of_record_of_loc (q : Z) (l : location) :
  loc_of_shr_record (shr_record_of_loc q l) = l.
Proof. destruct l as [|[]]; reflexivity. Qed.

Lemma shr_m_record_of_loc (q : Z) (l : location) :
  shr_m (shr_record_of_loc q l) = q.
Proof. destruct l as [|[]]; reflexivity. Qed.

Lemma round_nearest_even_between (q : Z) (l : location) :
  q <= round_nearest_even q l <= q + 1.
Proof.
  destruct l as [|[]]; cbn [round_nearest_even]; try lia.
  destruct (Z.even q); lia.
Qed.

(** The first rounding of [binary_round_aux], on a quotient that is at most
    one and is exact when it is one. *)
Lemma first_round_in_unit (q e : Z) (lz : location) :
  0 <= q -> e <= 0 -> q <= 2 ^ (- e) ->
  (q = 2 ^ (- e) -> lz = loc_Exact) ->
  exists q1 e1,
    (let '(mrs, e') := shr_fexp prec emax q e lz in
     (round_nearest_even (shr_m mrs) (loc_of_shr_record mrs), e')) = (q1, e1) /\
    0 <= q1 <= 2 ^ (- e1) /\ e1 <= 0.
Proof.
  intros Hq He Hle Hex. unfold shr_fexp.
  assert (Hrec : shr_record_of_loc q lz =
            Build_shr_record q (shr_r (shr_record_of_loc q lz))
              (shr_s (shr_record_of_loc q lz))).
  { destruct lz as [|[]]; reflexivity. }
  pose proof (Zdigits2_le q (- e) Hq ltac:(lia) Hle) as Hd.
  set (t := fexp prec emax (Zdigits2 q + e) - e) in *.
  assert (Ht : e + t <= 0) by (subst t; rewrite fexp64; lia).
  rewrite Hrec, shr_spec by exact Hq. rewrite <- Hrec.
  destruct (Z.ltb_spec 0 t) as [Hpos|Hneg].
  - cbn [shr_m].
    set (r0 := shr_r (shr_record_of_loc q lz)). set (s0 := shr_s (shr_record_of_loc q lz)).
    exists (rnd r0 s0 q t), (e + t). split; [reflexivity|]. split; [|exact Ht].
    pose proof (rnd_between r0 s0 q t) as Hb.
    assert (Hp : 0 < 2 ^ t) by (apply Z.pow_pos_nonneg; lia).
    assert (Hsplit : 2 ^ (- e) = 2 ^ (- (e + t)) * 2 ^ t).
    { rewrite <- Z.pow_add_r by lia. f_equal. lia. }
    assert (Hdiv : 0 <= q / 2 ^ t <= 2 ^ (- (e + t))).
    { split; [apply Z.div_pos; lia|].
      apply Z.div_le_upper_bound; [lia|]. rewrite Z.mul_comm. lia. }
    split; [lia|].
    destruct (Z.eq_dec (q / 2 ^ t) (2 ^ (- (e + t)))) as [E|E]; [|lia].
    assert (Hqe : q = 2 ^ (- e)).
    { pose proof (Z.mul_div_le q (2 ^ t) Hp). nia. }
    assert (Hr0 : r0 = false) by (subst r0; now rewrite (Hex Hqe)).
    assert (Hs0 : s0 = false) by (subst s0; now rewrite (Hex Hqe)).
    unfold rnd. cbv zeta. rewrite Hr0, Hs0, orb_false_r.
    assert (Hq1 : q = 2 ^ (- (e + t) + 1) * 2 ^ (t - 1)).
    { rewrite Hqe, <- Z.pow_add_r by lia. f_equal. lia. }
    assert (Hp1 : 2 ^ (t - 1) <> 0) by (apply Z.pow_nonzero; lia).
    assert (Hdiv1 : q / 2 ^ (t - 1) = 2 * 2 ^ (- (e + t))).
    { rewrite Hq1, Z.div_mul by exact Hp1. apply pow2_split. lia. }
    assert (Hmod1 : q mod 2 ^ (t - 1) = 0).
    { rewrite Hq1. now apply Z.mod_mul. }
    rewrite Hdiv1, Hmod1, Z.odd_mul. cbn [Z.odd andb Z.eqb negb].
    cbn [loc_of_shr_record round_nearest_even]. lia.
  - exists (round_nearest_even q lz), e.
    rewrite shr_m_record_of_loc, loc_of_record_of_loc.
    split; [reflexivity|]. split; [|exact He].
    pose proof (round_nearest_even_between q lz) as Hb. split; [lia|].
    destruct (Z.eq_dec q (2 ^ (- e))) as [E|E]; [|lia].
    rewrite (Hex E). cbn [round_nearest_even]. lia.
Qed.

Lemma finish_in_unit (q1 e1 : Z) :
  0 <= q1 <= 2 ^ (- e1) -> e1 <= 0 -> in_unit (finish false q1 e1).
Proof.
  intros [Hq Hle] He. unfold finish.
  rewrite shr_fexp_exact_spec by exact Hq. cbv zeta.
  pose proof (Zdigits2_le q1 (- e1) Hq ltac:(lia) Hle) as Hd.
  set (t := fexp prec emax (Zdigits2 q1 + e1) - e1) in *.
  assert (Ht : e1 + t <= 0) by (subst t; rewrite fexp64; lia).
  change (emax - prec) with 971.
  destruct (Z.ltb_spec 0 t) as [Hpos|Hneg]; cbn [shr_m].
  - assert (Hp : 0 < 2 ^ t) by (apply Z.pow_pos_nonneg; lia).
    assert (Hsplit : 2 ^ (- e1) = 2 ^ (- (e1 + t)) * 2 ^ t).
    { rewrite <- Z.pow_add_r by lia. f_equal. lia. }
    assert (Hdiv : 0 <= q1 / 2 ^ t <= 2 ^ (- (e1 + t))).
    { split; [apply Z.div_pos; lia|].
      apply Z.div_le_upper_bound; [lia|]. rewrite Z.mul_comm. lia. }
    destruct (q1 / 2 ^ t) as [|p|p]; [exact I| |lia].
    destruct (Z.leb_spec (e1 + t) 971); [|lia].
    cbn [in_unit]. lia.
  - destruct q1 as [|p|p]; [exact I| |lia].
    destruct (Z.leb_spec e1 971); [|lia].
    cbn [in_unit]. lia.
Qed.

(** Rounding a quotient that is at most one, and exact when it is one,
    gives a float that is at most one. *)
Lemma binary_round_aux_in_unit (q e : Z) (lz : location) :
  0 <= q -> e <= 0 -> q <= 2 ^ (- e) ->
  (q = 2 ^ (- e) -> lz = loc_Exact) ->
  in_unit (binary_round_aux prec emax false q e lz).
Proof.
  intros Hq He Hle Hex. rewrite binary_round_aux_unfold.
  destruct (first_round_in_unit q e lz Hq He Hle Hex) as (q1 & e1 & Heq & Hb & He1).
  destruct (shr_fexp prec emax q e lz) as [mrs e'].
  inversion Heq. subst. now apply finish_in_unit.
Qed.

(** *** A sum is not below its terms, a quotient by it not above one *)

Lemma val_le_refl (m : positive) (e : Z) : val_le m e m e.
Proof. exists e. repeat split; lia. Qed.

Lemma finish_overflow (sx : bool) (q : positive) (e : Z) :
  fexp prec emax (Z.pos (digits2_pos q) + e) <= e ->
  971 < e ->
  finish sx (Z.pos q) e = S754_infinity sx.
Proof.
  intros Hc He. unfold finish. rewrite shr_fexp_exact_spec by lia. cbv zeta.
  cbn [Zdigits2].
  destruct (Z.ltb_spec 0 (fexp prec emax (Z.pos (digits2_pos q) + e) - e)); [lia|].
  cbn [shr_m]. change (emax - prec) with 971.
  destruct (Z.leb_spec e 971); [lia|reflexivity].
Qed.

Lemma finish_carry_overflow (sx : bool) (e : Z) :
  971 < e + 1 ->
  finish sx (2 ^ 53) e = S754_infinity sx.
Proof.
  intros Hhi. unfold finish. rewrite shr_fexp_exact_spec by lia. cbv zeta.
  change (Zdigits2 (2 ^ 53)) with 54. rewrite fexp64.
  replace (Z.max (54 + e - 53) (-1074) - e) with 1 by lia.
  change (0 <? 1) with true. cbv iota. change (2 ^ 53 / 2 ^ 1) with (2 ^ 52).
  change (2 ^ 52) with (Z.pos (2 ^ 52)). cbn [shr_m].
  change (emax - prec) with 971.
  destruct (Z.leb_spec (e + 1) 971); [lia|reflexivity].
Qed.

(** The rounded sum of a float and a non-negative amount is infinite or not
    below the float. *)
Lemma sum_not_below (mx : positive) (ex : Z) (S : positive) (ez : Z) :
  Z.pos (digits2_pos mx) <= 53 -> ex <= 971 ->
  -1074 <= ez -> ez <= ex ->
  Z.pos mx * 2 ^ (ex - ez) <= Z.pos S ->
  binary_round prec emax false S ez = S754_infinity false \/
  exists ms es,
    binary_round prec emax false S ez = S754_finite false ms es /\
    val_le mx ex ms es.
Proof.
  intros Hdx Hex Hez Hle HS.
  pose proof (Zdigits2_bounds S) as [HSlo HShi].
  pose proof (Zdigits2_bounds mx) as [Hxlo Hxhi].
  set (d := Z.pos (digits2_pos S)) in *.
  set (e1 := fexp prec emax (d + ez)).
  assert (He1 : e1 = Z.max (d + ez - 53) (-1074)) by (subst e1; apply fexp64).
  assert (Hpx : 0 < 2 ^ (ex - ez)) by (apply Z.pow_pos_nonneg; lia).
  destruct (Z_le_gt_dec e1 ez) as [Hfit|Hshift].
  - right.
    rewrite (binary_round_exact S S 0 ez e1);
      [|lia|change (2 ^ 0) with 1; lia|reflexivity|lia|lia].
    do 2 eexists. split; [reflexivity|].
    exists e1. split; [lia|]. split; [lia|].
    assert (Hpf : 0 < 2 ^ (ez - e1)) by (apply Z.pow_pos_nonneg; lia).
    rewrite Z2Pos.id by (replace (ez + 0 - e1) with (ez - e1) by lia; nia).
    rewrite Z.sub_diag. change (2 ^ 0) with 1. rewrite Z.mul_1_r.
    replace (ex - e1) with (ex - ez + (ez - e1)) by lia.
    replace (ez + 0 - e1) with (ez - e1) by lia.
    rewrite Z.pow_add_r by lia. nia.
  - set (t := e1 - ez). assert (Ht : 0 < t) by lia.
    assert (Hd : d = 53 + t) by lia.
    rewrite (binary_round_shift S ez t) by (fold d; fold e1; lia).
    replace (ez + t) with e1 by lia.
    assert (Hp : 0 < 2 ^ t) by (apply Z.pow_pos_nonneg; lia).
    assert (HSlo' : 2 ^ 52 * 2 ^ t <= Z.pos S).
    { rewrite <- Z.pow_add_r by lia. now replace (52 + t) with (d - 1) by lia. }
    assert (HShi' : Z.pos S < 2 ^ 53 * 2 ^ t).
    { rewrite <- Z.pow_add_r by lia. now replace (53 + t) with d by lia. }
    pose proof (rnd_between false false (Z.pos S) t) as Hb.
    set (q := Z.pos S / 2 ^ t) in *. set (q' := rnd false false (Z.pos S) t) in *.
    assert (Hq : 2 ^ 52 <= q < 2 ^ 53).
    { split; [apply Z.div_le_lower_bound; lia|apply Z.div_lt_upper_bound; lia]. }
    pose proof (Z.mul_div_le (Z.pos S) (2 ^ t) Hp) as Hqle. fold q in Hqle.
    assert (H53 : 2 ^ 53 = 2 * 2 ^ 52) by reflexivity.
    assert (Hbelow : Z.pos mx * 2 ^ (ex - ez) <= q * 2 ^ t).
    { destruct (Z_le_gt_dec e1 ex) as [Hge|Hlt].
      - assert (Hpe : 0 < 2 ^ (ex - e1)) by (apply Z.pow_pos_nonneg; lia).
        assert (Hsplit : 2 ^ (ex - ez) = 2 ^ (ex - e1) * 2 ^ t).
        { rewrite <- Z.pow_add_r by lia. f_equal. lia. }
        assert (Z.pos mx * 2 ^ (ex - e1) <= q).
        { apply Z.div_le_lower_bound; [lia|]. rewrite Hsplit in HS. lia. }
        rewrite Hsplit. nia.
      - assert (Hmx : Z.pos mx < 2 ^ 53).
        { apply Z.lt_le_trans with (1 := Hxhi). apply Z.pow_le_mono_r; lia. }
        assert (Hsplit : 2 ^ t = 2 ^ (ex - ez) * 2 ^ (t - (ex - ez))).
        { rewrite <- Z.pow_add_r by lia. f_equal. lia. }
        assert (Hrest : 2 <= 2 ^ (t - (ex - ez))).
        { change 2 with (2 ^ 1) at 1. apply Z.pow_le_mono_r; lia. }
        rewrite Hsplit. nia. }
    destruct (Z.eq_dec q' (2 ^ 53)) as [Ecarry|Ecarry].
    + rewrite Ecarry. destruct (Z_le_gt_dec (e1 + 1) 971) as [Hok|Hov].
      * right. rewrite finish_carry by lia.
        do 2 eexists. split; [reflexivity|].
        exists ez. split; [lia|]. split; [lia|].
        change (Z.pos (2 ^ 52)) with (2 ^ 52).
        replace (e1 + 1 - ez) with (t + 1) by lia. rewrite pow2_split by lia. nia.
      * left. apply finish_carry_overflow. lia.
    + destruct q' as [|qp|qp] eqn:Eq'; try lia.
      assert (Hqd : Z.pos (digits2_pos qp) = 53).
      { apply digits2_pos_unique. change (53 - 1) with 52. lia. }
      destruct (Z_le_gt_dec e1 971) as [Hok|Hov].
      * right. rewrite finish_canonical by (try rewrite Hqd, fexp64; lia).
        do 2 eexists. split; [reflexivity|].
        exists ez. split; [lia|]. split; [lia|].
        fold t. nia.
      * left. apply finish_overflow; [rewrite Hqd, fexp64|]; lia.
Qed.

Lemma new_location_zero (n : Z) : new_location n 0 = loc_Exact.
Proof. unfold new_location. destruct (Z.even n); reflexivity. Qed.

(** The quotient of a float by a float that is not below it is at most
    one. *)
Lemma div_in_unit (mx : positive) (ex : Z) (ms : positive) (es : Z) :
  val_le mx ex ms es ->
  in_unit (SF64div (S754_finite false mx ex) (S754_finite false ms es)).
Proof.
  intros (c & Hcx & Hcs & Hle).
  unfold SF64div, SFdiv, SFdiv_core_binary. cbn [Zdigits2 xorb].
  pose proof (Zdigits2_bounds mx) as [Hxlo Hxhi].
  pose proof (Zdigits2_bounds ms) as [Hslo Hshi].
  set (d1 := Z.pos (digits2_pos mx)) in *. set (d2 := Z.pos (digits2_pos ms)) in *.
  assert (Hpx : 0 < 2 ^ (ex - c)) by (apply Z.pow_pos_nonneg; lia).
  assert (Hps : 0 < 2 ^ (es - c)) by (apply Z.pow_pos_nonneg; lia).
  assert (Hdig : d1 + ex <= d2 + es).
  { assert (2 ^ (d1 - 1 + (ex - c)) < 2 ^ (d2 + (es - c))).
    { rewrite !Z.pow_add_r by (subst d1 d2; lia). nia. }
    assert (d1 - 1 + (ex - c) < d2 + (es - c)); [|lia].
    apply (Z.pow_lt_mono_r_iff 2); subst d1 d2; lia. }
  set (e' := Z.min (fexp prec emax (d1 + ex - (d2 + es))) (ex - es)).
  assert (He' : e' <= -53) by (subst e'; rewrite fexp64; lia).
  set (sh := ex - es - e'). assert (Hsh : 0 <= sh) by (subst sh e'; lia).
  assert (Hm' : match sh with
                | 0 => Z.pos mx
                | Z.pos _ => Z.shiftl (Z.pos mx) sh
                | Z.neg _ => 0
                end = Z.pos mx * 2 ^ sh).
  { destruct sh as [|p|p] eqn:E; [change (2 ^ 0) with 1; lia| |lia].
    apply Z.shiftl_mul_pow2. lia. }
  cbv zeta. rewrite Hm'.
  pose proof (Z_div_mod (Z.pos mx * 2 ^ sh) (Z.pos ms) ltac:(lia)) as Hdm.
  destruct (Z.div_eucl (Z.pos mx * 2 ^ sh) (Z.pos ms)) as [q r].
  destruct Hdm as [Heq Hr].
  assert (Hpsh : 0 < 2 ^ sh) by (apply Z.pow_pos_nonneg; lia).
  assert (Hpe : 0 < 2 ^ (- e')) by (apply Z.pow_pos_nonneg; lia).
  assert (Hscale : (Z.pos ms * q + r) * 2 ^ (es - c) = Z.pos mx * 2 ^ (ex - c) * 2 ^ (- e')).
  { rewrite <- Heq, <- !Z.mul_assoc, <- !Z.pow_add_r by lia.
    f_equal. f_equal. subst sh. lia. }
  assert (Hq0 : 0 <= q) by nia.
  assert (Hqle : q <= 2 ^ (- e')) by nia.
  apply binary_round_aux_in_unit; [exact Hq0|lia|exact Hqle|].
  intros Eq. assert (r = 0) as -> by nia. apply new_location_zero.
Qed.

Lemma bounded_inv (m : positive) (e : Z) :
  bounded prec emax m e = true ->
  Z.pos (digits2_pos m) <= 53 /\ -1074 <= e <= 971 /\
  fexp prec emax (Z.pos (digits2_pos m) + e) = e.
Proof.
  unfold bounded, canonical_mantissa. intros H.
  apply andb_true_iff in H. destruct H as [Hc Hb].
  apply Z.eqb_eq in Hc. apply Z.leb_le in Hb. change (emax - prec) with 971 in Hb.
  pose proof Hc as Hc'. rewrite fexp64 in Hc'. repeat split; lia || assumption.
Qed.

(** The ratio of a non-negative float to a non-zero sum of it and another
    non-negative float is in the unit interval. *)
Lemma ratio_in_unit (x y : spec_float) :
  nonneg_finite x -> nonneg_finite y ->
  SFeqb (SF64add x y) (S754_zero false) = false ->
  in_unit (SF64div x (SF64add x y)).
Proof.
  intros Hx Hy Hnz.
  destruct x as [sx|sx| |sx mx ex]; try contradiction;
    destruct y as [sy|sy| |sy my ey]; try contradiction.
  - exfalso. destruct sx, sy; discriminate Hnz.
  - destruct sy; [contradiction|]. cbn. exact I.
  - destruct sx; [contradiction|]. cbn [SF64add SFadd]. unfold SF64add. cbn [SFadd].
    apply div_in_unit, val_le_refl.
  - destruct sx; [contradiction|]. destruct sy; [contradiction|].
    cbn [nonneg_finite] in Hx, Hy.
    destruct (bounded_inv mx ex Hx) as (Hdx & Hex & _).
    destruct (bounded_inv my ey Hy) as (Hdy & Hey & _).
    unfold SF64add, SFadd. cbv zeta. cbn [cond_Zopp].
    set (ez := Z.min ex ey).
    rewrite !shl_align_fst by (subst ez; lia).
    assert (Hpx : 0 < 2 ^ (ex - ez)) by (apply Z.pow_pos_nonneg; subst ez; lia).
    assert (Hpy : 0 < 2 ^ (ey - ez)) by (apply Z.pow_pos_nonneg; subst ez; lia).
    destruct (Z.pos mx * 2 ^ (ex - ez) + Z.pos my * 2 ^ (ey - ez)) as [|S|S] eqn:ES;
      try nia.
    cbn [binary_normalize].
    assert (HS : Z.pos mx * 2 ^ (ex - ez) <= Z.pos S).
    { assert (0 < Z.pos my * 2 ^ (ey - ez)) by (apply Z.mul_pos_pos; lia). lia. }
    destruct (sum_not_below mx ex S ez Hdx ltac:(lia) ltac:(subst ez; lia)
                ltac:(subst ez; lia) HS) as [Hinf|(ms & es & Hfin & Hval)].
    + rewrite Hinf. cbn. exact I.
    + rewrite Hfin. now apply div_in_unit.
Qed.

(** A float of the unit interval and its complement to one add up to one. *)
Lemma add_complement_in_unit (r : spec_float) :
  valid_binary r = true -> in_unit r ->
  SF64add r (SF64sub one r) = one.
Proof.
  intros Hv Hu. destruct r as [s|s| |s m e]; try contradiction.
  - destruct s; reflexivity.
  - destruct s; [contradiction|]. cbn [in_unit] in Hu. destruct Hu as [He Hm].
    cbn [valid_binary] in Hv. destruct (bounded_inv m e Hv) as (Hd & Hrange & Hcanon).
    pose proof (Zdigits2_bounds m) as [Hlo Hhi].
    rewrite fexp64 in Hcanon.
    destruct (Z.eq_dec (Z.pos m) (2 ^ (- e))) as [Eone|Hlt].
    + assert (Hdig : Z.pos (digits2_pos m) = - e + 1).
      { apply digits2_pos_unique. rewrite Eone.
        replace (- e + 1 - 1) with (- e) by lia. split; [lia|].
        apply Z.pow_lt_mono_r; lia. }
      assert (e = -52) by lia. subst e.
      assert (m = 4503599627370496%positive) by (apply Pos2Z.inj; rewrite Eone; reflexivity).
      subst m. vm_compute. reflexivity.
    + assert (Hdig : Z.pos (digits2_pos m) <= - e).
      { assert (Z.pos (digits2_pos m) - 1 < - e); [|lia].
        apply (Z.pow_lt_mono_r_iff 2); lia. }
      apply add_complement; [lia|].
      apply Z.lt_le_trans with (1 := Hhi). apply Z.pow_le_mono_r; lia.
Qed.

(** *** Sums that are floats *)











End Binary64Facts.

(** ** Facts about floats *)

Section FloatFacts.

Local Open Scope float_scope.

(** [x + (-x) == 0] holds exactly for the finite floats: the sum of an
    infinity and its opposite, or of two NaNs, is NaN, which equals
    nothing. *)
Lemma add_opp_eqb_zero (x : float) :
  (x + - x =? 0) = PyFloat.isfinite x.
Proof.
  rewrite FloatAxioms.eqb_spec, add_spec, opp_spec. unfold PyFloat.isfinite.
  change (Prim2SF 0) with (S754_zero false).
  destruct (Prim2SF x) as [s|s| |s m e];
    try reflexivity; try (destruct s; reflexivity).
  unfold SF64add, SFadd, SFopp. cbv zeta. rewrite Z.min_id.
  unfold shl_align. rewrite Z.sub_diag. cbn [fst].
  destruct s; cbn [negb cond_Zopp];
    rewrite ?Z.add_opp_diag_l, ?Z.add_opp_diag_r; reflexivity.
Qed.

End FloatFacts.

(** ** Facts about dictionaries *)

Section DictFacts.

Lemma dict_get_set_same d k v dflt : Dict.get (Dict.set d k v) k dflt = v.
Proof.
  induction d as [|[k' v'] d IH]; simpl.
  - now rewrite String.eqb_refl.
  - destruct (String.eqb k' k) eqn:E; simpl; rewrite E; auto.
Qed.

Lemma dict_get_set_other d k k' v dflt :
  k <> k' -> Dict.get (Dict.set d k v) k' dflt = Dict.get d k' dflt.
Proof.
  intros Hne. induction d as [|[k0 v0] d IH]; simpl.
  - destruct (String.eqb k k') eqn:E; [apply String.eqb_eq in E; congruence | reflexivity].
  - destruct (String.eqb k0 k) eqn:E; simpl.
    + apply String.eqb_eq in E. subst k0.
      destruct (String.eqb k k') eqn:E'; [apply String.eqb_eq in E'; congruence | reflexivity].
    + destruct (String.eqb k0 k'); auto.
Qed.

End DictFacts.

(** ** The ledger *)

Module CalculationsFacts.
Import Calculations Ledgers.

(** [add_expense] written out by cases on the payer and on [is_shared]. *)
Lemma add_expense_unfold category amount paid_by is_shared self :
  add_expense category amount paid_by is_shared self =
  if String.eqb paid_by (name (person_a self)) then
    (Return tt,
     if is_shared then
       mkContribution (add_shared_paid category amount (person_a self)) (person_b self)
         (Dict.set (shared_expenses self) category
            (Dict.get (shared_expenses self) category 0 + amount)%float)
     else
       mkContribution (add_personal category amount (person_a self)) (person_b self)
         (shared_expenses self))
  else if String.eqb paid_by (name (person_b self)) then
    (Return tt,
     if is_shared then
       mkContribution (person_a self) (add_shared_paid category amount (person_b self))
         (Dict.set (shared_expenses self) category
            (Dict.get (shared_expenses self) category 0 + amount)%float)
     else
       mkContribution (person_a self) (add_personal category amount (person_b self))
         (shared_expenses self))
  else (Raise (unknown_person paid_by), self).
Proof.
  unfold add_expense, bind, get_state, ret, raise, update_person, modify, add_shared_total.
  destruct (String.eqb paid_by (name (person_a self)));
    [destruct is_shared; reflexivity|].
  destruct (String.eqb paid_by (name (person_b self)));
    [destruct is_shared; reflexivity|].
  reflexivity.
Qed.

Lemma run_reachable cs : forall self self',
  reachable self -> run cs self = (Return tt, self') -> reachable self'.
Proof.
  induction cs as [|c cs IH]; intros self self' Hr Hrun.
  - inversion Hrun. subst. exact Hr.
  - cbn [run] in Hrun. unfold bind in Hrun.
    destruct (do_call c self) as [[[]|e] s1] eqn:E; [|discriminate].
    eapply IH; [|exact Hrun]. eapply reach_add; eauto.
Qed.

(** [generate_monthly_balance] always returns, leaves the ledger as it is,
    and its report is a function of the incomes, the names, and the two
    dictionaries of shared payments. *)
Lemma generate_monthly_balance_unfold self :
  generate_monthly_balance self =
  (let total := PyFloat.sum (Dict.values (shared_expenses self)) in
   let ratios := calculate_income_ratio (person_a self) (person_b self) in
   let fair_share_a := (total * fst ratios)%float in
   let fair_share_b := (total * snd ratios)%float in
   let actual_paid_a := PyFloat.sum (Dict.values (shared_expenses_paid (person_a self))) in
   let balance_a := (fair_share_a - actual_paid_a)%float in
   (Return
      (mkBalance total
         (mkPersonBalance (name (person_a self)) fair_share_a actual_paid_a balance_a)
         (mkPersonBalance (name (person_b self)) fair_share_b (paid_read_for_b self)
            (- balance_a)%float)
         (_generate_summary (name (person_a self)) (name (person_b self)) balance_a)),
    self)).
Proof.
  unfold generate_monthly_balance, calculate_fair_shares, get_person_shared_paid,
    get_total_shared_expenses, paid_read_for_b, bind, get_state, ret, raise.
  destruct (calculate_income_ratio (person_a self) (person_b self)) as [ra rb].
  rewrite String.eqb_refl.
  destruct (String.eqb (name (person_b self)) (name (person_a self))) eqn:E.
  - reflexivity.
  - rewrite String.eqb_refl. reflexivity.
Qed.

End CalculationsFacts.

(** ** Settlement: the two balances *)

Module Settlement.
Import Calculations Ledgers CalculationsFacts.
Local Open Scope float_scope.

(** C1 (as amended). For every ledger, [generate_monthly_balance] returns a
    report and leaves the ledger as it is; in the report
    [balance_a = fair_share_a - actual_paid_a] and [balance_b] is the
    negation of [balance_a]; and [balance_a + balance_b == 0] holds exactly
    when [balance_a] is finite. *)
Theorem balance_b_is_opposite_of_balance_a (self : Contribution) :
  exists r,
    generate_monthly_balance self = (Return r, self) /\
    balance (balance_person_a r) =
      fair_share (balance_person_a r) - actual_paid (balance_person_a r) /\
    balance (balance_person_b r) = - balance (balance_person_a r) /\
    (balance (balance_person_a r) + balance (balance_person_b r) =? 0) =
      PyFloat.isfinite (balance (balance_person_a r)).
Proof.
  rewrite generate_monthly_balance_unfold. cbv zeta.
  eexists. split; [reflexivity|]. cbn [balance fair_share actual_paid
    balance_person_a balance_person_b].
  repeat split. apply add_opp_eqb_zero.
Qed.

(** C1, as stated, fails: [overflowing_ledger] is reached by two successful
    calls of [add_expense] with finite amounts, the total is [infinity],
    [balance_a] is [infinity - infinity], a NaN, and the two balances do
    not add up to zero. *)
Lemma zero_sum_fails_after_overflow :
  reachable overflowing_ledger /\
  exists r,
    generate_monthly_balance overflowing_ledger = (Return r, overflowing_ledger) /\
    (balance (balance_person_a r) + balance (balance_person_b r) =? 0) = false.
Proof.
  split.
  - apply (run_reachable overflowing_calls
             (new_contribution "Alice" 3000 "Bob" 2000)); [apply reach_new|].
    vm_compute. reflexivity.
  - eexists. split; [vm_compute; reflexivity|]. vm_compute. reflexivity.
Qed.

End Settlement.

(** ** Unknown payers *)

Module UnknownPerson.
Import Calculations Ledgers CalculationsFacts.

(** C4. [add_expense] and [get_person_shared_paid] raise exactly when the
    name is the name of neither person of the ledger; the exception is
    [ValueError("Unknown person: <name>")], and the ledger, with both
    persons' dictionaries, is then the one before the call. With the name of
    one of the two persons both calls return. *)
Theorem unknown_person_raises_and_keeps_ledger
    (category : string) (amount : float) (who : string) (is_shared : bool)
    (self : Contribution) :
  (who <> name (person_a self) /\ who <> name (person_b self) ->
     add_expense category amount who is_shared self
       = (Raise (unknown_person who), self) /\
     get_person_shared_paid who self = (Raise (unknown_person who), self)) /\
  (who = name (person_a self) \/ who = name (person_b self) ->
     (exists self', add_expense category amount who is_shared self = (Return tt, self')) /\
     (exists paid, get_person_shared_paid who self = (Return paid, self))).
Proof.
  rewrite add_expense_unfold.
  unfold get_person_shared_paid, bind, get_state, ret, raise.
  split.
  - intros [Ha Hb].
    apply String.eqb_neq in Ha, Hb. rewrite Ha, Hb. split; reflexivity.
  - intros H.
    destruct (String.eqb who (name (person_a self))) eqn:Ea; [split; eauto|].
    destruct (String.eqb who (name (person_b self))) eqn:Eb; [split; eauto|].
    apply String.eqb_neq in Ea, Eb. destruct H; congruence.
Qed.

Lemma unknown_person_raises_and_keeps_ledger_witness :
  add_expense "food" 100 "Charlie" true ledger0
    = (Raise (ValueError "Unknown person: Charlie"), ledger0) /\
  get_person_shared_paid "Charlie" ledger0
    = (Raise (ValueError "Unknown person: Charlie"), ledger0).
Proof.
  apply (proj1 (unknown_person_raises_and_keeps_ledger
                  "food" 100 "Charlie" true ledger0)).
  split; discriminate.
Defined.

End UnknownPerson.

(** ** The worked settlement of the test suite *)

Module Scenario.
Import Calculations Ledgers.

(** C8 (as amended). With Alice (3000) and Bob (2000), rent 1000 paid by
    Alice and utilities 200 paid by Bob, the report has total 1200, fair
    shares 720 and 480, payments 1000 and 200, balances -280 and 280. Its
    summary is ["Bob owes Alice "], then the three characters U+00E2,
    U+201A, U+00AC that the format string of [_generate_summary] holds
    before the amount (in UTF-8 the seven bytes C3 A2 E2 80 9A C2 AC), then
    ["280.00"]: the string that the test of the repository expects. *)
Theorem scenario_report :
  add_expense "rent" 1000 "Alice" true ledger0 = (Return tt, ledger1) /\
  add_expense "utilities" 200 "Bob" true ledger1 = (Return tt, ledger2) /\
  generate_monthly_balance ledger2 =
    (Return
       (mkBalance 1200
          (mkPersonBalance "Alice" 720 1000 (-280))
          (mkPersonBalance "Bob" 480 200 280)
          (String.append "Bob owes Alice "
             (String.append currency_mark "280.00"))),
     ledger2).
Proof.
  repeat split; vm_compute; reflexivity.
Qed.

(** C8, as stated, fails in the summary only: the report of the scenario is
    returned, and its summary is not the string with the euro sign. *)
Lemma scenario_summary_has_no_euro_sign :
  exists report,
    run [ mkCall "rent" 1000 "Alice" true; mkCall "utilities" 200 "Bob" true ]
        ledger0
      = (Return tt, ledger2) /\
    generate_monthly_balance ledger2 = (Return report, ledger2) /\
    summary report
      <> String.append "Bob owes Alice " (String.append euro_sign "280.00").
Proof.
  eexists. split; [vm_compute; reflexivity|]. split; [vm_compute; reflexivity|].
  vm_compute. discriminate.
Qed.

End Scenario.

(** ** Personal expenses *)

Module PersonalExpense.
Import Calculations Ledgers CalculationsFacts.

(** C9. A call of [add_expense] with [is_shared = False] and the name of one
    of the two persons returns; in the ledger after the call the payer's
    [personal_expenses] has the category raised by the amount and every
    other category as before, the payer's other fields and the whole other
    person are as before, [shared_expenses] is as before, and
    [get_total_shared_expenses] and [generate_monthly_balance] return what
    they return on the ledger before the call. *)
Theorem personal_expense_leaves_settlement_alone
    (category : string) (amount : float) (paid_by : string) (self : Contribution) :
  paid_by = name (person_a self) \/ paid_by = name (person_b self) ->
  exists self',
    add_expense category amount paid_by false self = (Return tt, self') /\
    let p := deref self (payer_of self paid_by) in
    let p' := deref self' (payer_of self paid_by) in
    personal_expenses p' =
      Dict.set (personal_expenses p) category
        (Dict.get (personal_expenses p) category 0 + amount)%float /\
    Dict.get (personal_expenses p') category 0%float =
      (Dict.get (personal_expenses p) category 0 + amount)%float /\
    (forall c, c <> category ->
       Dict.get (personal_expenses p') c 0%float = Dict.get (personal_expenses p) c 0%float) /\
    name p' = name p /\
    monthly_income p' = monthly_income p /\
    shared_expenses_paid p' = shared_expenses_paid p /\
    deref self' (other (payer_of self paid_by)) = deref self (other (payer_of self paid_by)) /\
    shared_expenses self' = shared_expenses self /\
    fst (get_total_shared_expenses self') = fst (get_total_shared_expenses self) /\
    fst (generate_monthly_balance self') = fst (generate_monthly_balance self).
Proof.
  intros Hreg. rewrite add_expense_unfold. unfold payer_of.
  destruct (String.eqb paid_by (name (person_a self))) eqn:Ea.
  - eexists. split; [reflexivity|].
    rewrite !generate_monthly_balance_unfold. unfold paid_read_for_b.
    cbn. repeat split.
    + apply dict_get_set_same.
    + intros c Hc. apply dict_get_set_other. congruence.
  - destruct (String.eqb paid_by (name (person_b self))) eqn:Eb.
    + eexists. split; [reflexivity|].
      rewrite !generate_monthly_balance_unfold. unfold paid_read_for_b.
      cbn. repeat split.
      * apply dict_get_set_same.
      * intros c Hc. apply dict_get_set_other. congruence.
    + apply String.eqb_neq in Ea, Eb. destruct Hreg; congruence.
Qed.

Lemma personal_expense_leaves_settlement_alone_witness :
  exists self',
    add_expense "hobby" 50 "Alice" false ledger2 = (Return tt, self') /\
    shared_expenses self' = shared_expenses ledger2 /\
    fst (generate_monthly_balance self') = fst (generate_monthly_balance ledger2).
Proof.
  destruct (personal_expense_leaves_settlement_alone "hobby" 50 "Alice" ledger2)
    as (self' & Hadd & H).
  - left. reflexivity.
  - exists self'. split; [exact Hadd|].
    split; [apply H | apply H].
Defined.

End PersonalExpense.

(** ** Classification of one description *)

Module Classification.
Import Categories Frames.

Lemma prefix_iff (p s : string) :
  String.prefix p s = true <-> exists after, s = String.append p after.
Proof.
  revert s. induction p as [|a p IH]; intros s.
  - destruct s; simpl; split; eauto.
  - destruct s as [|b s]; cbn [String.prefix String.append].
    + split; [discriminate | intros [after H]; discriminate].
    + destruct (Ascii.ascii_dec a b) as [->|Hne].
      * rewrite IH. split; intros [after H]; exists after; [now rewrite H | now inversion H].
      * split; [discriminate | intros [after H]; inversion H; congruence].
Qed.

(** [contains] decides the occurrence as a substring. *)
Lemma contains_iff (needle hay : string) :
  contains needle hay = true <-> substring needle hay.
Proof.
  unfold substring. induction hay as [|c hay IH].
  - cbn [contains]. destruct (String.prefix needle EmptyString) eqn:E.
    + split; [intros _|reflexivity].
      apply prefix_iff in E. destruct E as [after E]. exists EmptyString, after. exact E.
    + split; [discriminate|]. intros (before & after & H).
      destruct before; [|discriminate]. simpl in H.
      assert (String.prefix needle EmptyString = true) by (apply prefix_iff; eauto).
      congruence.
  - cbn [contains]. destruct (String.prefix needle (String c hay)) eqn:E.
    + split; [intros _|reflexivity].
      apply prefix_iff in E. destruct E as [after E]. exists EmptyString, after. exact E.
    + rewrite IH. split.
      * intros (before & after & H). exists (String c before), after.
        simpl. now rewrite H.
      * intros (before & after & H). destruct before as [|b before].
        -- simpl in H.
           assert (String.prefix needle (String c hay) = true)
             by (apply prefix_iff; eauto).
           congruence.
        -- simpl in H. inversion H. eauto.
Qed.

Section WithUpper.

Variable upper : string -> string.

Lemma existsb_keyword_iff (description : string) (keywords : list string) :
  existsb (fun keyword => contains (upper keyword) (upper description)) keywords = true
  <-> keyword_matches upper description keywords.
Proof.
  unfold keyword_matches. rewrite existsb_exists.
  split; intros (k & Hin & H); exists k; (split; [exact Hin|]);
    now apply contains_iff.
Qed.

(** C2. [categorize_transaction] puts the description in upper case, goes
    through the categories in the order of declaration, and returns the
    first one that has a keyword whose upper case occurs in it as a
    substring: a category is returned when it has such a keyword and no
    category declared before it has one. When no category has one,
    ["uncategorized"] is returned. The amount is not consulted. *)
Theorem categorize_transaction_first_match
    (description : string) (amount : float) (mappings : mapping) :
  (forall earlier category keywords later,
      mappings = earlier ++ (category, keywords) :: later ->
      (forall c ks, In (c, ks) earlier -> ~ keyword_matches upper description ks) ->
      keyword_matches upper description keywords ->
      categorize_transaction upper description amount mappings = category) /\
  ((forall c ks, In (c, ks) mappings -> ~ keyword_matches upper description ks) ->
      categorize_transaction upper description amount mappings = "uncategorized"%string).
Proof.
  unfold categorize_transaction. split.
  - intros earlier category keywords later -> Hnone Hhit.
    induction earlier as [|[c ks] earlier IH]; cbn [app first_match].
    + apply existsb_keyword_iff in Hhit. now rewrite Hhit.
    + destruct (existsb _ ks) eqn:E.
      * apply existsb_keyword_iff in E. exfalso.
        apply (Hnone c ks); [left; reflexivity | exact E].
      * apply IH. intros c' ks' Hin. apply (Hnone c' ks'). right. exact Hin.
  - induction mappings as [|[c ks] rest IH]; intros Hnone; cbn [first_match].
    + reflexivity.
    + destruct (existsb _ ks) eqn:E.
      * apply existsb_keyword_iff in E. exfalso.
        apply (Hnone c ks); [left; reflexivity | exact E].
      * apply IH. intros c' ks' Hin. apply (Hnone c' ks'). right. exact Hin.
Qed.

End WithUpper.

Lemma no_keyword_matches (upper : string -> string) description keywords :
  existsb (fun keyword => contains (upper keyword) (upper description)) keywords = false ->
  ~ keyword_matches upper description keywords.
Proof.
  intros E H. apply existsb_keyword_iff in H. congruence.
Qed.

(** ["HSL"] is a keyword of [transport], the second category, and no
    keyword of [food] occurs in the description. *)
Lemma categorize_transaction_first_match_witness :
  categorize_transaction upper_ascii "hsl lippu" 0 DEFAULT_CATEGORY_MAPPINGS
    = "transport"%string.
Proof.
  apply (proj1 (categorize_transaction_first_match upper_ascii "hsl lippu" 0
                  DEFAULT_CATEGORY_MAPPINGS)
           [nth 0 DEFAULT_CATEGORY_MAPPINGS (EmptyString, [])]
           "transport"%string
           (snd (nth 1 DEFAULT_CATEGORY_MAPPINGS (EmptyString, [])))
           (skipn 2 DEFAULT_CATEGORY_MAPPINGS)).
  - reflexivity.
  - intros c ks [H|[]]. inversion H. subst.
    apply no_keyword_matches. vm_compute. reflexivity.
  - apply existsb_keyword_iff. vm_compute. reflexivity.
Defined.

End Classification.

(** ** Frames: columns and the assignment through [loc] *)

Module FrameFacts.
Import Categories Frames.

Lemma column_set_column_same cols col vs :
  column (set_column cols col vs) col = Some vs.
Proof.
  induction cols as [|[n old] cols IH]; cbn [set_column column].
  - now rewrite String.eqb_refl.
  - destruct (String.eqb n col) eqn:E; cbn [column]; rewrite E; auto.
Qed.

Lemma column_set_column_other cols col col' vs :
  col <> col' -> column (set_column cols col vs) col' = column cols col'.
Proof.
  intros Hne. induction cols as [|[n old] cols IH]; cbn [set_column column].
  - destruct (String.eqb col col') eqn:E; [apply String.eqb_eq in E; congruence|reflexivity].
  - destruct (String.eqb n col) eqn:E; cbn [column].
    + apply String.eqb_eq in E. subst n.
      destruct (String.eqb col col') eqn:E'; [apply String.eqb_eq in E'; congruence|reflexivity].
    + destruct (String.eqb n col'); auto.
Qed.

Lemma column_app_last cols col vs :
  column cols col = None -> column (cols ++ [(col, vs)]) col = Some vs.
Proof.
  induction cols as [|[n old] cols IH]; cbn [app column].
  - now rewrite String.eqb_refl.
  - destruct (String.eqb n col); [discriminate|auto].
Qed.

Lemma column_app_other cols col col' vs :
  col <> col' -> column (cols ++ [(col, vs)]) col' = column cols col'.
Proof.
  intros Hne. induction cols as [|[n old] cols IH]; cbn [app column].
  - destruct (String.eqb col col') eqn:E; [apply String.eqb_eq in E; congruence|reflexivity].
  - destruct (String.eqb n col'); auto.
Qed.

Lemma column_map_column_same col f cols :
  column (map_column col f cols) col = option_map f (column cols col).
Proof.
  induction cols as [|[n old] cols IH]; cbn [map_column map column fst snd]; [reflexivity|].
  destruct (String.eqb n col) eqn:E; cbn [column fst]; rewrite E; [reflexivity|exact IH].
Qed.

Lemma column_map_column_other col col' f cols :
  col <> col' -> column (map_column col f cols) col' = column cols col'.
Proof.
  intros Hne. induction cols as [|[n old] cols IH]; cbn [map_column map column fst snd]; [reflexivity|].
  destruct (String.eqb n col) eqn:E; cbn [column fst].
  - apply String.eqb_eq in E. subst n.
    destruct (String.eqb col col') eqn:E'; [apply String.eqb_eq in E'; congruence|exact IH].
  - destruct (String.eqb n col'); [reflexivity|exact IH].
Qed.

Lemma map_column_fixed col f cols :
  Forall (fun nv => fst nv = col -> f (snd nv) = snd nv) cols ->
  map_column col f cols = cols.
Proof.
  induction 1 as [|[n old] cols Hx _ IH]; cbn [map_column map fst snd]; [reflexivity|].
  fold (map_column col f cols). rewrite IH.
  destruct (String.eqb n col) eqn:E; [|reflexivity].
  apply String.eqb_eq in E. cbn [fst snd] in Hx. now rewrite (Hx E).
Qed.

Lemma loc_set_eq d label col v :
  loc_set d label col v =
  mkDataFrame (index (with_column (with_label d label) col))
    (map_column col (set_where label v (index (with_column (with_label d label) col)))
       (columns (with_column (with_label d label) col))).
Proof. reflexivity. Qed.

(** *** [set_where] *)

Lemma set_where_length label v idx : forall vs,
  length vs = length idx -> length (set_where label v idx vs) = length idx.
Proof.
  induction idx as [|l idx IH]; intros [|c vs] H; cbn [set_where length] in *;
    try discriminate; auto.
Qed.

Lemma set_where_lookup label v idx : forall vs pos l,
  length vs = length idx ->
  idx !! pos = Some l ->
  set_where label v idx vs !! pos = if Z.eqb l label then Some v else vs !! pos.
Proof.
  induction idx as [|l0 idx IH]; intros [|c vs] pos l Hlen Hl;
    cbn [length] in Hlen; try discriminate.
  destruct pos as [|pos]; cbn [set_where].
  - cbn in Hl. inversion Hl. subst l0. cbn. now destruct (Z.eqb l label).
  - cbn in Hl |- *. apply IH; [congruence|exact Hl].
Qed.

Lemma set_where_idem label v idx : forall vs,
  set_where label v idx (set_where label v idx vs) = set_where label v idx vs.
Proof.
  induction idx as [|l idx IH]; intros [|c vs]; cbn [set_where]; try reflexivity.
  rewrite IH. now destruct (Z.eqb l label).
Qed.

(** *** Enlargement *)

Lemma has_label_iff d label : has_label d label = true <-> In label (index d).
Proof.
  unfold has_label. rewrite existsb_exists. split.
  - intros (l & Hin & E). apply Z.eqb_eq in E. now subst.
  - intros Hin. exists label. split; [exact Hin|apply Z.eqb_refl].
Qed.

Lemma with_label_has d label : has_label (with_label d label) label = true.
Proof.
  unfold with_label. destruct (has_label d label) eqn:E; [exact E|].
  apply has_label_iff. cbn [index]. apply in_or_app. right. now left.
Qed.

Lemma with_label_id d label : has_label d label = true -> with_label d label = d.
Proof. unfold with_label. now intros ->. Qed.

Lemma with_column_index d col : index (with_column d col) = index d.
Proof. unfold with_column. now destruct (column (columns d) col). Qed.

Lemma with_column_id d col vs :
  column (columns d) col = Some vs -> with_column d col = d.
Proof. unfold with_column. now intros ->. Qed.

Lemma with_column_has d col :
  exists vs, column (columns (with_column d col)) col = Some vs.
Proof.
  unfold with_column. destruct (column (columns d) col) eqn:E; [eauto|].
  cbn [columns]. rewrite column_app_last; eauto.
Qed.

Lemma with_column_other d col col' :
  col <> col' -> column (columns (with_column d col)) col' = column (columns d) col'.
Proof.
  intros Hne. unfold with_column. destruct (column (columns d) col); [reflexivity|].
  cbn [columns]. now apply column_app_other.
Qed.

Lemma with_column_well_formed d col :
  well_formed d -> well_formed (with_column d col).
Proof.
  unfold well_formed, with_column. intros H.
  destruct (column (columns d) col); [exact H|]. cbn [columns index].
  apply List.Forall_app. split; [exact H|].
  constructor; [|constructor]. cbn [snd]. apply length_map.
Qed.

Lemma column_length d col vs :
  well_formed d -> column (columns d) col = Some vs -> length vs = length (index d).
Proof.
  unfold well_formed. generalize (index d) as idx. intros idx H.
  induction H as [|[n old] cols Hx _ IH]; cbn [column]; [discriminate|].
  destruct (String.eqb n col); [|exact IH]. intros E. inversion E. subst. exact Hx.
Qed.

End FrameFacts.

(** ** The store: copies and updates *)

Module StoreFacts.
Import Categories Frames FrameFacts.

Lemma fresh_unused (h : store) : h !! fresh (dom h) = None.
Proof. apply not_elem_of_dom. apply is_fresh. Qed.

Lemma insert_fresh_extends (h : store) d' :
  extends_with h (<[fresh (dom h) := d']> h) (fresh (dom h)) d'.
Proof.
  split; [apply fresh_unused|]. split; [apply lookup_insert_eq|].
  intros r0 d0 H0. rewrite lookup_insert_ne; [exact H0|].
  intros E. rewrite <- E, fresh_unused in H0. discriminate.
Qed.

Lemma copy_spec (h : store) r d :
  h !! r = Some d ->
  copy r h = (Return (fresh (dom h)), <[fresh (dom h) := d]> h).
Proof.
  intros H. unfold copy, bind, read, get_state, modify, ret. now rewrite H.
Qed.

Lemma update_spec (h : store) r d f :
  h !! r = Some d -> update r f h = (Return tt, <[r := f d]> h).
Proof.
  intros H. unfold update, bind, read, modify. now rewrite H.
Qed.

Lemma loc_assign_spec takes (h : store) r d label col v :
  h !! r = Some d ->
  loc_assign takes r label col v h =
    if negb (has_label d label) && negb (fits_int64 label) then
      (Raise (LocError LabelOutOfRange), h)
    else if takes d label col v then
      (Return tt, <[r := loc_set d label col v]> h)
    else (Raise (LocError ValueNotTaken), h).
Proof.
  intros H. unfold loc_assign, bind, read, raise, modify. rewrite H.
  destruct (negb (has_label d label) && negb (fits_int64 label)); [reflexivity|].
  destruct (takes d label col v); reflexivity.
Qed.

Lemma loc_set_keeps_label d label col v :
  has_label (loc_set d label col v) label = true.
Proof.
  unfold has_label. rewrite loc_set_eq. cbn [index]. rewrite with_column_index.
  apply with_label_has.
Qed.

(** [override_category] when pandas takes its two assignments. *)
Lemma override_category_spec takes (h : store) df d label new_category :
  h !! df = Some d ->
  override_taken takes d label new_category = true ->
  override_category takes df label new_category h =
    (Return (fresh (dom h)),
     <[fresh (dom h) := overridden d label new_category]> h).
Proof.
  intros H Htaken. unfold override_taken in Htaken.
  apply andb_prop in Htaken. destruct Htaken as [Htaken H2].
  apply andb_prop in Htaken. destruct Htaken as [Hl H1].
  unfold override_category, bind.
  rewrite (copy_spec h df d H).
  rewrite (loc_assign_spec takes _ _ d) by apply lookup_insert_eq.
  assert (E : negb (has_label d label) && negb (fits_int64 label) = false).
  { destruct (has_label d label), (fits_int64 label); try reflexivity; discriminate. }
  rewrite E, H1, insert_insert_eq.
  rewrite (loc_assign_spec takes _ _ (loc_set d label "category" (CStr new_category)))
    by apply lookup_insert_eq.
  rewrite loc_set_keeps_label, H2. cbn [negb andb].
  rewrite insert_insert_eq. reflexivity.
Qed.

(** [override_category] when pandas refuses one of them: the exception
    leaves the copy behind, with the first assignment when that was taken. *)
Lemma override_category_refused takes (h : store) df d label new_category :
  h !! df = Some d ->
  override_taken takes d label new_category = false ->
  exists why d',
    override_category takes df label new_category h =
      (Raise (LocError why), <[fresh (dom h) := d']> h) /\
    (has_label d label = true -> why = ValueNotTaken).
Proof.
  intros H Hrefused. unfold override_taken in Hrefused.
  unfold override_category, bind.
  rewrite (copy_spec h df d H).
  rewrite (loc_assign_spec takes _ _ d) by apply lookup_insert_eq.
  destruct (has_label d label) eqn:El; cbn [negb andb orb] in *.
  - destruct (takes d label "category" (CStr new_category)) eqn:E1; cbn [andb] in *.
    + rewrite insert_insert_eq.
      rewrite (loc_assign_spec takes _ _ (loc_set d label "category" (CStr new_category)))
        by apply lookup_insert_eq.
      rewrite loc_set_keeps_label, Hrefused. cbn [negb andb].
      do 2 eexists. split; [reflexivity|]. reflexivity.
    + do 2 eexists. split; [reflexivity|]. reflexivity.
  - destruct (fits_int64 label) eqn:Ef; cbn [negb andb orb] in *.
    + destruct (takes d label "category" (CStr new_category)) eqn:E1; cbn [andb] in *.
      * rewrite insert_insert_eq.
        rewrite (loc_assign_spec takes _ _ (loc_set d label "category" (CStr new_category)))
          by apply lookup_insert_eq.
        rewrite loc_set_keeps_label, Hrefused. cbn [negb andb].
        do 2 eexists. split; [reflexivity|]. discriminate.
      * do 2 eexists. split; [reflexivity|]. discriminate.
    + do 2 eexists. split; [reflexivity|]. discriminate.
Qed.

Lemma categorize_transactions_spec upper (h : store) df d mappings dc ac :
  h !! df = Some d ->
  categorize_transactions upper df mappings dc ac h =
    match column (columns d) dc with
    | Some descriptions =>
        (Return (fresh (dom h)),
         <[fresh (dom h) := categorized upper d mappings descriptions]> h)
    | None => (Raise (KeyError dc), <[fresh (dom h) := d]> h)
    end.
Proof.
  intros H. unfold categorize_transactions, bind.
  rewrite (copy_spec h df d H).
  unfold get_column, bind, read. rewrite lookup_insert_eq.
  destruct (column (columns d) dc) as [descriptions|]; [|reflexivity].
  unfold ret at 1.
  rewrite (update_spec _ _ d) by apply lookup_insert_eq.
  rewrite insert_insert_eq.
  erewrite update_spec by apply lookup_insert_eq.
  rewrite insert_insert_eq. reflexivity.
Qed.

End StoreFacts.

(** ** Manual override *)

Module Override.
Import Categories Frames FrameFacts StoreFacts.

Lemma map_column_well_formed (idx : list Z) col f cols :
  (forall vs, length vs = length idx -> length (f vs) = length idx) ->
  Forall (fun nv => length (snd nv) = length idx) cols ->
  Forall (fun nv => length (snd nv) = length idx) (map_column col f cols).
Proof.
  intros Hf H. unfold map_column. apply List.Forall_map.
  eapply List.Forall_impl; [|exact H]. intros [n vs] Hlen. cbn [fst snd] in *.
  destruct (String.eqb n col); cbn [snd]; auto.
Qed.

Section OnePresentLabel.

Variables (d : DataFrame) (label : Z) (col : string) (v : cell).
Hypothesis Hwf : well_formed d.
Hypothesis Hlabel : has_label d label = true.

Lemma loc_set_index : index (loc_set d label col v) = index d.
Proof.
  rewrite loc_set_eq. cbn [index]. rewrite with_column_index.
  now rewrite with_label_id.
Qed.

Lemma loc_set_well_formed : well_formed (loc_set d label col v).
Proof.
  unfold well_formed. rewrite loc_set_index. rewrite loc_set_eq. cbn [columns].
  rewrite with_label_id by exact Hlabel. rewrite with_column_index.
  apply map_column_well_formed.
  - intros vs. apply set_where_length.
  - pose proof (with_column_well_formed d col Hwf) as H.
    unfold well_formed in H. now rewrite with_column_index in H.
Qed.

Lemma loc_set_has_label : has_label (loc_set d label col v) label = true.
Proof. unfold has_label. rewrite loc_set_index. exact Hlabel. Qed.

(** The cell of the assigned column, in a row with the label. *)
Lemma cell_at_loc_set_hit pos :
  index d !! pos = Some label ->
  cell_at (loc_set d label col v) col pos = Some v.
Proof.
  intros Hpos. unfold cell_at. rewrite loc_set_eq. cbn [columns].
  rewrite column_map_column_same.
  rewrite with_label_id by exact Hlabel. rewrite with_column_index.
  destruct (with_column_has d col) as [vs Hvs]. rewrite Hvs. cbn [option_map].
  rewrite (set_where_lookup label v (index d) vs pos label).
  - now rewrite Z.eqb_refl.
  - pose proof (column_length _ _ _ (with_column_well_formed d col Hwf) Hvs) as H.
    now rewrite with_column_index in H.
  - exact Hpos.
Qed.

(** Every other cell that the frame had. *)
Lemma cell_at_loc_set_miss col' pos l c :
  index d !! pos = Some l ->
  cell_at d col' pos = Some c ->
  l <> label \/ col' <> col ->
  cell_at (loc_set d label col v) col' pos = Some c.
Proof.
  intros Hpos Hc Hother. unfold cell_at in *. rewrite loc_set_eq. cbn [columns].
  rewrite with_label_id by exact Hlabel. rewrite with_column_index.
  destruct (String.eqb col col') eqn:E.
  - apply String.eqb_eq in E. subst col'.
    destruct Hother as [Hl|Hcol]; [|congruence].
    rewrite column_map_column_same.
    destruct (column (columns d) col) as [vs|] eqn:Hvs; [|discriminate].
    rewrite (with_column_id d col vs Hvs), Hvs. cbn [option_map].
    rewrite (set_where_lookup label v (index d) vs pos l).
    + apply Z.eqb_neq in Hl. now rewrite Hl.
    + now apply (column_length d col).
    + exact Hpos.
  - apply String.eqb_neq in E.
    rewrite column_map_column_other by exact E.
    now rewrite with_column_other by exact E.
Qed.

End OnePresentLabel.

(** *** Assigning what is already there *)

Lemma loc_set_settled_id d label col v :
  settled d label col v -> loc_set d label col v = d.
Proof.
  intros (Hl & [vs Hvs] & Hall). rewrite loc_set_eq.
  rewrite (with_label_id d label Hl), (with_column_id d col vs Hvs).
  rewrite map_column_fixed by exact Hall. now destruct d.
Qed.

Lemma loc_set_settles d label col v : settled (loc_set d label col v) label col v.
Proof.
  rewrite loc_set_eq. unfold settled. cbn [index columns].
  set (d1 := with_column (with_label d label) col).
  split; [|split].
  - unfold has_label. cbn [index]. subst d1. rewrite with_column_index.
    apply with_label_has.
  - rewrite column_map_column_same.
    destruct (with_column_has (with_label d label) col) as [vs Hvs].
    fold d1 in Hvs. rewrite Hvs. cbn. eauto.
  - unfold map_column. apply List.Forall_map. apply List.Forall_forall.
    intros [n vs] _. cbn [fst snd].
    destruct (String.eqb n col) eqn:E; cbn [fst snd].
    + intros _. apply set_where_idem.
    + intros En. apply String.eqb_neq in E. congruence.
Qed.

Lemma loc_set_keeps_settled d label col v col' v' :
  col <> col' ->
  settled d label col' v' ->
  settled (loc_set d label col v) label col' v'.
Proof.
  intros Hne (Hl & [vs Hvs] & Hall). rewrite loc_set_eq.
  rewrite (with_label_id d label Hl). rewrite with_column_index.
  unfold settled. cbn [index columns]. split; [exact Hl|]. split.
  - exists vs. rewrite column_map_column_other by exact Hne.
    now rewrite with_column_other by exact Hne.
  - unfold map_column. apply List.Forall_map.
    assert (Hcols : Forall (fun nv => fst nv = col' ->
                      set_where label v' (index d) (snd nv) = snd nv)
                      (columns (with_column d col))).
    { unfold with_column. destruct (column (columns d) col); [exact Hall|].
      cbn [columns]. apply List.Forall_app. split; [exact Hall|].
      constructor; [|constructor]. cbn [fst]. congruence. }
    eapply List.Forall_impl; [|exact Hcols]. intros [n old] Hx. cbn [fst snd] in *.
    destruct (String.eqb n col) eqn:E; cbn [fst snd]; [|exact Hx].
    apply String.eqb_eq in E. subst n. congruence.
Qed.

Lemma category_is_not_flag : "category"%string <> "auto_categorized"%string.
Proof. discriminate. Qed.

Lemma overridden_idem d label new_category :
  overridden (overridden d label new_category) label new_category
    = overridden d label new_category.
Proof.
  assert (Hflag : settled (overridden d label new_category) label
                    "auto_categorized" (CBool false))
    by apply loc_set_settles.
  assert (Hcat : settled (overridden d label new_category) label
                   "category" (CStr new_category)).
  { apply loc_set_keeps_settled.
    - intros E. symmetry in E. revert E. apply category_is_not_flag.
    - apply loc_set_settles. }
  unfold overridden at 1.
  rewrite (loc_set_settled_id _ _ _ _ Hcat).
  now rewrite (loc_set_settled_id _ _ _ _ Hflag).
Qed.

(** C7 (as amended). For a frame of the store and a label of its index,
    when pandas takes the two assignments, [override_category] returns a
    frame with the same index in which every row with that label has the
    requested category and [auto_categorized = False], whatever the two
    cells held before; every other cell of the frame is as it was; and
    applying it again, with the same label and category, to the frame it
    returned gives that frame, when pandas takes the assignments again.
    When pandas refuses one of the two assignments, [override_category]
    raises pandas' [TypeError], returns no frame, and the frame that was
    passed in is as it was. *)
Theorem override_sets_category_and_clears_flag
    (takes : DataFrame -> Z -> string -> cell -> bool)
    (h : store) (df : ref) (d : DataFrame) (label : Z) (new_category : string) :
  h !! df = Some d ->
  well_formed d ->
  In label (index d) ->
  (override_taken takes d label new_category = true ->
   exists df' d',
     override_category takes df label new_category h = (Return df', <[df' := d']> h) /\
     index d' = index d /\
     (forall pos, index d !! pos = Some label ->
         cell_at d' "category" pos = Some (CStr new_category) /\
         cell_at d' "auto_categorized" pos = Some (CBool false)) /\
     (forall col pos l c,
         index d !! pos = Some l ->
         cell_at d col pos = Some c ->
         l <> label \/ (col <> "category"%string /\ col <> "auto_categorized"%string) ->
         cell_at d' col pos = Some c) /\
     (override_taken takes d' label new_category = true ->
      exists df'',
        override_category takes df' label new_category (<[df' := d']> h)
          = (Return df'', <[df'' := d']> (<[df' := d']> h)))) /\
  (override_taken takes d label new_category = false ->
   exists h',
     override_category takes df label new_category h
       = (Raise (LocError ValueNotTaken), h') /\
     h' !! df = Some d).
Proof.
  intros Hdf Hwf Hin. apply has_label_iff in Hin. split.
  - intros Htaken.
    exists (fresh (dom h)), (overridden d label new_category).
    split; [now apply override_category_spec|].
    set (d1 := loc_set d label "category" (CStr new_category)).
    assert (Hwf1 : well_formed d1) by now apply loc_set_well_formed.
    assert (Hl1 : has_label d1 label = true) by now apply loc_set_has_label.
    assert (Hi1 : index d1 = index d) by now apply loc_set_index.
    split; [|split; [|split]].
    + unfold overridden. fold d1. now rewrite loc_set_index.
    + intros pos Hpos. unfold overridden. fold d1. split.
      * apply (cell_at_loc_set_miss d1 label _ _ Hwf1 Hl1 _ pos label).
        -- now rewrite Hi1.
        -- now apply cell_at_loc_set_hit.
        -- right. apply category_is_not_flag.
      * apply cell_at_loc_set_hit; auto. now rewrite Hi1.
    + intros col pos l c Hpos Hc Hother. unfold overridden. fold d1.
      apply (cell_at_loc_set_miss d1 label _ _ Hwf1 Hl1 _ pos l).
      * now rewrite Hi1.
      * apply (cell_at_loc_set_miss d label _ _ Hwf Hin _ pos l); auto.
        destruct Hother as [?|[? ?]]; auto.
      * destruct Hother as [?|[? ?]]; auto.
    + intros Hagain.
      exists (fresh (dom (<[fresh (dom h) := overridden d label new_category]> h))).
      rewrite (override_category_spec takes _ _ (overridden d label new_category))
        by (apply lookup_insert_eq || exact Hagain).
      now rewrite overridden_idem.
  - intros Hrefused.
    destruct (override_category_refused takes h df d label new_category Hdf Hrefused)
      as (why & d' & Hrun & Hwhy).
    rewrite (Hwhy Hin) in Hrun.
    eexists. split; [exact Hrun|].
    rewrite lookup_insert_ne; [exact Hdf|].
    intros E. rewrite <- E, fresh_unused in Hdf. discriminate.
Qed.

(** C7, as stated, fails under pandas 3. The frame holds two expenses that
    are not classified yet, so its column [category] holds missing values
    only and does not take a string: for the valid label 1,
    [override_category] raises and no record is set. *)
Lemma override_is_refused_by_a_column_of_missing_values :
  well_formed unclassified_frame /\
  In 1%Z (index unclassified_frame) /\
  exists h',
    override_category takes_unless_all_missing 1%positive 1 "streaming"
      {[ 1%positive := unclassified_frame ]}
      = (Raise (LocError ValueNotTaken), h').
Proof.
  split; [repeat constructor|]. split; [right; left; reflexivity|].
  destruct (override_category_refused takes_unless_all_missing
              {[ 1%positive := unclassified_frame ]} 1%positive unclassified_frame
              1 "streaming")
    as (why & d' & Hrun & Hwhy); [reflexivity|reflexivity|].
  rewrite (Hwhy eq_refl) in Hrun. eexists. exact Hrun.
Qed.

End Override.

(** ** A classification pass over a frame that holds an override *)

Module Reclassification.
Import Categories Frames FrameFacts StoreFacts.

Lemma lookup_map_cells {A B} (f : A -> B) (l : list A) pos x :
  l !! pos = Some x -> map f l !! pos = Some (f x).
Proof.
  revert pos. induction l as [|a l IH]; intros [|pos] H; try discriminate.
  - cbn in H |- *. now inversion H.
  - cbn in H |- *. now apply IH.
Qed.

(** C6 (as amended). A classification pass does not look at the
    [auto_categorized] flag. When the frame has the description column,
    [categorize_transactions] returns a new frame in which the category of
    every row is the classification of its description and
    [auto_categorized] is [True] in every row, whatever the two cells held
    before; the frame that was passed in keeps the cells it had. *)
Theorem classification_pass_reclassifies_every_row
    (upper : string -> string) (h : store) (df : ref) (d : DataFrame)
    (mappings : option mapping) (description_column amount_column : string)
    (descriptions : list cell) (pos : nat) (x : cell) :
  h !! df = Some d ->
  well_formed d ->
  column (columns d) description_column = Some descriptions ->
  descriptions !! pos = Some x ->
  exists df' d',
    categorize_transactions upper df mappings description_column amount_column h
      = (Return df', <[df' := d']> h) /\
    h !! df' = None /\
    (<[df' := d']> h) !! df = Some d /\
    cell_at d' "category" pos =
      Some (CStr (categorize_transaction upper (str x) 0
                    (match mappings with
                     | Some m => m
                     | None => DEFAULT_CATEGORY_MAPPINGS
                     end))) /\
    cell_at d' "auto_categorized" pos = Some (CBool true).
Proof.
  intros Hdf Hwf Hcol Hx.
  exists (fresh (dom h)), (categorized upper d mappings descriptions).
  rewrite (categorize_transactions_spec upper h df d mappings _ _ Hdf), Hcol.
  split; [reflexivity|]. split; [apply fresh_unused|].
  split; [now apply (insert_fresh_extends h)|].
  unfold cell_at, categorized, frame_set_scalar, frame_set_column.
  cbn [columns index]. split.
  - rewrite column_set_column_other by (intros E; discriminate E).
    rewrite column_set_column_same.
    now apply (lookup_map_cells (fun x => CStr _)).
  - rewrite column_set_column_same.
    assert (Hlen : length descriptions = length (index d))
      by now apply (column_length d description_column).
    destruct (lookup_lt_is_Some_2 (index d) pos) as [l Hl].
    { rewrite <- Hlen. now apply (lookup_lt_Some descriptions pos x). }
    now apply (lookup_map_cells (fun _ => CBool true) (index d) pos l).
Qed.

(** C6, as stated, fails. The row labelled 5 is overridden to
    ["streaming"], with [auto_categorized = False]; a classification pass
    over the frame returns a frame in which that row is ["entertainment"]
    again and its flag is [True]. *)
Lemma classification_pass_undoes_override :
  overridden classified_frame 5 "streaming" = overridden_frame /\
  cell_at overridden_frame "category" 1 = Some (CStr "streaming") /\
  cell_at overridden_frame "auto_categorized" 1 = Some (CBool false) /\
  exists d',
    categorize_transactions upper_ascii 1%positive None "recipient_name" "amount"
      {[ 1%positive := overridden_frame ]}
      = (Return 2%positive, <[2%positive := d']> {[ 1%positive := overridden_frame ]}) /\
    cell_at d' "category" 1 = Some (CStr "entertainment") /\
    cell_at d' "auto_categorized" 1 = Some (CBool true).
Proof.
  split; [vm_compute; reflexivity|].
  split; [reflexivity|]. split; [reflexivity|].
  exists (categorized upper_ascii overridden_frame None
            [CStr "LIDL HELSINKI"; CStr "NETFLIX"; CStr "HSL"]).
  split; [|split; vm_compute; reflexivity].
  rewrite (categorize_transactions_spec upper_ascii _ 1%positive overridden_frame)
    by reflexivity.
  reflexivity.
Qed.

Lemma classification_pass_reclassifies_every_row_witness :
  exists df' d',
    categorize_transactions upper_ascii 1%positive None "recipient_name" "amount"
      {[ 1%positive := overridden_frame ]}
      = (Return df', <[df' := d']> {[ 1%positive := overridden_frame ]}) /\
    cell_at d' "category" 1 = Some (CStr "entertainment") /\
    cell_at d' "auto_categorized" 1 = Some (CBool true).
Proof.
  destruct (classification_pass_reclassifies_every_row upper_ascii
              {[ 1%positive := overridden_frame ]} 1%positive overridden_frame
              None "recipient_name" "amount"
              [CStr "LIDL HELSINKI"; CStr "NETFLIX"; CStr "HSL"] 1 (CStr "NETFLIX"))
    as (df' & d' & Hrun & _ & _ & Hcat & Hflag).
  - reflexivity.
  - repeat constructor.
  - reflexivity.
  - reflexivity.
  - exists df', d'. split; [exact Hrun|]. split; [exact Hcat|exact Hflag].
Defined.

End Reclassification.

(** ** The shared totals and the two persons' payments *)

Module SharedTotals.
Import Calculations Ledgers CalculationsFacts Binary64 Binary64Facts.
Local Open Scope Z_scope.

Lemma of_Z_add (m n : Z) :
  0 <= m -> 0 <= n -> m + n < 2 ^ 53 ->
  (PyFloat.of_Z m + PyFloat.of_Z n)%float = PyFloat.of_Z (m + n).
Proof.
  intros Hm Hn Hsum. apply Prim2SF_inj. unfold PyFloat.of_Z.
  rewrite add_spec, !Binary64Facts.Prim2SF_of_Z by lia.
  now apply Binary64Facts.SFadd_integers.
Qed.

Lemma keys_set_In d k v k' :
  In k' (Dict.keys (Dict.set d k v)) -> k' = k \/ In k' (Dict.keys d).
Proof.
  unfold Dict.keys. induction d as [|[k0 v0] d IH]; cbn [Dict.set map fst In].
  - intros [H|[]]. now left.
  - destruct (String.eqb k0 k) eqn:E; cbn [map fst In].
    + intros [H|H]; right; [now left|now right].
    + intros [H|H]; [right; now left|].
      destruct (IH H) as [H'|H']; [now left|right; now right].
Qed.



(** *** Sums that do not round *)




















End SharedTotals.

(** ** The income ratio *)

Module IncomeRatio.
Import Calculations Ledgers.
Local Open Scope float_scope.

Lemma Prim2SF_one : Prim2SF 1 = Binary64.one.
Proof. reflexivity. Qed.

Lemma nonneg_finite_of_float (a : float) :
  PyFloat.isfinite a = true -> (0 <=? a) = true ->
  Binary64.nonneg_finite (Prim2SF a).
Proof.
  unfold PyFloat.isfinite. rewrite leb_spec.
  change (Prim2SF 0) with (S754_zero false).
  pose proof (Prim2SF_valid a) as Hv.
  destruct (Prim2SF a) as [s|s| |s m e]; try discriminate; intros _ Hle.
  - exact I.
  - destruct s; [discriminate Hle|exact Hv].
Qed.

(** For finite incomes that are not negative and not both zero, the float
    [ratio_a = a / (a + b)] and the float [1 - ratio_a] add up to [1.0]. *)
Lemma ratio_and_complement (a b : float) :
  PyFloat.isfinite a = true -> PyFloat.isfinite b = true ->
  (0 <=? a) = true -> (0 <=? b) = true ->
  (a + b =? 0) = false ->
  (a / (a + b) + (1 - a / (a + b)) =? 1) = true.
Proof.
  intros Hfa Hfb Ha Hb Hnz.
  pose proof (nonneg_finite_of_float a Hfa Ha) as Hx.
  pose proof (nonneg_finite_of_float b Hfb Hb) as Hy.
  rewrite FloatAxioms.eqb_spec, add_spec in Hnz.
  change (Prim2SF 0) with (S754_zero false) in Hnz.
  pose proof (Binary64Facts.ratio_in_unit _ _ Hx Hy Hnz) as Hu.
  pose proof (Prim2SF_valid (a / (a + b))) as Hv.
  rewrite div_spec, add_spec in Hv.
  rewrite FloatAxioms.eqb_spec, add_spec, sub_spec, div_spec, add_spec, Prim2SF_one.
  rewrite (Binary64Facts.add_complement_in_unit _ Hv Hu). reflexivity.
Qed.

(** C5 (as amended). For two persons with finite incomes that are not
    negative, [calculate_income_ratio] returns [(0.5, 0.5)] when the combined
    income is zero, and otherwise [(ratio_a, 1 - ratio_a)] with
    [ratio_a = income_a / (income_a + income_b)], a pair whose components add
    up to exactly [1.0] in float arithmetic. *)
Theorem income_ratio_adds_up_to_one (a b : Person) :
  PyFloat.isfinite (monthly_income a) = true ->
  PyFloat.isfinite (monthly_income b) = true ->
  (0 <=? monthly_income a) = true ->
  (0 <=? monthly_income b) = true ->
  ((monthly_income a + monthly_income b =? 0) = true ->
     calculate_income_ratio a b = (0.5, 0.5)) /\
  ((monthly_income a + monthly_income b =? 0) = false ->
     calculate_income_ratio a b =
       (monthly_income a / (monthly_income a + monthly_income b),
        1 - monthly_income a / (monthly_income a + monthly_income b)) /\
     (fst (calculate_income_ratio a b) + snd (calculate_income_ratio a b) =? 1) = true).
Proof.
  intros Hfa Hfb Ha Hb. unfold calculate_income_ratio. cbv zeta. split.
  - now intros ->.
  - intros Hnz. rewrite Hnz. split; [reflexivity|]. cbn [fst snd].
    now apply ratio_and_complement.
Qed.

Lemma income_ratio_adds_up_to_one_witness :
  calculate_income_ratio (new_person "Alice" 3000) (new_person "Bob" 2000) =
    (3000 / (3000 + 2000), 1 - 3000 / (3000 + 2000)) /\
  (fst (calculate_income_ratio (new_person "Alice" 3000) (new_person "Bob" 2000)) +
   snd (calculate_income_ratio (new_person "Alice" 3000) (new_person "Bob" 2000)) =? 1) = true.
Proof.
  apply (proj2 (income_ratio_adds_up_to_one (new_person "Alice" 3000) (new_person "Bob" 2000)
                  eq_refl eq_refl eq_refl eq_refl)).
  reflexivity.
Defined.

(** C5, as stated, fails for an income that is not finite: with an infinite
    income the ratio is [infinity / infinity], a NaN, and so is its
    complement. *)
Lemma income_ratio_of_infinite_income :
  (0 <=? monthly_income (new_person "Alice" infinity)) = true /\
  (0 <=? monthly_income (new_person "Bob" 2000)) = true /\
  (fst (calculate_income_ratio (new_person "Alice" infinity) (new_person "Bob" 2000)) +
   snd (calculate_income_ratio (new_person "Alice" infinity) (new_person "Bob" 2000)) =? 1)
    = false.
Proof. repeat split; vm_compute; reflexivity. Qed.

End IncomeRatio.

(** ** Whole amounts: exact totals *)

Module WholeBooks.
Import Calculations Ledgers CalculationsFacts Books.
Local Open Scope Z_scope.

Lemma of_Z_zero : PyFloat.of_Z 0 = 0%float.
Proof. reflexivity. Qed.

Lemma get_floats d k : Dict.get (floats d) k 0 = PyFloat.of_Z (zget d k).
Proof.
  induction d as [|[k' v] d IH]; cbn [floats map Dict.get zget fst snd].
  - reflexivity.
  - destruct (String.eqb k' k); [reflexivity|exact IH].
Qed.

Lemma set_floats d k v : Dict.set (floats d) k (PyFloat.of_Z v) = floats (zset d k v).
Proof.
  induction d as [|[k' v'] d IH]; cbn [floats map Dict.set zset fst snd].
  - reflexivity.
  - destruct (String.eqb k' k); cbn [map fst snd]; [reflexivity|].
    f_equal. exact IH.
Qed.

Lemma ztotal_nonneg d : nonneg d -> 0 <= ztotal d.
Proof.
  induction 1 as [|[k v] d Hv _ IH]; cbn [ztotal]; [lia|]. cbn [snd] in Hv. lia.
Qed.

Lemma zget_bounds d k : nonneg d -> 0 <= zget d k <= ztotal d.
Proof.
  induction 1 as [|[k' v] d Hv Hd IH]; cbn [zget ztotal]; [lia|].
  cbn [snd] in Hv. pose proof (ztotal_nonneg d Hd).
  destruct (String.eqb k' k); lia.
Qed.

Lemma ztotal_zset d k v : ztotal (zset d k v) = ztotal d - zget d k + v.
Proof.
  induction d as [|[k' v'] d IH]; cbn [zset zget ztotal]; [lia|].
  destruct (String.eqb k' k); cbn [ztotal]; lia.
Qed.

Lemma nonneg_zset d k v : nonneg d -> 0 <= v -> nonneg (zset d k v).
Proof.
  intros Hd Hv. induction Hd as [|[k' v'] d Hx Hd IH]; cbn [zset].
  - constructor; [exact Hv|constructor].
  - destruct (String.eqb k' k); constructor; auto.
Qed.

(** The payments of a dictionary of whole amounts are added without
    rounding. *)
Lemma sum_floats_from d : forall acc,
  nonneg d -> 0 <= acc -> acc + ztotal d < 2 ^ 53 ->
  fold_left PrimFloat.add (Dict.values (floats d)) (PyFloat.of_Z acc)
    = PyFloat.of_Z (acc + ztotal d).
Proof.
  induction d as [|[k v] d IH]; intros acc Hd Hacc Hb;
    cbn [floats map Dict.values fold_left ztotal fst snd] in *.
  - now rewrite Z.add_0_r.
  - inversion Hd as [|? ? Hv Hd']. subst. cbn [snd] in Hv.
    pose proof (ztotal_nonneg d Hd').
    rewrite SharedTotals.of_Z_add by lia.
    replace (acc + (v + ztotal d)) with (acc + v + ztotal d) by lia.
    apply (IH (acc + v)); [exact Hd'|lia|lia].
Qed.

Lemma sum_floats d :
  nonneg d -> ztotal d < 2 ^ 53 ->
  PyFloat.sum (Dict.values (floats d)) = PyFloat.of_Z (ztotal d).
Proof.
  intros Hd Hb. unfold PyFloat.sum. rewrite <- of_Z_zero.
  now rewrite (sum_floats_from d 0) by (assumption || lia).
Qed.

(** The payment of a whole amount into a dictionary of whole amounts. *)
Lemma pay_into_floats d category n :
  nonneg d -> 0 <= n -> ztotal d + n < 2 ^ 53 ->
  Dict.set (floats d) category
    (Dict.get (floats d) category 0 + PyFloat.of_Z n)%float
  = floats (zset d category (zget d category + n)).
Proof.
  intros Hd Hn Hb. pose proof (zget_bounds d category Hd).
  rewrite get_floats, SharedTotals.of_Z_add by lia. apply set_floats.
Qed.

Lemma whole_books_new na ia nb ib : whole_books 0 0 (new_contribution na ia nb ib).
Proof.
  exists [], [], []. repeat split; constructor.
Qed.

Lemma whole_books_nonneg ta tb self : whole_books ta tb self -> 0 <= ta /\ 0 <= tb.
Proof.
  intros (za & zb & zs & Ha & Hb & _ & _ & _ & _ & <- & <- & _).
  split; now apply ztotal_nonneg.
Qed.

(** A shared payment of a whole amount goes to the books of the person whose
    name is found first. *)
Lemma whole_books_step ta tb n category who self self' :
  0 <= n -> ta + tb + n < 2 ^ 53 ->
  whole_books ta tb self ->
  add_expense category (PyFloat.of_Z n) who true self = (Return tt, self') ->
  (who = name (person_a self) /\ whole_books (n + ta) tb self') \/
  (who <> name (person_a self) /\ who = name (person_b self) /\
   whole_books ta (n + tb) self').
Proof.
  intros Hn Hbound Hw Hadd.
  pose proof (whole_books_nonneg ta tb self Hw) as [Hta Htb].
  destruct Hw as (za & zb & zs & Hza & Hzb & Hzs & Ea & Eb & Es & Ta & Tb & Ts).
  rewrite add_expense_unfold in Hadd.
  destruct (String.eqb_spec who (name (person_a self))) as [Ha|Ha].
  - left. split; [exact Ha|]. inversion Hadd. subst self'. clear Hadd.
    exists (zset za category (zget za category + n)), zb,
           (zset zs category (zget zs category + n)).
    pose proof (zget_bounds za category Hza).
    pose proof (zget_bounds zs category Hzs).
    cbn [shared_expenses person_a person_b add_shared_paid shared_expenses_paid].
    rewrite Ea, Es, !pay_into_floats by (assumption || lia).
    rewrite !ztotal_zset.
    repeat split; try assumption; try (apply nonneg_zset; assumption || lia); lia.
  - destruct (String.eqb_spec who (name (person_b self))) as [Hb|Hb]; [|discriminate].
    right. split; [exact Ha|]. split; [exact Hb|].
    inversion Hadd. subst self'. clear Hadd.
    exists za, (zset zb category (zget zb category + n)),
           (zset zs category (zget zs category + n)).
    pose proof (zget_bounds zb category Hzb).
    pose proof (zget_bounds zs category Hzs).
    cbn [shared_expenses person_a person_b add_shared_paid shared_expenses_paid].
    rewrite Eb, Es, !pay_into_floats by (assumption || lia).
    rewrite !ztotal_zset.
    repeat split; try assumption; try (apply nonneg_zset; assumption || lia); lia.
Qed.

Lemma whole_books_personal ta tb category amount who self self' :
  whole_books ta tb self ->
  add_expense category amount who false self = (Return tt, self') ->
  whole_books ta tb self'.
Proof.
  intros H Hadd. rewrite add_expense_unfold in Hadd.
  destruct (String.eqb who (name (person_a self)));
    [|destruct (String.eqb who (name (person_b self))); [|discriminate]];
    inversion Hadd; subst self'; exact H.
Qed.

(** A successful call keeps the names and the incomes. *)
Lemma do_call_same_people c self self' :
  do_call c self = (Return tt, self') -> same_people self self'.
Proof.
  unfold do_call. rewrite add_expense_unfold. intros H.
  destruct (String.eqb (c_paid_by c) (name (person_a self)));
    [|destruct (String.eqb (c_paid_by c) (name (person_b self))); [|discriminate]];
    inversion H; subst self'; destruct (c_is_shared c); repeat split.
Qed.

Lemma same_people_trans s1 s2 s3 :
  same_people s1 s2 -> same_people s2 s3 -> same_people s1 s3.
Proof.
  unfold same_people. intros (?&?&?&?) (?&?&?&?). repeat split; congruence.
Qed.

Lemma run_same_people cs : forall self self',
  run cs self = (Return tt, self') -> same_people self self'.
Proof.
  induction cs as [|c cs IH]; intros self self' Hrun.
  - inversion Hrun. subst. repeat split.
  - cbn [run] in Hrun. unfold bind in Hrun.
    destruct (do_call c self) as [[[]|e] s1] eqn:E; [|discriminate].
    eapply same_people_trans; [exact (do_call_same_people c self s1 E)|].
    now apply IH.
Qed.

Lemma whole_books_run na nb cs ta tb : whole_paid na nb cs ta tb ->
  forall Ta Tb self self',
  name (person_a self) = na -> name (person_b self) = nb ->
  Ta + Tb + ta + tb < 2 ^ 53 ->
  whole_books Ta Tb self ->
  run cs self = (Return tt, self') ->
  whole_books (Ta + ta) (Tb + tb) self'.
Proof.
  induction 1 as [|c cs ta tb Hp Hcs IH
                  |c cs ta tb n ta' Hs Hn Hamt Hwho -> Hcs IH
                  |c cs ta tb n tb' Hs Hn Hamt Hnot Hwho -> Hcs IH];
    intros Ta Tb self self' Hna Hnb Hbound Hw Hrun;
    try apply String.eqb_eq in Hwho; try apply String.eqb_neq in Hnot.
  - inversion Hrun. subst. now rewrite !Z.add_0_r.
  - cbn [run] in Hrun. unfold bind in Hrun.
    destruct (do_call c self) as [[[]|e] s1] eqn:E; [|discriminate].
    destruct (do_call_same_people c self s1 E) as (Na & Nb & _).
    apply (IH Ta Tb s1 self'); try congruence; try assumption.
    unfold do_call in E. rewrite Hp in E.
    exact (whole_books_personal Ta Tb _ _ _ self s1 Hw E).
  - cbn [run] in Hrun. unfold bind in Hrun.
    destruct (do_call c self) as [[[]|e] s1] eqn:E; [|discriminate].
    destruct (do_call_same_people c self s1 E) as (Na & Nb & _).
    pose proof (whole_books_nonneg _ _ _ Hw) as [HTa HTb].
    assert (Hpos : 0 <= ta /\ 0 <= tb).
    { clear -Hcs. induction Hcs; lia. }
    unfold do_call in E. rewrite Hs, Hamt in E.
    destruct (whole_books_step Ta Tb n _ _ self s1 Hn ltac:(lia) Hw E)
      as [[_ Hw1]|[Hne _]]; [|congruence].
    replace (Ta + (n + ta)) with (n + Ta + ta) by lia.
    apply (IH (n + Ta) Tb s1 self'); try congruence; try assumption. lia.
  - cbn [run] in Hrun. unfold bind in Hrun.
    destruct (do_call c self) as [[[]|e] s1] eqn:E; [|discriminate].
    destruct (do_call_same_people c self s1 E) as (Na & Nb & _).
    pose proof (whole_books_nonneg _ _ _ Hw) as [HTa HTb].
    assert (Hpos : 0 <= ta /\ 0 <= tb).
    { clear -Hcs. induction Hcs; lia. }
    unfold do_call in E. rewrite Hs, Hamt in E.
    destruct (whole_books_step Ta Tb n _ _ self s1 Hn ltac:(lia) Hw E)
      as [[He _]|(_ & _ & Hw1)]; [congruence|].
    replace (Tb + (n + tb)) with (n + Tb + tb) by lia.
    apply (IH Ta (n + Tb) s1 self'); try congruence; try assumption. lia.
Qed.

(** What the three totals of whole books are. *)
Lemma whole_books_totals ta tb self :
  whole_books ta tb self -> ta + tb < 2 ^ 53 ->
  PyFloat.sum (Dict.values (shared_expenses self)) = PyFloat.of_Z (ta + tb) /\
  PyFloat.sum (Dict.values (shared_expenses_paid (person_a self))) = PyFloat.of_Z ta /\
  PyFloat.sum (Dict.values (shared_expenses_paid (person_b self))) = PyFloat.of_Z tb.
Proof.
  intros Hw Hb. pose proof (whole_books_nonneg _ _ _ Hw) as [Hta Htb].
  destruct Hw as (za & zb & zs & Hza & Hzb & Hzs & -> & -> & -> & Ta & Tb & Ts).
  rewrite !sum_floats by (assumption || lia). now rewrite Ta, Tb, Ts.
Qed.

Lemma fresh_run_books na ia nb ib cs ta tb self :
  whole_paid na nb cs ta tb ->
  ta + tb < 2 ^ 53 ->
  run cs (new_contribution na ia nb ib) = (Return tt, self) ->
  whole_books ta tb self /\ same_people (new_contribution na ia nb ib) self.
Proof.
  intros Hcs Hb Hrun. split; [|now apply (run_same_people cs)].
  apply (whole_books_run na nb cs ta tb Hcs 0 0 (new_contribution na ia nb ib) self);
    try reflexivity; try assumption; try lia; apply whole_books_new.
Qed.

(** X1. For whole amounts the three totals of the ledger are exact. After a
    sequence of successful calls of [add_expense] on a fresh ledger, with
    shared amounts that are whole numbers, none negative, of a total below
    [2^53], [get_total_shared_expenses()] is the float of the total of the
    shared amounts, [get_person_shared_paid] of person A's name is the float
    of the total of the amounts charged to person A, and, when the two names
    differ, [get_person_shared_paid] of person B's name is the float of the
    total of the amounts charged to person B. The two persons' totals add up
    to the total of the ledger. *)
Theorem totals_of_whole_amounts_are_exact
    (na : string) (ia : float) (nb : string) (ib : float)
    (cs : list call) (ta tb : Z) (self : Contribution) :
  whole_paid na nb cs ta tb ->
  ta + tb < 2 ^ 53 ->
  run cs (new_contribution na ia nb ib) = (Return tt, self) ->
  get_total_shared_expenses self = (Return (PyFloat.of_Z (ta + tb)), self) /\
  get_person_shared_paid na self = (Return (PyFloat.of_Z ta), self) /\
  (nb <> na -> get_person_shared_paid nb self = (Return (PyFloat.of_Z tb), self)) /\
  (PyFloat.of_Z ta + PyFloat.of_Z tb)%float = PyFloat.of_Z (ta + tb).
Proof.
  intros Hcs Hb Hrun.
  destruct (fresh_run_books na ia nb ib cs ta tb self Hcs Hb Hrun)
    as [Hw (Na & Nb & _)].
  destruct (whole_books_totals ta tb self Hw Hb) as (Ts & Ta & Tb).
  destruct (whole_books_nonneg ta tb self Hw) as [Hta Htb].
  cbn in Na, Nb.
  unfold get_total_shared_expenses, get_person_shared_paid, bind, get_state, ret.
  rewrite Na, Nb, String.eqb_refl, Ts, Ta, Tb.
  repeat split.
  - intros Hne. apply String.eqb_neq in Hne.
    now rewrite Hne, ?String.eqb_refl.
  - now apply SharedTotals.of_Z_add.
Qed.

Lemma month_calls_whole : whole_paid "Alice" "Bob" month_calls 1150 200.
Proof.
  eapply paid_by_a with (n := 1000) (ta := 150);
    [reflexivity|lia|reflexivity|reflexivity|reflexivity|].
  eapply paid_by_b with (n := 200) (tb := 0);
    [reflexivity|lia|reflexivity|reflexivity|reflexivity|reflexivity|].
  apply paid_personal; [reflexivity|].
  eapply paid_by_a with (n := 150) (ta := 0);
    [reflexivity|lia|reflexivity|reflexivity|reflexivity|].
  apply paid_nil.
Qed.

Lemma totals_of_whole_amounts_are_exact_witness :
  exists self,
    run month_calls (new_contribution "Alice" 3000 "Bob" 2000) = (Return tt, self) /\
    get_total_shared_expenses self = (Return 1350%float, self) /\
    get_person_shared_paid "Alice" self = (Return 1150%float, self).
Proof.
  eexists. split; [vm_compute; reflexivity|].
  destruct (totals_of_whole_amounts_are_exact "Alice" 3000 "Bob" 2000 month_calls
              1150 200 _ month_calls_whole ltac:(reflexivity) eq_refl)
    as (Ht & Ha & _ & _).
  split; [exact Ht|exact Ha].
Defined.

(** *** The order of the calls *)

Ltac paid_cons :=
  first
    [ eapply paid_personal; [eassumption|]
    | eapply paid_by_a; [eassumption| |eassumption|eassumption|shelve|]; [eassumption|]
    | eapply paid_by_b;
        [eassumption| |eassumption|eassumption|eassumption|shelve|]; [eassumption|] ].

Lemma whole_paid_permutation na nb cs cs' :
  Permutation cs cs' ->
  forall ta tb, whole_paid na nb cs ta tb -> whole_paid na nb cs' ta tb.
Proof.
  induction 1 as [|x l l' Hp IH|x y l|l l' l'' Hp1 IH1 Hp2 IH2]; intros ta tb H.
  - exact H.
  - inversion H; subst; unshelve (paid_cons; apply IH; eassumption); lia.
  - inversion H as [|? ? ? ? ? H1|? ? ? ? ? ? ? ? ? ? ? H1|? ? ? ? ? ? ? ? ? ? ? ? H1];
      subst; inversion H1; subst;
      unshelve (paid_cons; paid_cons; eassumption).
    all: try reflexivity.
    all: lia.
  - auto.
Qed.

Lemma run_returns cs : forall self,
  Forall (registered (name (person_a self)) (name (person_b self))) cs ->
  exists self', run cs self = (Return tt, self').
Proof.
  induction cs as [|c cs IH]; intros self H; cbn [run].
  - eexists. reflexivity.
  - inversion H as [|? ? Hc Hcs]. subst. unfold bind.
    destruct (do_call c self) as [[[]|e] s1] eqn:E.
    + destruct (do_call_same_people c self s1 E) as (Na & Nb & _).
      apply IH. now rewrite Na, Nb.
    + exfalso. unfold do_call in E. rewrite add_expense_unfold in E.
      destruct Hc as [Hc|Hc]; rewrite Hc, ?String.eqb_refl in E.
      * discriminate.
      * destruct (String.eqb (name (person_b self)) (name (person_a self)));
          discriminate.
Qed.

Lemma run_registered cs : forall self self',
  run cs self = (Return tt, self') ->
  Forall (registered (name (person_a self)) (name (person_b self))) cs.
Proof.
  induction cs as [|c cs IH]; intros self self' Hrun; [constructor|].
  cbn [run] in Hrun. unfold bind in Hrun.
  destruct (do_call c self) as [[[]|e] s1] eqn:E; [|discriminate].
  destruct (do_call_same_people c self s1 E) as (Na & Nb & _).
  constructor.
  - unfold do_call in E. rewrite add_expense_unfold in E. unfold registered.
    destruct (String.eqb_spec (c_paid_by c) (name (person_a self))); [now left|].
    destruct (String.eqb_spec (c_paid_by c) (name (person_b self))); [now right|].
    discriminate.
  - rewrite <- Na, <- Nb. exact (IH s1 self' Hrun).
Qed.

(** Two ledgers of the same people with the same whole totals have the same
    report. *)
Lemma reports_agree ta tb s1 s2 :
  ta + tb < 2 ^ 53 ->
  whole_books ta tb s1 -> whole_books ta tb s2 ->
  same_people s1 s2 ->
  fst (generate_monthly_balance s2) = fst (generate_monthly_balance s1).
Proof.
  intros Hb H1 H2 (Na & Nb & Ia & Ib).
  destruct (whole_books_totals ta tb s1 H1 Hb) as (Ts1 & Ta1 & Tb1).
  destruct (whole_books_totals ta tb s2 H2 Hb) as (Ts2 & Ta2 & Tb2).
  rewrite !generate_monthly_balance_unfold. cbv zeta. cbn [fst].
  unfold paid_read_for_b, calculate_income_ratio.
  now rewrite Ts1, Ta1, Tb1, Ts2, Ta2, Tb2, Na, Nb, Ia, Ib.
Qed.

(** X2. For whole amounts the settlement does not depend on the order in which
    the expenses are recorded. When a sequence of calls of [add_expense]
    succeeds on a fresh ledger, with shared amounts that are whole numbers,
    none negative, of a total below [2^53], every reordering of the calls
    succeeds as well, and [generate_monthly_balance] returns the same report
    after both. *)
Theorem settlement_does_not_depend_on_order
    (na : string) (ia : float) (nb : string) (ib : float)
    (cs cs' : list call) (ta tb : Z) (self : Contribution) :
  whole_paid na nb cs ta tb ->
  ta + tb < 2 ^ 53 ->
  Permutation cs cs' ->
  run cs (new_contribution na ia nb ib) = (Return tt, self) ->
  exists self',
    run cs' (new_contribution na ia nb ib) = (Return tt, self') /\
    fst (generate_monthly_balance self') = fst (generate_monthly_balance self).
Proof.
  intros Hcs Hb Hperm Hrun.
  destruct (run_returns cs' (new_contribution na ia nb ib)) as [self' Hrun'].
  { eapply Permutation_Forall; [exact Hperm|].
    exact (run_registered cs _ self Hrun). }
  exists self'. split; [exact Hrun'|].
  destruct (fresh_run_books na ia nb ib cs ta tb self Hcs Hb Hrun) as [Hw Hp].
  destruct (fresh_run_books na ia nb ib cs' ta tb self'
              (whole_paid_permutation na nb cs cs' Hperm ta tb Hcs) Hb Hrun')
    as [Hw' Hp'].
  apply (reports_agree ta tb); try assumption.
  destruct Hp as (?&?&?&?), Hp' as (?&?&?&?). repeat split; congruence.
Qed.

Lemma settlement_does_not_depend_on_order_witness :
  exists self self',
    run month_calls (new_contribution "Alice" 3000 "Bob" 2000) = (Return tt, self) /\
    run month_calls_reordered (new_contribution "Alice" 3000 "Bob" 2000)
      = (Return tt, self') /\
    fst (generate_monthly_balance self') = fst (generate_monthly_balance self).
Proof.
  eexists.
  destruct (settlement_does_not_depend_on_order "Alice" 3000 "Bob" 2000
              month_calls month_calls_reordered 1150 200 _
              month_calls_whole ltac:(reflexivity) ltac:(apply perm_swap) eq_refl)
    as (self' & Hrun' & Hrep).
  exists self'. split; [reflexivity|]. split; [exact Hrun'|exact Hrep].
Defined.

End WholeBooks.

(** ** Two persons of one name *)

Module SameName.
Import Calculations Ledgers CalculationsFacts.

Lemma same_name_step c self self' :
  name (person_b self) = name (person_a self) ->
  do_call c self = (Return tt, self') ->
  person_b self' = person_b self /\ name (person_a self') = name (person_a self).
Proof.
  intros Hn. unfold do_call. rewrite add_expense_unfold, Hn.
  destruct (String.eqb (c_paid_by c) (name (person_a self))); [|discriminate].
  intros H. inversion H. destruct (c_is_shared c); split; reflexivity.
Qed.

Lemma same_name_run cs : forall self self',
  name (person_b self) = name (person_a self) ->
  run cs self = (Return tt, self') ->
  person_b self' = person_b self /\ name (person_a self') = name (person_a self).
Proof.
  induction cs as [|c cs IH]; intros self self' Hn Hrun.
  - inversion Hrun. subst. split; reflexivity.
  - cbn [run] in Hrun. unfold bind in Hrun.
    destruct (do_call c self) as [[[]|e] s1] eqn:E; [|discriminate].
    destruct (same_name_step c self s1 Hn E) as [Hb Ha].
    destruct (IH s1 self') as [Hb' Ha']; [congruence|exact Hrun|].
    split; congruence.
Qed.

(** X3. When the two persons of a ledger have the same name, [add_expense]
    charges every expense to person A, since it compares the name with
    person A's first: after any sequence of successful calls person B is as
    before, with the same dictionaries, and the report of
    [generate_monthly_balance] shows for person B the payments of
    person A. *)
Theorem same_name_charges_person_a
    (cs : list call) (self self' : Contribution) :
  name (person_b self) = name (person_a self) ->
  run cs self = (Return tt, self') ->
  person_b self' = person_b self /\
  exists r,
    generate_monthly_balance self' = (Return r, self') /\
    actual_paid (balance_person_b r) =
      PyFloat.sum (Dict.values (shared_expenses_paid (person_a self'))) /\
    actual_paid (balance_person_b r) = actual_paid (balance_person_a r).
Proof.
  intros Hn Hrun. destruct (same_name_run cs self self' Hn Hrun) as [Hb Ha].
  split; [exact Hb|].
  rewrite generate_monthly_balance_unfold. cbv zeta.
  eexists. split; [reflexivity|].
  cbn [actual_paid balance_person_a balance_person_b]. unfold paid_read_for_b.
  rewrite Hb, Ha, Hn, String.eqb_refl. split; reflexivity.
Qed.

Lemma same_name_charges_person_a_witness :
  exists self',
    run [mkCall "rent" 1000 "Sam" true; mkCall "food" 200 "Sam" true]
      (new_contribution "Sam" 3000 "Sam" 2000) = (Return tt, self') /\
    person_b self' = new_person "Sam" 2000 /\
    exists r,
      generate_monthly_balance self' = (Return r, self') /\
      actual_paid (balance_person_b r) = 1200%float.
Proof.
  eexists. split; [vm_compute; reflexivity|].
  destruct (same_name_charges_person_a
              [mkCall "rent" 1000 "Sam" true; mkCall "food" 200 "Sam" true]
              (new_contribution "Sam" 3000 "Sam" 2000) _ eq_refl eq_refl)
    as (Hb & r & Hr & Hpaid & _).
  split; [exact Hb|]. exists r. split; [exact Hr|]. exact Hpaid.
Defined.

End SameName.

(** ** Shared expenses *)

Module SharedExpense.
Import Calculations Ledgers CalculationsFacts.

(** X4. A call of [add_expense] with [is_shared = True] and the name of one of
    the two persons returns; in the ledger after the call the payer's
    [shared_expenses_paid] and the ledger's [shared_expenses] have the
    category raised by the amount and every other category as before, and
    the payer's name, income and [personal_expenses] and the whole other
    person are as before. *)
Theorem shared_expense_is_booked_twice
    (category : string) (amount : float) (paid_by : string) (self : Contribution) :
  paid_by = name (person_a self) \/ paid_by = name (person_b self) ->
  exists self',
    add_expense category amount paid_by true self = (Return tt, self') /\
    let p := deref self (payer_of self paid_by) in
    let p' := deref self' (payer_of self paid_by) in
    Dict.get (shared_expenses_paid p') category 0%float =
      (Dict.get (shared_expenses_paid p) category 0 + amount)%float /\
    Dict.get (shared_expenses self') category 0%float =
      (Dict.get (shared_expenses self) category 0 + amount)%float /\
    (forall c, c <> category ->
       Dict.get (shared_expenses_paid p') c 0%float =
         Dict.get (shared_expenses_paid p) c 0%float /\
       Dict.get (shared_expenses self') c 0%float =
         Dict.get (shared_expenses self) c 0%float) /\
    name p' = name p /\
    monthly_income p' = monthly_income p /\
    personal_expenses p' = personal_expenses p /\
    deref self' (other (payer_of self paid_by)) = deref self (other (payer_of self paid_by)).
Proof.
  intros Hreg. rewrite add_expense_unfold. unfold payer_of.
  destruct (String.eqb paid_by (name (person_a self))) eqn:Ea.
  - eexists. split; [reflexivity|]. cbn.
    rewrite !dict_get_set_same. repeat split;
      apply dict_get_set_other; congruence.
  - destruct (String.eqb paid_by (name (person_b self))) eqn:Eb.
    + eexists. split; [reflexivity|]. cbn.
      rewrite !dict_get_set_same. repeat split;
        apply dict_get_set_other; congruence.
    + apply String.eqb_neq in Ea, Eb. destruct Hreg; congruence.
Qed.

Lemma shared_expense_is_booked_twice_witness :
  exists self',
    add_expense "rent" 500 "Alice" true ledger2 = (Return tt, self') /\
    Dict.get (shared_expenses self') "rent" 0%float = 1500%float /\
    person_b self' = person_b ledger2.
Proof.
  destruct (shared_expense_is_booked_twice "rent" 500 "Alice" ledger2)
    as (self' & Hadd & H).
  - left. reflexivity.
  - exists self'. split; [exact Hadd|].
    destruct H as (_ & Hs & _ & _ & _ & _ & Hother).
    split; [exact Hs|exact Hother].
Defined.

(** The categories of the ledger *)

Lemma keys_set_iff d k v k' :
  In k' (Dict.keys (Dict.set d k v)) <-> k' = k \/ In k' (Dict.keys d).
Proof.
  split; [apply SharedTotals.keys_set_In|].
  unfold Dict.keys. induction d as [|[k0 v0] d IH]; cbn [Dict.set map fst In].
  - intros [->|[]]. now left.
  - destruct (String.eqb_spec k0 k) as [->|Hne]; cbn [map fst In].
    + intros [->|H]; [now left|exact H].
    + intros [->|[H|H]]; [right; apply IH; now left|now left|right; apply IH; now right].
Qed.

(** X5. In every ledger that a fresh ledger reaches by successful calls of
    [add_expense], the categories of [shared_expenses] are the categories of
    the two persons' [shared_expenses_paid]: a category has an entry in the
    ledger exactly when one of the two persons has an entry for it. *)
Theorem ledger_categories_are_the_paid_categories (self : Contribution) :
  reachable self ->
  forall c,
    In c (Dict.keys (shared_expenses self)) <->
    In c (Dict.keys (shared_expenses_paid (person_a self))) \/
    In c (Dict.keys (shared_expenses_paid (person_b self))).
Proof.
  induction 1 as [na ia nb ib|self call self' Hr IH Hcall]; intros c.
  - cbn. tauto.
  - unfold do_call in Hcall. rewrite add_expense_unfold in Hcall.
    specialize (IH c).
    destruct (String.eqb (c_paid_by call) (name (person_a self)));
      [|destruct (String.eqb (c_paid_by call) (name (person_b self))); [|discriminate]];
      inversion Hcall; subst self'; clear Hcall;
      destruct (c_is_shared call);
      cbn [shared_expenses person_a person_b add_shared_paid add_personal
           shared_expenses_paid];
      rewrite ?keys_set_iff; tauto.
Qed.

Lemma ledger_categories_are_the_paid_categories_witness :
  In "utilities"%string (Dict.keys (shared_expenses ledger2)) <->
  In "utilities"%string (Dict.keys (shared_expenses_paid (person_a ledger2))) \/
  In "utilities"%string (Dict.keys (shared_expenses_paid (person_b ledger2))).
Proof.
  apply (ledger_categories_are_the_paid_categories ledger2).
  apply (run_reachable
           [mkCall "rent" 1000 "Alice" true; mkCall "utilities" 200 "Bob" true]
           (new_contribution "Alice" 3000 "Bob" 2000)); [apply reach_new|].
  vm_compute. reflexivity.
Defined.

End SharedExpense.

(** ** The summary line *)

Module SummaryLine.
Import Calculations Binary64.
Local Open Scope Z_scope.

Lemma nan_of_self_unequal (x : float) :
  (x =? x)%float = false -> Prim2SF x = S754_nan.
Proof.
  rewrite FloatAxioms.eqb_spec. unfold SFeqb, SFcompare.
  destruct (Prim2SF x) as [s|s| |s m e]; try reflexivity; try discriminate.
  - destruct s; discriminate.
  - rewrite Z.compare_refl, Pos.compare_cont_refl. destruct s; discriminate.
Qed.

(** X9. A balance that is not a number is reported as a debt of person B: both
    comparisons of [_generate_summary] are false for a NaN, so the summary is
    not the balanced one, the debtor is person B, and the amount is printed
    as [nan]. *)
Theorem summary_of_nan_balance (person_a_name person_b_name : string) (balance_a : float) :
  (balance_a =? balance_a)%float = false ->
  _generate_summary person_a_name person_b_name balance_a =
    String.append person_b_name
      (String.append " owes "
         (String.append person_a_name
            (String.append " " (String.append currency_mark "nan")))).
Proof.
  intros H. apply nan_of_self_unequal in H.
  unfold _generate_summary, PyFloat.format_2f.
  rewrite !ltb_spec, !abs_spec, H. reflexivity.
Qed.

Lemma summary_of_nan_balance_witness :
  _generate_summary "Alice" "Bob" (infinity - infinity)%float =
    String.append "Bob owes Alice " (String.append currency_mark "nan").
Proof.
  apply (summary_of_nan_balance "Alice" "Bob" (infinity - infinity)%float).
  reflexivity.
Defined.

(** The float of a whole number from 1 to [2^53 - 1]: its exponent is
    between -52 and 0, and a hundred times its value is a whole number. *)
Lemma whole_float (n : Z) :
  1 <= n < 2 ^ 53 ->
  exists m e,
    Prim2SF (PyFloat.of_Z n) = S754_finite false m e /\
    -52 <= e <= 0 /\
    PyFloat.hundredths m e = 100 * n.
Proof.
  intros [Hlo Hhi]. destruct n as [|p|p]; try lia.
  unfold PyFloat.of_Z. rewrite Binary64Facts.Prim2SF_of_Z by lia.
  cbn [float_of_nonneg]. unfold canonical_integer.
  pose proof (Binary64Facts.Zdigits2_bounds p) as [Hdlo Hdhi].
  set (d := Z.pos (digits2_pos p)) in *.
  assert (Hd1 : 1 <= d) by (unfold d; lia).
  assert (Hd53 : d <= 53).
  { assert (d - 1 < 53); [|lia]. apply (Z.pow_lt_mono_r_iff 2); lia. }
  assert (Hk : 0 < 2 ^ (53 - d)) by (apply Z.pow_pos_nonneg; lia).
  eexists _, _. split; [reflexivity|]. split; [lia|].
  unfold PyFloat.hundredths. rewrite Z2Pos.id by lia.
  destruct (Z.leb_spec 0 (d - 53)) as [Hge|Hlt].
  - replace (53 - d) with 0 by lia. replace (d - 53) with 0 by lia.
    change (2 ^ 0) with 1. lia.
  - unfold PyFloat.round_half_even_div.
    replace (- (d - 53)) with (53 - d) by lia.
    replace (Z.pos p * 2 ^ (53 - d) * 100) with (100 * Z.pos p * 2 ^ (53 - d)) by lia.
    rewrite Z.div_mul, Z.mod_mul by lia. cbv zeta. rewrite Z.mul_0_r.
    destruct (Z.compare_spec 0 (2 ^ (53 - d))); lia.
Qed.

(** A whole amount is printed with its digits and [.00]. *)
Lemma format_2f_whole (n : Z) :
  1 <= n < 2 ^ 53 ->
  PyFloat.format_2f (PyFloat.of_Z n) = String.append (PyFloat.digits_of_Z n) ".00".
Proof.
  intros Hn. destruct (whole_float n Hn) as (m & e & E & _ & Hh).
  unfold PyFloat.format_2f. rewrite E. cbv zeta. rewrite Hh.
  rewrite (Z.mul_comm 100 n), Z.div_mul, Z.mod_mul by lia. reflexivity.
Qed.

Lemma whole_float_comparisons (n : Z) :
  1 <= n < 2 ^ 53 ->
  PrimFloat.abs (PyFloat.of_Z n) = PyFloat.of_Z n /\
  PrimFloat.abs (- PyFloat.of_Z n) = PyFloat.of_Z n /\
  (PyFloat.of_Z n <? 0.01)%float = false /\
  (0 <? PyFloat.of_Z n)%float = true /\
  (0 <? - PyFloat.of_Z n)%float = false.
Proof.
  intros Hn. destruct (whole_float n Hn) as (m & e & E & He & _).
  repeat split.
  - apply Prim2SF_inj. now rewrite abs_spec, E.
  - apply Prim2SF_inj. now rewrite abs_spec, opp_spec, E.
  - rewrite ltb_spec, E.
    change (Prim2SF 0.01) with (S754_finite false 5764607523034235 (-59)).
    unfold SFltb, SFcompare. destruct (Z.compare_spec e (-59)); try lia; reflexivity.
  - rewrite ltb_spec, E. reflexivity.
  - rewrite ltb_spec, opp_spec, E. reflexivity.
Qed.

(** X8. A balance of a whole number of euros: when person A's balance is [n],
    from 1 to [2^53 - 1], the summary names person A as the debtor and
    person B as the creditor, and when it is [-n] it names person B as the
    debtor and person A as the creditor; in both the amount is printed as
    the digits of [n] followed by [.00]. *)
Theorem summary_of_whole_balance (person_a_name person_b_name : string) (n : Z) :
  1 <= n < 2 ^ 53 ->
  _generate_summary person_a_name person_b_name (PyFloat.of_Z n) =
    String.append person_a_name
      (String.append " owes "
         (String.append person_b_name
            (String.append " "
               (String.append currency_mark
                  (String.append (PyFloat.digits_of_Z n) ".00"))))) /\
  _generate_summary person_a_name person_b_name (- PyFloat.of_Z n) =
    String.append person_b_name
      (String.append " owes "
         (String.append person_a_name
            (String.append " "
               (String.append currency_mark
                  (String.append (PyFloat.digits_of_Z n) ".00"))))).
Proof.
  intros Hn.
  destruct (whole_float_comparisons n Hn) as (Habs & Habs' & Hsmall & Hpos & Hneg).
  unfold _generate_summary.
  rewrite Habs, Habs', Hsmall, Hpos, Hneg, (format_2f_whole n Hn).
  split; reflexivity.
Qed.

Lemma summary_of_whole_balance_witness :
  _generate_summary "Alice" "Bob" (-280)%float =
    String.append "Bob owes Alice " (String.append currency_mark "280.00").
Proof.
  apply (proj2 (summary_of_whole_balance "Alice" "Bob" 280 ltac:(lia))).
Defined.

End SummaryLine.

(** ** Keywords: what a table of categories can and cannot return *)

Module Keywords.
Import Categories Frames Classification.

Lemma append_assoc3 (a b c : string) :
  String.append (String.append a b) c = String.append a (String.append b c).
Proof.
  induction a as [|x a IH]; [reflexivity|].
  change (String x (String.append (String.append a b) c) =
          String x (String.append a (String.append b c))).
  now rewrite IH.
Qed.

Lemma substring_trans (a b c : string) :
  substring a b -> substring b c -> substring a c.
Proof.
  intros (p1 & s1 & ->) (p2 & s2 & ->).
  exists (String.append p2 p1), (String.append s1 s2).
  now rewrite !append_assoc3.
Qed.

Lemma contains_empty (hay : string) : contains EmptyString hay = true.
Proof. apply contains_iff. exists EmptyString, hay. reflexivity. Qed.

Section WithUpper.

Variable upper : string -> string.

(** X10. [categorize_transaction] returns the name of a category of the table or
    ["uncategorized"], whatever the description is. *)
Theorem category_is_declared
    (description : string) (amount : float) (mappings : mapping) :
  categorize_transaction upper description amount mappings = "uncategorized"%string \/
  In (categorize_transaction upper description amount mappings) (map fst mappings).
Proof.
  unfold categorize_transaction.
  induction mappings as [|[c ks] rest IH]; cbn [first_match map fst In].
  - now left.
  - destruct (existsb _ ks); [right; now left|].
    destruct IH as [IH|IH]; [now left|right; now right].
Qed.

(** X11. The empty string occurs in every description: a category that has the
    empty keyword takes every description that no category before it takes.
    The result is then that category or one declared before it, never a
    later one and never the fallback ["uncategorized"]. *)
Theorem empty_keyword_catches_everything
    (description : string) (amount : float)
    (earlier : mapping) (category : string) (keywords : list string)
    (later : mapping) :
  upper EmptyString = EmptyString ->
  In EmptyString keywords ->
  In (categorize_transaction upper description amount
        (earlier ++ (category, keywords) :: later))
     (map fst earlier ++ [category]).
Proof.
  intros Hup Hin. unfold categorize_transaction.
  induction earlier as [|[c ks] earlier IH]; cbn [app first_match map fst In].
  - assert (E : existsb (fun keyword => contains (upper keyword) (upper description))
                  keywords = true).
    { apply existsb_exists. exists EmptyString. split; [exact Hin|].
      rewrite Hup. apply contains_empty. }
    rewrite E. now left.
  - destruct (existsb _ ks); [now left|right; exact IH].
Qed.

(** A keyword that never occurs changes nothing. *)
Lemma absent_keyword_is_redundant description earlier c ks1 k2 ks2 later :
  contains (upper k2) description = false ->
  first_match upper description (earlier ++ (c, ks1 ++ k2 :: ks2) :: later) =
  first_match upper description (earlier ++ (c, ks1 ++ ks2) :: later).
Proof.
  intros E. induction earlier as [|[c0 ks0] earlier IH]; cbn [app first_match].
  - rewrite !existsb_app. cbn [existsb]. now rewrite E.
  - now rewrite IH.
Qed.

(** X12. A keyword that contains another keyword of its own category, or of a
    category declared before, can be removed from the table: every
    description is classified as before. *)
Theorem contained_keyword_is_redundant
    (description : string) (amount : float)
    (earlier : mapping) (category : string) (ks1 : list string) (k2 : string)
    (ks2 : list string) (later : mapping) (k1 : string) :
  In k1 (ks1 ++ ks2) \/ (exists c' ks', In (c', ks') earlier /\ In k1 ks') ->
  substring (upper k1) (upper k2) ->
  categorize_transaction upper description amount
    (earlier ++ (category, ks1 ++ k2 :: ks2) :: later) =
  categorize_transaction upper description amount
    (earlier ++ (category, ks1 ++ ks2) :: later).
Proof.
  intros Hk1 Hsub. unfold categorize_transaction.
  destruct (contains (upper k2) (upper description)) eqn:E2;
    [|now apply absent_keyword_is_redundant].
  assert (E1 : contains (upper k1) (upper description) = true).
  { apply contains_iff. apply contains_iff in E2. now apply (substring_trans _ (upper k2)). }
  clear Hsub.
  induction earlier as [|[c0 ks0] earlier IH]; cbn [app first_match].
  - destruct Hk1 as [Hk1|(c' & ks' & [] & _)].
    assert (E : existsb (fun keyword => contains (upper keyword) (upper description))
                  (ks1 ++ ks2) = true)
      by (apply existsb_exists; eauto).
    rewrite E, existsb_app. cbn [existsb]. rewrite E2.
    now rewrite orb_true_l, orb_true_r.
  - destruct (existsb _ ks0) eqn:E0; [reflexivity|].
    apply IH. destruct Hk1 as [Hk1|(c' & ks' & [Hc|Hc] & Hin)].
    + now left.
    + inversion Hc. subst c' ks'. exfalso.
      assert (existsb (fun keyword => contains (upper keyword) (upper description))
                ks0 = true) by (apply existsb_exists; eauto).
      congruence.
    + right. eauto.
Qed.

End WithUpper.

Lemma empty_keyword_catches_everything_witness :
  In (categorize_transaction upper_ascii "Unknown shop" 10
        [("food"%string, ["LIDL"%string]); ("other"%string, [EmptyString]);
         ("rent"%string, ["VUOKRA"%string])])
     ["food"%string; "other"%string].
Proof.
  apply (empty_keyword_catches_everything upper_ascii "Unknown shop" 10
           [("food"%string, ["LIDL"%string])] "other" [EmptyString]
           [("rent"%string, ["VUOKRA"%string])]).
  - reflexivity.
  - left. reflexivity.
Defined.

(** In the default table ["VANTAAN TAKSI"] comes after ["TAKSI"] in the same
    category. *)
Lemma contained_keyword_is_redundant_witness :
  categorize_transaction upper_ascii "Vantaan Taksi Oy" 30 DEFAULT_CATEGORY_MAPPINGS =
  categorize_transaction upper_ascii "Vantaan Taksi Oy" 30
    (firstn 1 DEFAULT_CATEGORY_MAPPINGS ++
     ("transport"%string,
      ["HSL"; "VR"; "FINNAIR"; "NORWEGIAN"; "TAXI"; "TAKSI"; "UBER"; "BOLT.EU"]%string ++
      [String.append "L" (String.append A_uml "HITAKSI")]) ::
     skipn 2 DEFAULT_CATEGORY_MAPPINGS).
Proof.
  apply (contained_keyword_is_redundant upper_ascii "Vantaan Taksi Oy" 30
           (firstn 1 DEFAULT_CATEGORY_MAPPINGS) "transport"
           ["HSL"; "VR"; "FINNAIR"; "NORWEGIAN"; "TAXI"; "TAKSI"; "UBER"; "BOLT.EU"]%string
           "VANTAAN TAKSI"
           [String.append "L" (String.append A_uml "HITAKSI")]
           (skipn 2 DEFAULT_CATEGORY_MAPPINGS) "TAKSI").
  - left. cbn. tauto.
  - apply contains_iff. vm_compute. reflexivity.
Defined.

End Keywords.

(** ** A classification pass: what it keeps *)

Module Passes.
Import Categories Frames FrameFacts StoreFacts.

Lemma set_column_well_formed (idx : list Z) cols col vs :
  Forall (fun nv : string * list cell => length (snd nv) = length idx) cols ->
  length vs = length idx ->
  Forall (fun nv : string * list cell => length (snd nv) = length idx)
    (set_column cols col vs).
Proof.
  intros H Hvs. induction H as [|[n old] cols Hx Hcols IH]; cbn [set_column].
  - constructor; [exact Hvs|constructor].
  - destruct (String.eqb n col); constructor; auto.
Qed.

Lemma set_column_id cols col vs :
  column cols col = Some vs -> set_column cols col vs = cols.
Proof.
  induction cols as [|[n old] cols IH]; cbn [column set_column]; [discriminate|].
  destruct (String.eqb n col).
  - intros E. now inversion E.
  - intros E. now rewrite IH.
Qed.

Lemma categorized_well_formed upper d mappings descriptions :
  well_formed d ->
  length descriptions = length (index d) ->
  well_formed (categorized upper d mappings descriptions).
Proof.
  intros Hwf Hlen. unfold well_formed, categorized, frame_set_scalar, frame_set_column.
  cbn [index columns]. apply set_column_well_formed; [|apply length_map].
  apply set_column_well_formed; [exact Hwf|]. now rewrite length_map.
Qed.

(** X13. A classification pass keeps the rows and the other columns. When the
    frame has the description column, [categorize_transactions] returns a
    frame with the index of the frame it was given, in which every column
    other than [category] and [auto_categorized] is the column of that
    frame, and in which every column, the two new ones included, has one
    cell per row. *)
Theorem categorize_transactions_keeps_the_rows
    (upper : string -> string) (h : store) (df : ref) (d : DataFrame)
    (mappings : option mapping) (description_column amount_column : string)
    (descriptions : list cell) :
  h !! df = Some d ->
  well_formed d ->
  column (columns d) description_column = Some descriptions ->
  exists df' d',
    categorize_transactions upper df mappings description_column amount_column h
      = (Return df', <[df' := d']> h) /\
    index d' = index d /\
    (forall col, col <> "category"%string -> col <> "auto_categorized"%string ->
        column (columns d') col = column (columns d) col) /\
    (exists categories flags,
        column (columns d') "category" = Some categories /\
        column (columns d') "auto_categorized" = Some flags /\
        length categories = length (index d) /\
        length flags = length (index d)) /\
    well_formed d'.
Proof.
  intros Hdf Hwf Hcol.
  exists (fresh (dom h)), (categorized upper d mappings descriptions).
  rewrite (categorize_transactions_spec upper h df d mappings _ _ Hdf), Hcol.
  assert (Hlen : length descriptions = length (index d))
    by now apply (column_length d description_column).
  split; [reflexivity|]. split; [reflexivity|]. split; [|split].
  - intros col Hc Hf. unfold categorized, frame_set_scalar, frame_set_column.
    cbn [columns index].
    rewrite column_set_column_other by congruence.
    now rewrite column_set_column_other by congruence.
  - unfold categorized, frame_set_scalar, frame_set_column. cbn [columns index].
    do 2 eexists. split; [|split; [apply column_set_column_same|]].
    + rewrite column_set_column_other by discriminate.
      apply column_set_column_same.
    + now rewrite !length_map.
  - now apply categorized_well_formed.
Qed.

Lemma categorize_transactions_keeps_the_rows_witness :
  exists df' d',
    categorize_transactions upper_ascii 1%positive None "recipient_name" "amount"
      {[ 1%positive := Tables.plain_frame ]}
      = (Return df', <[df' := d']> {[ 1%positive := Tables.plain_frame ]}) /\
    index d' = [0; 1]%Z /\
    column (columns d') "date" = Some [CStr "01.02.2024"; CStr "03.02.2024"].
Proof.
  destruct (categorize_transactions_keeps_the_rows upper_ascii
              {[ 1%positive := Tables.plain_frame ]} 1%positive Tables.plain_frame
              None "recipient_name" "amount"
              [CStr "K-Market Kamppi"; CStr "Helen Oy"])
    as (df' & d' & Hrun & Hidx & Hcols & _).
  - reflexivity.
  - repeat constructor.
  - reflexivity.
  - exists df', d'. split; [exact Hrun|]. split; [exact Hidx|].
    apply (Hcols "date"%string); discriminate.
Defined.

(** X14. A second classification pass changes nothing. When the description
    column is neither [category] nor [auto_categorized],
    [categorize_transactions] applied to the frame that it returned, with
    the same table, returns a frame equal to that frame. *)
Theorem second_classification_pass_changes_nothing
    (upper : string -> string) (h : store) (df : ref) (d : DataFrame)
    (mappings : option mapping) (description_column amount_column : string)
    (descriptions : list cell) :
  h !! df = Some d ->
  column (columns d) description_column = Some descriptions ->
  description_column <> "category"%string ->
  description_column <> "auto_categorized"%string ->
  exists df1 d1 df2,
    categorize_transactions upper df mappings description_column amount_column h
      = (Return df1, <[df1 := d1]> h) /\
    categorize_transactions upper df1 mappings description_column amount_column
      (<[df1 := d1]> h)
      = (Return df2, <[df2 := d1]> (<[df1 := d1]> h)).
Proof.
  intros Hdf Hcol Hc Hf.
  set (d1 := categorized upper d mappings descriptions).
  exists (fresh (dom h)), d1, (fresh (dom (<[fresh (dom h) := d1]> h))).
  rewrite (categorize_transactions_spec upper h df d mappings _ _ Hdf), Hcol.
  split; [reflexivity|].
  rewrite (categorize_transactions_spec upper _ _ d1) by apply lookup_insert_eq.
  assert (Hcol1 : column (columns d1) description_column = Some descriptions).
  { unfold d1, categorized, frame_set_scalar, frame_set_column. cbn [columns index].
    rewrite !column_set_column_other by congruence. exact Hcol. }
  rewrite Hcol1. do 2 f_equal.
  unfold d1, categorized, frame_set_scalar, frame_set_column. cbn [columns index].
  f_equal. rewrite (set_column_id _ "category").
  - apply set_column_id. apply column_set_column_same.
  - rewrite column_set_column_other by discriminate. apply column_set_column_same.
Qed.

Lemma second_classification_pass_changes_nothing_witness :
  exists df1 d1 df2,
    categorize_transactions upper_ascii 1%positive None "recipient_name" "amount"
      {[ 1%positive := Tables.plain_frame ]}
      = (Return df1, <[df1 := d1]> {[ 1%positive := Tables.plain_frame ]}) /\
    categorize_transactions upper_ascii df1 None "recipient_name" "amount"
      (<[df1 := d1]> {[ 1%positive := Tables.plain_frame ]})
      = (Return df2, <[df2 := d1]> (<[df1 := d1]> {[ 1%positive := Tables.plain_frame ]})).
Proof.
  apply (second_classification_pass_changes_nothing upper_ascii
           {[ 1%positive := Tables.plain_frame ]} 1%positive Tables.plain_frame
           None "recipient_name" "amount"
           [CStr "K-Market Kamppi"; CStr "Helen Oy"]).
  - reflexivity.
  - reflexivity.
  - discriminate.
  - discriminate.
Defined.

End Passes.

(** ** Overrides: one after another *)

Module Overrides.
Import Categories Frames FrameFacts StoreFacts Tables.

Lemma with_column_columns d col :
  columns (with_column d col) = ensure_column col (index d) (columns d).
Proof. unfold with_column, ensure_column. now destruct (column (columns d) col). Qed.

Lemma column_ensure_same col idx cols :
  exists vs, column (ensure_column col idx cols) col = Some vs.
Proof.
  unfold ensure_column. destruct (column cols col) eqn:E; [eauto|].
  rewrite column_app_last; eauto.
Qed.

Lemma column_ensure_other col col' idx cols :
  col <> col' -> column (ensure_column col idx cols) col' = column cols col'.
Proof.
  intros Hne. unfold ensure_column. destruct (column cols col); [reflexivity|].
  now apply column_app_other.
Qed.

Lemma ensure_column_id col idx cols vs :
  column cols col = Some vs -> ensure_column col idx cols = cols.
Proof. unfold ensure_column. now intros ->. Qed.

Lemma ensure_map_column col col' f idx cols :
  col <> col' ->
  ensure_column col idx (map_column col' f cols) =
  map_column col' f (ensure_column col idx cols).
Proof.
  intros Hne. unfold ensure_column.
  rewrite column_map_column_other by congruence.
  destruct (column cols col); [reflexivity|].
  unfold map_column. rewrite map_app. cbn [map fst].
  destruct (String.eqb_spec col col'); [congruence|reflexivity].
Qed.

Lemma map_column_compose col f g cols :
  map_column col f (map_column col g cols) = map_column col (fun vs => f (g vs)) cols.
Proof.
  unfold map_column. rewrite map_map. apply map_ext. intros [n vs]. cbn [fst snd].
  destruct (String.eqb n col) eqn:E; cbn [fst snd]; now rewrite E.
Qed.

Lemma map_column_comm col col' f g cols :
  col <> col' ->
  map_column col f (map_column col' g cols) = map_column col' g (map_column col f cols).
Proof.
  intros Hne. unfold map_column. rewrite !map_map. apply map_ext. intros [n vs].
  cbn [fst snd].
  destruct (String.eqb n col) eqn:E1, (String.eqb n col') eqn:E2;
    cbn [fst snd]; rewrite ?E1, ?E2; try reflexivity.
  apply String.eqb_eq in E1, E2. congruence.
Qed.

Lemma map_column_ext col f g cols :
  (forall vs, f vs = g vs) -> map_column col f cols = map_column col g cols.
Proof.
  intros H. unfold map_column. apply map_ext. intros [n vs]. cbn [fst snd].
  now rewrite H.
Qed.

Lemma set_where_overwrite label v v' idx : forall vs,
  set_where label v' idx (set_where label v idx vs) = set_where label v' idx vs.
Proof.
  induction idx as [|l idx IH]; intros [|c vs]; cbn [set_where]; try reflexivity.
  rewrite IH. now destruct (Z.eqb l label).
Qed.

Lemma set_where_comm i j v v' idx : forall vs,
  i <> j ->
  set_where j v' idx (set_where i v idx vs) = set_where i v idx (set_where j v' idx vs).
Proof.
  induction idx as [|l idx IH]; intros [|c vs] Hne; cbn [set_where]; try reflexivity.
  rewrite IH by exact Hne.
  destruct (Z.eqb_spec l i), (Z.eqb_spec l j); congruence.
Qed.

(** [override_category] in one step: the two assignments go through the
    columns of [override_columns]. *)
Lemma overridden_normal_form d label new_category :
  overridden d label new_category =
  mkDataFrame (index (with_label d label))
    (map_column "auto_categorized"
       (set_where label (CBool false) (index (with_label d label)))
       (map_column "category"
          (set_where label (CStr new_category) (index (with_label d label)))
          (override_columns d label))).
Proof.
  unfold overridden, override_columns.
  set (d1 := loc_set d label "category" (CStr new_category)).
  assert (Hi : index d1 = index (with_label d label)).
  { unfold d1. rewrite loc_set_eq. cbn [index]. apply with_column_index. }
  assert (Hl : has_label d1 label = true).
  { unfold has_label. rewrite Hi. apply with_label_has. }
  rewrite (loc_set_eq d1), (with_label_id d1 label Hl).
  rewrite with_column_index, with_column_columns, Hi.
  f_equal. f_equal.
  unfold d1. rewrite loc_set_eq. cbn [columns].
  rewrite with_column_index, with_column_columns.
  apply ensure_map_column. discriminate.
Qed.

Lemma override_columns_have d label :
  (exists vs, column (override_columns d label) "category" = Some vs) /\
  (exists vs, column (override_columns d label) "auto_categorized" = Some vs).
Proof.
  unfold override_columns. split; [|apply column_ensure_same].
  rewrite column_ensure_other by discriminate. apply column_ensure_same.
Qed.

(** The frame that an override returns has the label and the two columns:
    a second override enlarges nothing. *)
Lemma override_columns_of_overridden d label new_category :
  with_label (overridden d label new_category) label = overridden d label new_category /\
  override_columns (overridden d label new_category) label =
    columns (overridden d label new_category).
Proof.
  assert (Hl : with_label (overridden d label new_category) label
               = overridden d label new_category).
  { apply with_label_id. rewrite overridden_normal_form. unfold has_label.
    cbn [index]. apply with_label_has. }
  split; [exact Hl|]. unfold override_columns. rewrite Hl.
  destruct (override_columns_have d label) as [[vc Hc] [vf Hf]].
  rewrite overridden_normal_form. cbn [index columns].
  erewrite (ensure_column_id "category").
  - erewrite (ensure_column_id "auto_categorized"); [reflexivity|].
    rewrite column_map_column_same, column_map_column_other, Hf by discriminate.
    reflexivity.
  - rewrite column_map_column_other, column_map_column_same, Hc by discriminate.
    reflexivity.
Qed.

Lemma with_label_of_present d label :
  In label (index d) -> with_label d label = d.
Proof. intros H. apply with_label_id. now apply has_label_iff. Qed.

Lemma overridden_twice d label l2 c1 c2 :
  In l2 (index (with_label d label)) ->
  overridden (overridden d label c1) l2 c2 =
  mkDataFrame (index (with_label d label))
    (map_column "auto_categorized"
       (fun vs => set_where l2 (CBool false) (index (with_label d label))
                    (set_where label (CBool false) (index (with_label d label)) vs))
       (map_column "category"
          (fun vs => set_where l2 (CStr c2) (index (with_label d label))
                       (set_where label (CStr c1) (index (with_label d label)) vs))
          (override_columns d label))).
Proof.
  intros Hin.
  assert (Hi : index (overridden d label c1) = index (with_label d label))
    by now rewrite overridden_normal_form.
  assert (Hl2 : with_label (overridden d label c1) l2 = overridden d label c1)
    by (apply with_label_of_present; now rewrite Hi).
  rewrite (overridden_normal_form (overridden d label c1)).
  unfold override_columns at 1. rewrite Hl2, Hi.
  destruct (override_columns_of_overridden d label c1) as [Hl Hcols].
  unfold override_columns in Hcols. rewrite Hl, Hi in Hcols. rewrite Hcols.
  rewrite overridden_normal_form. cbn [columns]. f_equal.
  rewrite (map_column_comm "category" "auto_categorized") by discriminate.
  rewrite map_column_compose.
  now rewrite map_column_compose.
Qed.

Lemma overridden_last_wins d label c1 c2 :
  overridden (overridden d label c1) label c2 = overridden d label c2.
Proof.
  rewrite overridden_twice by (apply has_label_iff, with_label_has).
  rewrite overridden_normal_form. f_equal.
  erewrite (map_column_ext "category");
    [erewrite (map_column_ext "auto_categorized"); [reflexivity|]|].
  - intros vs. apply set_where_overwrite.
  - intros vs. apply set_where_overwrite.
Qed.

Lemma overridden_comm d i j ci cj :
  In i (index d) -> In j (index d) -> i <> j ->
  overridden (overridden d j cj) i ci = overridden (overridden d i ci) j cj.
Proof.
  intros Hi Hj Hne.
  pose proof (with_label_of_present d i Hi) as Ei.
  pose proof (with_label_of_present d j Hj) as Ej.
  rewrite !overridden_twice by (rewrite ?Ei, ?Ej; assumption).
  unfold override_columns. rewrite Ei, Ej. f_equal.
  erewrite (map_column_ext "category");
    [erewrite (map_column_ext "auto_categorized"); [reflexivity|]|].
  - intros vs. now apply set_where_comm.
  - intros vs. now apply set_where_comm.
Qed.

(** X15. The last override of a row wins. When pandas takes the assignments,
    overriding the category of a label and then overriding it again in the
    returned frame gives the frame that the second override alone gives. *)
Theorem last_override_wins
    (takes : DataFrame -> Z -> string -> cell -> bool)
    (h : store) (df : ref) (d : DataFrame) (label : Z) (c1 c2 : string) :
  h !! df = Some d ->
  override_taken takes d label c1 = true ->
  override_taken takes (overridden d label c1) label c2 = true ->
  override_taken takes d label c2 = true ->
  exists df1 d1 df2 d2 df',
    override_category takes df label c1 h = (Return df1, <[df1 := d1]> h) /\
    override_category takes df1 label c2 (<[df1 := d1]> h)
      = (Return df2, <[df2 := d2]> (<[df1 := d1]> h)) /\
    override_category takes df label c2 h = (Return df', <[df' := d2]> h).
Proof.
  intros Hdf H1 H12 H2.
  exists (fresh (dom h)), (overridden d label c1),
         (fresh (dom (<[fresh (dom h) := overridden d label c1]> h))),
         (overridden d label c2), (fresh (dom h)).
  split; [now apply override_category_spec|]. split; [|now apply override_category_spec].
  rewrite (override_category_spec takes _ _ (overridden d label c1))
    by (apply lookup_insert_eq || exact H12).
  now rewrite overridden_last_wins.
Qed.

Lemma last_override_wins_witness :
  exists df1 d1 df2 d2 df',
    override_category takes_unless_all_missing 1%positive 5 "streaming"
      {[ 1%positive := classified_frame ]}
      = (Return df1, <[df1 := d1]> {[ 1%positive := classified_frame ]}) /\
    override_category takes_unless_all_missing df1 5 "films"
      (<[df1 := d1]> {[ 1%positive := classified_frame ]})
      = (Return df2, <[df2 := d2]> (<[df1 := d1]> {[ 1%positive := classified_frame ]})) /\
    override_category takes_unless_all_missing 1%positive 5 "films"
      {[ 1%positive := classified_frame ]}
      = (Return df', <[df' := d2]> {[ 1%positive := classified_frame ]}).
Proof.
  apply (last_override_wins takes_unless_all_missing
           {[ 1%positive := classified_frame ]} 1%positive
           classified_frame 5 "streaming" "films").
  - reflexivity.
  - reflexivity.
  - reflexivity.
  - reflexivity.
Defined.

(** X16. Overrides of two different labels of the index can be made in either
    order: when pandas takes the assignments of both orders, the frames that
    the two orders give are equal. *)
Theorem overrides_of_two_rows_commute
    (takes : DataFrame -> Z -> string -> cell -> bool)
    (h : store) (df : ref) (d : DataFrame) (i j : Z) (ci cj : string) :
  h !! df = Some d ->
  In i (index d) ->
  In j (index d) ->
  i <> j ->
  override_taken takes d i ci = true ->
  override_taken takes (overridden d i ci) j cj = true ->
  override_taken takes d j cj = true ->
  override_taken takes (overridden d j cj) i ci = true ->
  exists d2 df1 d1 df2 df1' d1' df2',
    override_category takes df i ci h = (Return df1, <[df1 := d1]> h) /\
    override_category takes df1 j cj (<[df1 := d1]> h)
      = (Return df2, <[df2 := d2]> (<[df1 := d1]> h)) /\
    override_category takes df j cj h = (Return df1', <[df1' := d1']> h) /\
    override_category takes df1' i ci (<[df1' := d1']> h)
      = (Return df2', <[df2' := d2]> (<[df1' := d1']> h)).
Proof.
  intros Hdf Hi Hj Hne Ti Tij Tj Tji.
  exists (overridden (overridden d i ci) j cj),
         (fresh (dom h)), (overridden d i ci),
         (fresh (dom (<[fresh (dom h) := overridden d i ci]> h))),
         (fresh (dom h)), (overridden d j cj),
         (fresh (dom (<[fresh (dom h) := overridden d j cj]> h))).
  split; [now apply override_category_spec|].
  split; [apply override_category_spec; [apply lookup_insert_eq|exact Tij]|].
  split; [now apply override_category_spec|].
  rewrite (override_category_spec takes _ _ (overridden d j cj))
    by (apply lookup_insert_eq || exact Tji).
  now rewrite overridden_comm.
Qed.

Lemma overrides_of_two_rows_commute_witness :
  exists d2 df1 d1 df2 df1' d1' df2',
    override_category takes_unless_all_missing 1%positive 3 "groceries"
      {[ 1%positive := classified_frame ]}
      = (Return df1, <[df1 := d1]> {[ 1%positive := classified_frame ]}) /\
    override_category takes_unless_all_missing df1 5 "streaming"
      (<[df1 := d1]> {[ 1%positive := classified_frame ]})
      = (Return df2, <[df2 := d2]> (<[df1 := d1]> {[ 1%positive := classified_frame ]})) /\
    override_category takes_unless_all_missing 1%positive 5 "streaming"
      {[ 1%positive := classified_frame ]}
      = (Return df1', <[df1' := d1']> {[ 1%positive := classified_frame ]}) /\
    override_category takes_unless_all_missing df1' 3 "groceries"
      (<[df1' := d1']> {[ 1%positive := classified_frame ]})
      = (Return df2', <[df2' := d2]> (<[df1' := d1']> {[ 1%positive := classified_frame ]})).
Proof.
  apply (overrides_of_two_rows_commute takes_unless_all_missing
           {[ 1%positive := classified_frame ]} 1%positive
           classified_frame 3 5 "groceries" "streaming").
  - reflexivity.
  - left. reflexivity.
  - right. left. reflexivity.
  - discriminate.
  - reflexivity.
  - reflexivity.
  - reflexivity.
  - reflexivity.
Defined.

End Overrides.

(** ** An override of a label that the index lacks *)

Module Enlargement.
Import Categories Frames FrameFacts StoreFacts Tables Overrides.

Lemma lookup_In {A} (l : list A) pos x : l !! pos = Some x -> In x l.
Proof.
  revert pos. induction l as [|a l IH]; intros [|pos] H; try discriminate.
  - cbn in H. inversion H. now left.
  - cbn in H. right. now apply (IH pos).
Qed.

Lemma set_where_miss label v idx vs pos l :
  length vs = length idx ->
  idx !! pos = Some l ->
  l <> label ->
  set_where label v idx vs !! pos = vs !! pos.
Proof.
  intros Hlen Hl Hne. rewrite (set_where_lookup label v idx vs pos l Hlen Hl).
  apply Z.eqb_neq in Hne. now rewrite Hne.
Qed.

Section NewLabel.

Variables (d : DataFrame) (label : Z).
Hypothesis Hwf : well_formed d.
Hypothesis Hnew : ~ In label (index d).

Lemma has_label_new : has_label d label = false.
Proof.
  destruct (has_label d label) eqn:E; [|reflexivity].
  apply has_label_iff in E. contradiction.
Qed.

Lemma with_label_new_index : index (with_label d label) = index d ++ [label].
Proof. unfold with_label. now rewrite has_label_new. Qed.

Lemma with_label_new_column col :
  column (columns (with_label d label)) col =
  option_map (fun vs => vs ++ [CNaN]) (column (columns d) col).
Proof.
  unfold with_label. rewrite has_label_new. cbn [columns].
  induction (columns d) as [|[n vs] cols IH]; cbn [map column fst snd]; [reflexivity|].
  destruct (String.eqb n col); [reflexivity|exact IH].
Qed.

Lemma with_label_new_well_formed :
  Forall (fun nv : string * list cell => length (snd nv) = length (index d ++ [label]))
    (columns (with_label d label)).
Proof.
  unfold with_label. rewrite has_label_new. cbn [columns].
  apply List.Forall_map. eapply List.Forall_impl; [|exact Hwf].
  intros [n vs] H. cbn [fst snd] in *. rewrite !length_app, H. reflexivity.
Qed.

Lemma ensure_column_well_formed col (idx : list Z) cols :
  Forall (fun nv : string * list cell => length (snd nv) = length idx) cols ->
  Forall (fun nv : string * list cell => length (snd nv) = length idx)
    (ensure_column col idx cols).
Proof.
  intros H. unfold ensure_column. destruct (column cols col); [exact H|].
  apply List.Forall_app. split; [exact H|]. constructor; [|constructor].
  cbn [snd]. apply length_map.
Qed.

Lemma override_columns_new_well_formed :
  Forall (fun nv : string * list cell => length (snd nv) = length (index d ++ [label]))
    (override_columns d label).
Proof.
  unfold override_columns. rewrite with_label_new_index.
  do 2 apply ensure_column_well_formed. apply with_label_new_well_formed.
Qed.

Lemma column_length_in (idx : list Z) cols col vs :
  Forall (fun nv : string * list cell => length (snd nv) = length idx) cols ->
  column cols col = Some vs -> length vs = length idx.
Proof.
  induction 1 as [|[n old] cols Hx _ IH]; cbn [column]; [discriminate|].
  destruct (String.eqb n col); [|exact IH]. intros E. inversion E. subst. exact Hx.
Qed.

(** A column that the frame had is, in [override_columns], that column with
    one more cell, a missing value. *)
Lemma override_columns_new_old col vs :
  column (columns d) col = Some vs ->
  column (override_columns d label) col = Some (vs ++ [CNaN]).
Proof.
  intros Hcol.
  assert (H0 : column (columns (with_label d label)) col = Some (vs ++ [CNaN]))
    by now rewrite with_label_new_column, Hcol.
  unfold override_columns.
  destruct (String.eqb_spec "auto_categorized" col) as [<-|Hf].
  - destruct (String.eqb_spec "category" "auto_categorized") as [E|_]; [discriminate E|].
    assert (H1 : column (ensure_column "category" (index (with_label d label))
                           (columns (with_label d label))) "auto_categorized"
                 = Some (vs ++ [CNaN]))
      by (rewrite column_ensure_other by discriminate; exact H0).
    now rewrite (ensure_column_id _ _ _ _ H1).
  - rewrite column_ensure_other by exact Hf.
    destruct (String.eqb_spec "category" col) as [<-|Hc].
    + now rewrite (ensure_column_id _ _ _ _ H0).
    + now rewrite column_ensure_other by exact Hc.
Qed.

(** The column of the overridden frame, from the column of
    [override_columns]. *)
Lemma overridden_column new_category col :
  column (columns (overridden d label new_category)) col =
  option_map
    (fun vs =>
       if String.eqb col "category"
       then set_where label (CStr new_category) (index d ++ [label]) vs
       else if String.eqb col "auto_categorized"
            then set_where label (CBool false) (index d ++ [label]) vs
            else vs)
    (column (override_columns d label) col).
Proof.
  rewrite overridden_normal_form, with_label_new_index. cbn [columns].
  destruct (String.eqb_spec col "category") as [->|Hc].
  - rewrite column_map_column_other by discriminate.
    apply column_map_column_same.
  - destruct (String.eqb_spec col "auto_categorized") as [->|Hf].
    + rewrite column_map_column_same, column_map_column_other by discriminate.
      reflexivity.
    + rewrite !column_map_column_other by congruence.
      now destruct (column (override_columns d label) col).
Qed.

Lemma new_label_position : (index d ++ [label]) !! length (index d) = Some label.
Proof. now apply list_lookup_middle. Qed.

End NewLabel.



End Enlargement.

(** ** Equal incomes and equal payments *)

Module EqualShares.
Import Calculations Ledgers CalculationsFacts Books WholeBooks Binary64 Binary64Facts.
Local Open Scope Z_scope.

(** The float of a positive integer below [2^53]: a mantissa of 53 bits. *)
Lemma whole_float_mantissa (p : positive) :
  Z.pos p < 2 ^ 53 ->
  exists M,
    canonical_integer p = S754_finite false M (Z.pos (digits2_pos p) - 53) /\
    Z.pos M = Z.pos p * 2 ^ (53 - Z.pos (digits2_pos p)) /\
    Z.pos (digits2_pos M) = 53 /\
    Z.pos (digits2_pos p) <= 53.
Proof.
  intros Hp. pose proof (Zdigits2_bounds p) as [Hlo Hhi].
  set (d := Z.pos (digits2_pos p)) in *.
  assert (Hd : d <= 53).
  { assert (d - 1 < 53); [|lia]. apply (Z.pow_lt_mono_r_iff 2); lia. }
  assert (Hk : 0 < 2 ^ (53 - d)) by (apply Z.pow_pos_nonneg; lia).
  exists (Z.to_pos (Z.pos p * 2 ^ (53 - d))).
  assert (HM : Z.pos (Z.to_pos (Z.pos p * 2 ^ (53 - d))) = Z.pos p * 2 ^ (53 - d))
    by (rewrite Z2Pos.id; lia).
  split; [reflexivity|]. split; [exact HM|]. split; [|exact Hd].
  rewrite (digits_mul_pow2 p _ (53 - d)) by (lia || exact HM). fold d. lia.
Qed.

(** The float of twice the integer has the same mantissa. *)
Lemma double_float_mantissa (p : positive) (M : positive) :
  Z.pos p~0 < 2 ^ 53 ->
  Z.pos M = Z.pos p * 2 ^ (53 - Z.pos (digits2_pos p)) ->
  canonical_integer p~0 = S754_finite false M (Z.pos (digits2_pos p) - 53 + 1).
Proof.
  intros Hp HM. unfold canonical_integer. cbn [digits2_pos].
  rewrite Pos2Z.inj_succ. pose proof (Zdigits2_bounds p) as [Hlo Hhi].
  set (d := Z.pos (digits2_pos p)) in *.
  assert (Hd : d <= 52).
  { assert (d - 1 < 52); [|lia]. apply (Z.pow_lt_mono_r_iff 2); lia. }
  f_equal; [|lia]. apply Pos2Z.inj. rewrite HM.
  assert (Hk : 0 < 2 ^ (53 - Z.succ d)) by (apply Z.pow_pos_nonneg; lia).
  rewrite Z2Pos.id by lia.
  replace (53 - d) with (1 + (53 - Z.succ d)) by lia.
  rewrite Z.pow_add_r by lia. change (2 ^ 1) with 2. lia.
Qed.

Lemma binary_round_aux_of_round (q : positive) (ex : Z) :
  ex <= fexp prec emax (Z.pos (digits2_pos q) + ex) ->
  binary_round_aux prec emax false (Z.pos q) ex loc_Exact =
  binary_round prec emax false q ex.
Proof.
  intros H. unfold binary_round. rewrite shl_align_spec.
  destruct (Z.ltb_spec (fexp prec emax (Z.pos (digits2_pos q) + ex)) ex); [lia|].
  reflexivity.
Qed.

(** An income is half of twice the income. *)
Lemma half_of_double (k : Z) :
  1 <= k -> k + k < 2 ^ 53 ->
  (PyFloat.of_Z k / PyFloat.of_Z (k + k))%float = 0.5%float.
Proof.
  intros Hk Hb. apply Prim2SF_inj. unfold PyFloat.of_Z.
  rewrite div_spec, !Prim2SF_of_Z by lia.
  destruct k as [|p|p]; try lia.
  replace (Z.pos p + Z.pos p) with (Z.pos p~0) in * by lia.
  cbn [float_of_nonneg].
  destruct (whole_float_mantissa p ltac:(lia)) as (M & -> & HM & HdM & Hd).
  rewrite (double_float_mantissa p M Hb HM).
  set (e := Z.pos (digits2_pos p) - 53).
  unfold SF64div, SFdiv, SFdiv_core_binary. cbn [Zdigits2 xorb]. rewrite HdM.
  replace (53 + e - (53 + (e + 1))) with (-1) by lia.
  replace (e - (e + 1)) with (-1) by lia.
  change (Z.min (fexp prec emax (-1)) (-1)) with (-54).
  change (-1 - -54) with 53. cbv zeta.
  rewrite Z.shiftl_mul_pow2 by lia.
  pose proof (Z_div_mod (Z.pos M * 2 ^ 53) (Z.pos M) ltac:(lia)) as Hdm.
  destruct (Z.div_eucl (Z.pos M * 2 ^ 53) (Z.pos M)) as [q r].
  destruct Hdm as [Heq Hr].
  assert (Hq : q = 2 ^ 53) by nia.
  assert (Hr0 : r = 0) by nia.
  subst q r. rewrite new_location_zero. reflexivity.
Qed.

(** Half of twice a whole amount is the amount. *)
Lemma double_times_half (n : Z) :
  0 <= n -> n + n < 2 ^ 53 ->
  (PyFloat.of_Z (n + n) * 0.5)%float = PyFloat.of_Z n.
Proof.
  intros Hn Hb. destruct n as [|p|p]; [reflexivity| |lia].
  apply Prim2SF_inj. unfold PyFloat.of_Z.
  rewrite mul_spec, !Prim2SF_of_Z by lia.
  replace (Z.pos p + Z.pos p) with (Z.pos p~0) in * by lia.
  cbn [float_of_nonneg].
  destruct (whole_float_mantissa p ltac:(lia)) as (M & HcM & HM & HdM & Hd).
  rewrite (double_float_mantissa p M Hb HM).
  change (Prim2SF 0.5) with (S754_finite false 4503599627370496 (-53)).
  unfold SF64mul, SFmul. cbn [xorb].
  pose proof (Zdigits2_bounds p) as [Hlo Hhi].
  set (d := Z.pos (digits2_pos p)) in *.
  assert (Hd52 : d <= 52).
  { assert (d - 1 < 52); [|lia]. apply (Z.pow_lt_mono_r_iff 2); lia. }
  assert (Hd1 : 1 <= d) by (unfold d; lia).
  set (q := (M * 4503599627370496)%positive).
  assert (Hq : Z.pos q = Z.pos p * 2 ^ (105 - d)).
  { unfold q. rewrite Pos2Z.inj_mul, HM.
    change (Z.pos 4503599627370496) with (2 ^ 52).
    rewrite <- Z.mul_assoc, <- Z.pow_add_r by lia. f_equal. f_equal. lia. }
  assert (Hdq : Z.pos (digits2_pos q) = 105).
  { rewrite (digits_mul_pow2 p q (105 - d)) by (lia || exact Hq). fold d. lia. }
  rewrite binary_round_aux_of_round by (rewrite Hdq, fexp64; lia).
  rewrite (binary_round_exact p q (105 - d) (d - 53 + 1 + -53) (d - 53));
    try lia; try exact Hq.
  - unfold canonical_integer. fold d. f_equal. f_equal. f_equal. f_equal. lia.
  - rewrite Hdq, fexp64. lia.
Qed.

Lemma whole_minus_itself (n : Z) :
  0 <= n < 2 ^ 53 -> (PyFloat.of_Z n - PyFloat.of_Z n)%float = 0%float.
Proof.
  intros Hn. apply Prim2SF_inj. unfold PyFloat.of_Z.
  rewrite sub_spec, !Prim2SF_of_Z by lia.
  destruct n as [|p|p]; [reflexivity| |lia].
  cbn [float_of_nonneg]. unfold canonical_integer.
  generalize (Z.to_pos (Z.pos p * 2 ^ (53 - Z.pos (digits2_pos p)))) as m.
  generalize (Z.pos (digits2_pos p) - 53) as e. intros e m.
  unfold SF64sub, SFsub. cbv zeta.
  rewrite Z.min_id. unfold shl_align.
  replace (IntDef.Z.sub e e) with 0 by (symmetry; apply Z.sub_diag).
  cbn [fst cond_Zopp].
  replace (IntDef.Z.sub (Z.pos m) (Z.pos m)) with 0 by (symmetry; apply Z.sub_diag).
  reflexivity.
Qed.

Lemma whole_is_not_zero (k : Z) :
  1 <= k < 2 ^ 53 -> (PyFloat.of_Z k =? 0)%float = false.
Proof.
  intros Hk. unfold PyFloat.of_Z.
  rewrite FloatAxioms.eqb_spec, Prim2SF_of_Z by lia.
  destruct k as [|p|p]; try lia. reflexivity.
Qed.

(** Two persons of the same whole income share half and half. *)
Lemma ratio_of_equal_incomes (a b : Person) (k : Z) :
  0 <= k -> k + k < 2 ^ 53 ->
  monthly_income a = PyFloat.of_Z k ->
  monthly_income b = PyFloat.of_Z k ->
  calculate_income_ratio a b = (0.5, 0.5)%float.
Proof.
  intros Hk Hb Ha Hbb. unfold calculate_income_ratio. rewrite Ha, Hbb.
  rewrite SharedTotals.of_Z_add by lia.
  destruct (Z.eq_dec k 0) as [->|Hne]; [reflexivity|].
  rewrite whole_is_not_zero by lia.
  rewrite half_of_double by lia. reflexivity.
Qed.

(** X6. Equal incomes and equal payments are balanced. When the two persons
    have the same whole income, and the shared payments, whole amounts,
    come to the same total [n] for each of them, each fair share is [n],
    person A's balance is zero, and the summary is that all expenses are
    perfectly balanced. *)
Theorem equal_incomes_and_payments_are_balanced
    (na nb : string) (k : Z) (cs : list call) (n : Z) (self : Contribution) :
  0 <= k -> k + k < 2 ^ 53 ->
  whole_paid na nb cs n n ->
  n + n < 2 ^ 53 ->
  run cs (new_contribution na (PyFloat.of_Z k) nb (PyFloat.of_Z k)) = (Return tt, self) ->
  exists r,
    generate_monthly_balance self = (Return r, self) /\
    total_shared_expenses r = PyFloat.of_Z (n + n) /\
    fair_share (balance_person_a r) = PyFloat.of_Z n /\
    fair_share (balance_person_b r) = PyFloat.of_Z n /\
    balance (balance_person_a r) = 0%float /\
    summary r = "All expenses are perfectly balanced"%string.
Proof.
  intros Hk Hkb Hcs Hb Hrun.
  destruct (fresh_run_books na _ nb _ cs n n self Hcs Hb Hrun)
    as [Hw (_ & _ & Ia & Ib)].
  destruct (whole_books_totals n n self Hw Hb) as (Ts & Ta & Tb).
  destruct (whole_books_nonneg n n self Hw) as [Hn _].
  cbn in Ia, Ib.
  rewrite generate_monthly_balance_unfold. cbv zeta.
  eexists. split; [reflexivity|].
  cbn [total_shared_expenses fair_share balance balance_person_a balance_person_b summary].
  rewrite (ratio_of_equal_incomes _ _ k Hk Hkb Ia Ib). cbn [fst snd].
  rewrite Ts, Ta, double_times_half, whole_minus_itself by lia.
  repeat split.
Qed.

Lemma equal_incomes_and_payments_are_balanced_witness :
  exists self r,
    run [mkCall "rent" 500 "Ann" true; mkCall "food" 500 "Ben" true]
      (new_contribution "Ann" 1000 "Ben" 1000) = (Return tt, self) /\
    generate_monthly_balance self = (Return r, self) /\
    summary r = "All expenses are perfectly balanced"%string.
Proof.
  set (cs := [mkCall "rent" 500 "Ann" true; mkCall "food" 500 "Ben" true]).
  set (self := snd (run cs (new_contribution "Ann" 1000 "Ben" 1000))).
  exists self.
  destruct (equal_incomes_and_payments_are_balanced "Ann" "Ben" 1000 cs 500 self)
    as (r & Hr & _ & _ & _ & _ & Hs).
  - lia.
  - lia.
  - eapply paid_by_a with (n := 500) (ta := 0);
      [reflexivity|lia|reflexivity|reflexivity|reflexivity|].
    eapply paid_by_b with (n := 500) (tb := 0);
      [reflexivity|lia|reflexivity|reflexivity|reflexivity|reflexivity|].
    apply paid_nil.
  - lia.
  - vm_compute. reflexivity.
  - exists r. split; [vm_compute; reflexivity|]. split; [exact Hr|exact Hs].
Defined.

End EqualShares.

(** ** A person without income *)

Module NoIncome.
Import Calculations Ledgers CalculationsFacts Books WholeBooks Binary64 Binary64Facts.
Import EqualShares.
Local Open Scope Z_scope.

Lemma positive_finite_float (y : float) :
  PyFloat.isfinite y = true -> (0 <? y)%float = true ->
  exists m e, Prim2SF y = S754_finite false m e.
Proof.
  unfold PyFloat.isfinite. rewrite ltb_spec.
  change (Prim2SF 0) with (S754_zero false).
  destruct (Prim2SF y) as [s|s| |s m e]; try discriminate.
  destruct s; [discriminate|]. eauto.
Qed.

(** The ratio of a person without income and a person with one. *)
Lemma ratio_without_income (a b : Person) :
  monthly_income a = 0%float ->
  PyFloat.isfinite (monthly_income b) = true ->
  (0 <? monthly_income b)%float = true ->
  calculate_income_ratio a b = (0, 1)%float.
Proof.
  intros Ha Hfin Hpos. unfold calculate_income_ratio. rewrite Ha.
  destruct (positive_finite_float _ Hfin Hpos) as (m & e & E).
  assert (Hsum : (0 + monthly_income b)%float = monthly_income b).
  { apply Prim2SF_inj. rewrite add_spec, E. reflexivity. }
  rewrite Hsum.
  assert (Hnz : (monthly_income b =? 0)%float = false).
  { rewrite FloatAxioms.eqb_spec, E. reflexivity. }
  rewrite Hnz.
  assert (Hdiv : (0 / monthly_income b)%float = 0%float).
  { apply Prim2SF_inj. rewrite div_spec, E. reflexivity. }
  rewrite Hdiv. reflexivity.
Qed.

Lemma whole_times_zero (t : Z) :
  0 <= t < 2 ^ 53 -> (PyFloat.of_Z t * 0)%float = 0%float.
Proof.
  intros Ht. apply Prim2SF_inj. unfold PyFloat.of_Z.
  rewrite mul_spec, Prim2SF_of_Z by lia.
  destruct t as [|p|p]; [reflexivity|reflexivity|lia].
Qed.

Lemma whole_times_one (t : Z) :
  0 <= t < 2 ^ 53 -> (PyFloat.of_Z t * 1)%float = PyFloat.of_Z t.
Proof.
  intros Ht. apply Prim2SF_inj. unfold PyFloat.of_Z.
  rewrite mul_spec, Prim2SF_of_Z by lia.
  destruct t as [|p|p]; [reflexivity| |lia].
  cbn [float_of_nonneg].
  destruct (whole_float_mantissa p ltac:(lia)) as (M & HcM & HM & HdM & Hd).
  rewrite HcM at 1.
  change (Prim2SF 1) with (S754_finite false 4503599627370496 (-52)).
  unfold SF64mul, SFmul. cbn [xorb].
  pose proof (Zdigits2_bounds p) as [Hlo Hhi].
  set (d := Z.pos (digits2_pos p)) in *.
  assert (Hd1 : 1 <= d) by (unfold d; lia).
  set (q := (M * 4503599627370496)%positive).
  assert (Hq : Z.pos q = Z.pos p * 2 ^ (105 - d)).
  { unfold q. rewrite Pos2Z.inj_mul, HM.
    change (Z.pos 4503599627370496) with (2 ^ 52).
    rewrite <- Z.mul_assoc, <- Z.pow_add_r by lia. f_equal. f_equal. lia. }
  assert (Hdq : Z.pos (digits2_pos q) = 105).
  { rewrite (digits_mul_pow2 p q (105 - d)) by (lia || exact Hq). fold d. lia. }
  rewrite binary_round_aux_of_round by (rewrite Hdq, fexp64; lia).
  replace (d - 53 + -52) with (- (105 - d)) by lia.
  apply (binary_round_integer p q (105 - d)); [lia|exact Hq|lia].
Qed.

(** X7. A person without income has no share. When person A's income is zero
    and person B's is positive and finite, and the shared payments are whole
    amounts of a total below [2^53], person A's fair share is zero, person
    B's fair share is the total, and person A's balance is zero minus what
    person A paid. *)
Theorem person_without_income_has_no_share
    (na nb : string) (ib : float) (cs : list call) (ta tb : Z) (self : Contribution) :
  PyFloat.isfinite ib = true ->
  (0 <? ib)%float = true ->
  whole_paid na nb cs ta tb ->
  ta + tb < 2 ^ 53 ->
  run cs (new_contribution na 0 nb ib) = (Return tt, self) ->
  exists r,
    generate_monthly_balance self = (Return r, self) /\
    fair_share (balance_person_a r) = 0%float /\
    fair_share (balance_person_b r) = PyFloat.of_Z (ta + tb) /\
    fair_share (balance_person_b r) = total_shared_expenses r /\
    balance (balance_person_a r) = (0 - PyFloat.of_Z ta)%float.
Proof.
  intros Hfin Hpos Hcs Hb Hrun.
  destruct (fresh_run_books na _ nb _ cs ta tb self Hcs Hb Hrun)
    as [Hw (_ & _ & Ia & Ib)].
  destruct (whole_books_totals ta tb self Hw Hb) as (Ts & Ta & Tb).
  destruct (whole_books_nonneg ta tb self Hw) as [Hta Htb].
  cbn in Ia, Ib.
  rewrite generate_monthly_balance_unfold. cbv zeta.
  eexists. split; [reflexivity|].
  cbn [total_shared_expenses fair_share balance balance_person_a balance_person_b].
  rewrite (ratio_without_income _ _ Ia) by (rewrite Ib; assumption).
  cbn [fst snd].
  rewrite Ts, Ta, whole_times_zero, whole_times_one by lia.
  repeat split.
Qed.

Lemma person_without_income_has_no_share_witness :
  exists self r,
    run month_calls (new_contribution "Alice" 0 "Bob" 2000) = (Return tt, self) /\
    generate_monthly_balance self = (Return r, self) /\
    fair_share (balance_person_a r) = 0%float /\
    fair_share (balance_person_b r) = 1350%float.
Proof.
  set (self := snd (run month_calls (new_contribution "Alice" 0 "Bob" 2000))).
  exists self.
  destruct (person_without_income_has_no_share "Alice" "Bob" 2000 month_calls
              1150 200 self)
    as (r & Hr & Ha & Hb & _).
  - reflexivity.
  - reflexivity.
  - exact month_calls_whole.
  - reflexivity.
  - vm_compute. reflexivity.
  - exists r. split; [vm_compute; reflexivity|].
    split; [exact Hr|]. split; [exact Ha|exact Hb].
Defined.

End NoIncome.

(** ** The example script: two statements, one report *)

Module MonthlyExpenses.
Import Calculations Ledgers CalculationsFacts Books WholeBooks Examples.
Local Open Scope Z_scope.

Lemma add_rows_run rows who : forall self,
  add_rows rows who self = run (calls_of rows who) self.
Proof.
  induction rows as [|r rows IH]; intros self; cbn [add_rows calls_of map run].
  - reflexivity.
  - unfold bind, do_call. cbn [c_category c_amount c_paid_by c_is_shared].
    destruct (add_expense (row_category r) (row_amount r) who true self)
      as [[[]|e] s1]; [apply IH|reflexivity].
Qed.

Lemma run_app cs1 cs2 : forall self,
  run (cs1 ++ cs2) self =
  match run cs1 self with
  | (Return _, s1) => run cs2 s1
  | (Raise e, s1) => (Raise e, s1)
  end.
Proof.
  induction cs1 as [|c cs1 IH]; intros self; cbn [app run].
  - reflexivity.
  - unfold bind. destruct (do_call c self) as [[[]|e] s1]; [apply IH|reflexivity].
Qed.

Lemma calls_of_registered_a rows na nb :
  Forall (registered na nb) (calls_of rows na).
Proof.
  unfold calls_of. apply List.Forall_map. apply List.Forall_forall.
  intros r _. now left.
Qed.

Lemma calls_of_registered_b rows na nb :
  Forall (registered na nb) (calls_of rows nb).
Proof.
  unfold calls_of. apply List.Forall_map. apply List.Forall_forall.
  intros r _. now right.
Qed.

(** The script is the sequence of the calls for the two statements,
    followed by the report. *)
Lemma process_monthly_expenses_unfold na ia rows_a nb ib rows_b :
  process_monthly_expenses na ia rows_a nb ib rows_b =
  match run (calls_of rows_a na ++ calls_of rows_b nb) (new_contribution na ia nb ib) with
  | (Return _, self) => fst (generate_monthly_balance self)
  | (Raise e, _) => Raise e
  end.
Proof.
  unfold process_monthly_expenses. cbv zeta. unfold bind at 1.
  rewrite run_app, add_rows_run.
  destruct (run (calls_of rows_a na) (new_contribution na ia nb ib)) as [[[]|e] s1];
    [|reflexivity].
  unfold bind. rewrite add_rows_run.
  destruct (run (calls_of rows_b nb) s1) as [[[]|e] s2]; reflexivity.
Qed.

(** X18. The ledger stage of the script cannot fail. Whatever rows the two
    classified statements hold, every call of [add_expense] finds its payer,
    since the payer is the name that the person was created with, and
    [process_monthly_expenses] returns the report of
    [generate_monthly_balance] on the ledger after all the calls. *)
Theorem process_monthly_expenses_returns_a_report
    (na : string) (ia : float) (rows_a : list row)
    (nb : string) (ib : float) (rows_b : list row) :
  exists self r,
    run (calls_of rows_a na ++ calls_of rows_b nb) (new_contribution na ia nb ib)
      = (Return tt, self) /\
    generate_monthly_balance self = (Return r, self) /\
    process_monthly_expenses na ia rows_a nb ib rows_b = Return r.
Proof.
  destruct (run_returns (calls_of rows_a na ++ calls_of rows_b nb)
              (new_contribution na ia nb ib)) as [self Hrun].
  { apply List.Forall_app. split;
      [apply calls_of_registered_a|apply calls_of_registered_b]. }
  exists self. rewrite process_monthly_expenses_unfold, Hrun.
  rewrite generate_monthly_balance_unfold. cbv zeta.
  eexists. split; [reflexivity|]. split; reflexivity.
Qed.

Lemma total_nonneg rows zs : whole_rows rows zs -> 0 <= total zs.
Proof.
  induction 1 as [|r z rows zs [Hz _] _ IH]; cbn [total fold_right]; [lia|].
  fold (total zs). lia.
Qed.

Lemma whole_paid_app na nb cs1 ta1 tb1 : whole_paid na nb cs1 ta1 tb1 ->
  forall cs2 ta2 tb2, whole_paid na nb cs2 ta2 tb2 ->
  whole_paid na nb (cs1 ++ cs2) (ta1 + ta2) (tb1 + tb2).
Proof.
  induction 1 as [|c cs ta tb Hp Hcs IH
                  |c cs ta tb n ta' Hs Hn Hamt Hwho -> Hcs IH
                  |c cs ta tb n tb' Hs Hn Hamt Hnot Hwho -> Hcs IH];
    intros cs2 ta2 tb2 H2; cbn [app].
  - exact H2.
  - apply paid_personal; auto.
  - eapply paid_by_a; eauto. lia.
  - eapply paid_by_b; eauto. lia.
Qed.

(** The calls for a statement, by the person that they are charged to. *)
Lemma whole_paid_calls rows zs na nb who :
  whole_rows rows zs ->
  who = na \/ who = nb ->
  whole_paid na nb (calls_of rows who)
    (if String.eqb who na then total zs else 0)
    (if String.eqb who na then 0 else total zs).
Proof.
  intros H Hwho. induction H as [|r z rows zs [Hz Hamt] _ IH];
    cbn [calls_of map total fold_right].
  - destruct (String.eqb who na); apply paid_nil.
  - fold (calls_of rows who). fold (total zs).
    destruct (String.eqb who na) eqn:E.
    + eapply paid_by_a; eauto.
    + eapply paid_by_b; eauto. cbn [c_paid_by].
      destruct Hwho as [-> | ->]; [now rewrite String.eqb_refl in E|apply String.eqb_refl].
Qed.

(** X19. The report of the script for whole amounts. When the amounts of the two
    classified statements are whole numbers, none negative, of a total below
    [2^53], the report's total is the total of all the rows. When the two
    names differ, each person's [actual_paid] is the total of that person's
    statement; when they are the same, both statements are charged to
    person A and both [actual_paid] are the total of all the rows. *)
Theorem process_monthly_expenses_adds_up_the_statements
    (na : string) (ia : float) (rows_a : list row)
    (nb : string) (ib : float) (rows_b : list row) (zs_a zs_b : list Z) :
  whole_rows rows_a zs_a ->
  whole_rows rows_b zs_b ->
  total zs_a + total zs_b < 2 ^ 53 ->
  exists r,
    process_monthly_expenses na ia rows_a nb ib rows_b = Return r /\
    total_shared_expenses r = PyFloat.of_Z (total zs_a + total zs_b) /\
    (nb <> na ->
       actual_paid (balance_person_a r) = PyFloat.of_Z (total zs_a) /\
       actual_paid (balance_person_b r) = PyFloat.of_Z (total zs_b)) /\
    (nb = na ->
       actual_paid (balance_person_a r) = PyFloat.of_Z (total zs_a + total zs_b) /\
       actual_paid (balance_person_b r) = PyFloat.of_Z (total zs_a + total zs_b)).
Proof.
  intros Ha Hb Hbound.
  pose proof (total_nonneg _ _ Ha) as Hta. pose proof (total_nonneg _ _ Hb) as Htb.
  destruct (run_returns (calls_of rows_a na ++ calls_of rows_b nb)
              (new_contribution na ia nb ib)) as [self Hrun].
  { apply List.Forall_app. split;
      [apply calls_of_registered_a|apply calls_of_registered_b]. }
  pose proof (whole_paid_calls rows_a zs_a na nb na Ha ltac:(now left)) as Wa.
  pose proof (whole_paid_calls rows_b zs_b na nb nb Hb ltac:(now right)) as Wb.
  rewrite String.eqb_refl in Wa.
  pose proof (whole_paid_app _ _ _ _ _ Wa _ _ _ Wb) as W.
  rewrite process_monthly_expenses_unfold, Hrun.
  rewrite generate_monthly_balance_unfold. cbv zeta. cbn [fst].
  eexists. split; [reflexivity|].
  cbn [total_shared_expenses actual_paid balance_person_a balance_person_b].
  unfold paid_read_for_b.
  destruct (String.eqb_spec nb na) as [E|E].
  - rewrite Z.add_0_l in W.
    destruct (fresh_run_books na ia nb ib _ _ _ self W ltac:(lia) Hrun)
      as [Hw (Na & Nb & _)].
    destruct (whole_books_totals _ _ self Hw ltac:(lia)) as (Ts & Ta & Tb).
    cbn in Na, Nb. rewrite Na, Nb, Ts, Ta.
    apply String.eqb_eq in E. rewrite E.
    split; [f_equal; lia|]. split; [intros Hne; apply String.eqb_eq in E; congruence|].
    intros _. split; reflexivity.
  - rewrite Z.add_0_l, Z.add_0_r in W.
    destruct (fresh_run_books na ia nb ib _ _ _ self W ltac:(lia) Hrun)
      as [Hw (Na & Nb & _)].
    destruct (whole_books_totals _ _ self Hw ltac:(lia)) as (Ts & Ta & Tb).
    cbn in Na, Nb. rewrite Na, Nb, Ts, Ta, Tb.
    apply String.eqb_neq in E. rewrite E.
    split; [reflexivity|]. split; [intros _; split; reflexivity|].
    intros Heq. apply String.eqb_neq in E. congruence.
Qed.

Lemma process_monthly_expenses_adds_up_the_statements_witness :
  exists r,
    process_monthly_expenses "Alice" 3000
      [mkRow "rent" 1000; mkRow "food" 150] "Bob" 2000 [mkRow "utilities" 200]
      = Return r /\
    total_shared_expenses r = 1350%float /\
    actual_paid (balance_person_a r) = 1150%float /\
    actual_paid (balance_person_b r) = 200%float.
Proof.
  destruct (process_monthly_expenses_adds_up_the_statements "Alice" 3000
              [mkRow "rent" 1000; mkRow "food" 150] "Bob" 2000 [mkRow "utilities" 200]
              [1000; 150] [200])
    as (r & Hr & Ht & Hne & _).
  - repeat constructor; lia.
  - repeat constructor; lia.
  - reflexivity.
  - exists r. split; [exact Hr|]. split; [exact Ht|].
    apply Hne. discriminate.
Defined.

End MonthlyExpenses.

(** ** Both functions work on a copy *)

Module CopySemantics.
Import Categories Frames FrameFacts StoreFacts Tables Overrides Enlargement.

Lemma overridden_index d label new_category :
  index (overridden d label new_category) = index (with_label d label).
Proof. now rewrite overridden_normal_form. Qed.

(** The rows of the overridden frame that carry the label hold the
    requested category and the flag [False]. *)
Lemma overridden_sets d label new_category pos :
  well_formed d ->
  index (overridden d label new_category) !! pos = Some label ->
  cell_at (overridden d label new_category) "category" pos
    = Some (CStr new_category) /\
  cell_at (overridden d label new_category) "auto_categorized" pos
    = Some (CBool false).
Proof.
  intros Hwf Hpos. rewrite overridden_index in Hpos.
  destruct (has_label d label) eqn:Hl.
  - rewrite with_label_id in Hpos by exact Hl.
    set (d1 := loc_set d label "category" (CStr new_category)).
    assert (Hwf1 : well_formed d1) by now apply Override.loc_set_well_formed.
    assert (Hl1 : has_label d1 label = true) by now apply Override.loc_set_has_label.
    assert (Hi1 : index d1 = index d) by now apply Override.loc_set_index.
    unfold overridden. fold d1. split.
    + apply (Override.cell_at_loc_set_miss d1 label _ _ Hwf1 Hl1 _ pos label).
      * now rewrite Hi1.
      * now apply Override.cell_at_loc_set_hit.
      * right. apply Override.category_is_not_flag.
    + apply Override.cell_at_loc_set_hit; auto. now rewrite Hi1.
  - assert (Hnew : ~ In label (index d)).
    { intros Hin. apply has_label_iff in Hin. congruence. }
    rewrite with_label_new_index in Hpos by exact Hnew.
    assert (Hpos0 : pos = length (index d)).
    { destruct (Nat.lt_ge_cases pos (length (index d))) as [Hlt|Hge].
      - rewrite lookup_app_l in Hpos by exact Hlt.
        exfalso. apply Hnew. now apply (lookup_In _ pos).
      - rewrite lookup_app_r in Hpos by exact Hge.
        destruct (pos - length (index d))%nat as [|k] eqn:Ek; [lia|].
        destruct k; discriminate Hpos. }
    subst pos.
    pose proof (override_columns_new_well_formed d label Hwf Hnew) as HwfC.
    destruct (override_columns_have d label) as [[vc Hc] [vf Hf]]. split.
    + unfold cell_at. rewrite (overridden_column d label Hnew), Hc. cbn [option_map].
      change (String.eqb "category" "category") with true. cbv iota.
      rewrite (set_where_lookup label _ _ vc _ label).
      * now rewrite Z.eqb_refl.
      * now apply (column_length_in _ (override_columns d label) "category").
      * now apply new_label_position.
    + unfold cell_at. rewrite (overridden_column d label Hnew), Hf. cbn [option_map].
      change (String.eqb "auto_categorized" "category") with false.
      change (String.eqb "auto_categorized" "auto_categorized") with true. cbv iota.
      rewrite (set_where_lookup label _ _ vf _ label).
      * now rewrite Z.eqb_refl.
      * now apply (column_length_in _ (override_columns d label) "auto_categorized").
      * now apply new_label_position.
Qed.

(** Every other cell of the frame is, in the overridden frame, where it was
    and what it was. *)
Lemma overridden_keeps d label new_category col pos l c :
  well_formed d ->
  index d !! pos = Some l ->
  cell_at d col pos = Some c ->
  l <> label \/ (col <> "category"%string /\ col <> "auto_categorized"%string) ->
  index (overridden d label new_category) !! pos = Some l /\
  cell_at (overridden d label new_category) col pos = Some c.
Proof.
  intros Hwf Hpos Hc Hother. rewrite overridden_index.
  destruct (has_label d label) eqn:Hl.
  - rewrite with_label_id by exact Hl. split; [exact Hpos|].
    set (d1 := loc_set d label "category" (CStr new_category)).
    assert (Hwf1 : well_formed d1) by now apply Override.loc_set_well_formed.
    assert (Hl1 : has_label d1 label = true) by now apply Override.loc_set_has_label.
    assert (Hi1 : index d1 = index d) by now apply Override.loc_set_index.
    unfold overridden. fold d1.
    apply (Override.cell_at_loc_set_miss d1 label _ _ Hwf1 Hl1 _ pos l).
    + now rewrite Hi1.
    + apply (Override.cell_at_loc_set_miss d label _ _ Hwf Hl _ pos l); auto.
      destruct Hother as [?|[? ?]]; auto.
    + destruct Hother as [?|[? ?]]; auto.
  - assert (Hnew : ~ In label (index d)).
    { intros Hin. apply has_label_iff in Hin. congruence. }
    rewrite with_label_new_index by exact Hnew.
    pose proof (lookup_lt_Some _ _ _ Hpos) as Hlt.
    assert (Hl' : (index d ++ [label]) !! pos = Some l).
    { rewrite lookup_app_l by exact Hlt. exact Hpos. }
    split; [exact Hl'|].
    unfold cell_at in *.
    destruct (column (columns d) col) as [vs|] eqn:Hcol; [|discriminate].
    rewrite (overridden_column d label Hnew).
    rewrite (override_columns_new_old d label Hnew col vs Hcol). cbn [option_map].
    pose proof (column_length d col vs Hwf Hcol) as Hlen.
    assert (Hne : l <> label).
    { intros ->. apply Hnew. now apply (lookup_In _ pos). }
    assert (Hlen' : length (vs ++ [CNaN]) = length (index d ++ [label])).
    { rewrite !length_app, Hlen. reflexivity. }
    assert (Hold : (vs ++ [CNaN]) !! pos = Some c).
    { rewrite lookup_app_l by lia. exact Hc. }
    destruct (String.eqb col "category");
      [|destruct (String.eqb col "auto_categorized")];
      rewrite ?(set_where_miss label _ _ _ pos l Hlen' Hl' Hne); exact Hold.
Qed.

(** The cells of the frame that a classification pass builds. *)
Lemma categorized_cells upper d mappings descriptions pos x :
  length descriptions = length (index d) ->
  descriptions !! pos = Some x ->
  cell_at (categorized upper d mappings descriptions) "category" pos =
    Some (CStr (categorize_transaction upper (str x) 0
                  (match mappings with
                   | Some m => m
                   | None => DEFAULT_CATEGORY_MAPPINGS
                   end))) /\
  cell_at (categorized upper d mappings descriptions) "auto_categorized" pos
    = Some (CBool true).
Proof.
  intros Hlen Hx.
  unfold cell_at, categorized, frame_set_scalar, frame_set_column.
  cbn [columns index]. split.
  - rewrite column_set_column_other by (intros E; discriminate E).
    rewrite column_set_column_same.
    now apply (Reclassification.lookup_map_cells (fun x => CStr _)).
  - rewrite column_set_column_same.
    destruct (lookup_lt_is_Some_2 (index d) pos) as [l Hl].
    { rewrite <- Hlen. now apply (lookup_lt_Some descriptions pos x). }
    now apply (Reclassification.lookup_map_cells (fun _ => CBool true) (index d) pos l).
Qed.

Lemma categorized_other_columns upper d mappings descriptions col :
  col <> "category"%string -> col <> "auto_categorized"%string ->
  column (columns (categorized upper d mappings descriptions)) col
    = column (columns d) col.
Proof.
  intros Hc Hf. unfold categorized, frame_set_scalar, frame_set_column.
  cbn [columns index].
  rewrite column_set_column_other by congruence.
  now rewrite column_set_column_other by congruence.
Qed.

(** C10 (as amended). [override_category] and [categorize_transactions]
    build their result in a copy. Called with a reference [df] to a frame
    [d] of the store that has one cell per row in every column, each adds
    one frame at a reference that the store did not use; every frame of the
    store, and so the frame at [df], is afterwards what it was, also when
    the call raises.

    When pandas takes its two assignments, [override_category] returns the
    new reference, and the new frame is the updated one: it has the label;
    every row with the label holds the requested category and the flag
    [False]; every other cell of [d] is where it was and what it was. When
    pandas refuses an assignment, [override_category] raises.

    When the frame has the description column, [categorize_transactions]
    returns the new reference, and the new frame is the updated one: it has
    the index of [d]; in every row the category is the classification of
    the description and the flag is [True]; every other column is the one
    of [d]. When the frame lacks the description column, it raises
    [KeyError]. *)
Theorem functions_work_on_a_copy
    (takes : DataFrame -> Z -> string -> cell -> bool) (upper : string -> string)
    (h : store) (df : ref) (d : DataFrame) :
  h !! df = Some d ->
  well_formed d ->
  (forall label new_category,
      (override_taken takes d label new_category = true ->
       exists df' d',
         override_category takes df label new_category h
           = (Return df', <[df' := d']> h) /\
         extends_with h (<[df' := d']> h) df' d' /\
         (<[df' := d']> h) !! df = Some d /\
         In label (index d') /\
         (forall pos, index d' !! pos = Some label ->
             cell_at d' "category" pos = Some (CStr new_category) /\
             cell_at d' "auto_categorized" pos = Some (CBool false)) /\
         (forall col pos l c,
             index d !! pos = Some l ->
             cell_at d col pos = Some c ->
             l <> label \/
               (col <> "category"%string /\ col <> "auto_categorized"%string) ->
             index d' !! pos = Some l /\ cell_at d' col pos = Some c)) /\
      (override_taken takes d label new_category = false ->
       exists why df' d',
         override_category takes df label new_category h
           = (Raise (LocError why), <[df' := d']> h) /\
         extends_with h (<[df' := d']> h) df' d' /\
         (<[df' := d']> h) !! df = Some d)) /\
  (forall mappings description_column amount_column,
      match column (columns d) description_column with
      | Some descriptions =>
          exists df' d',
            categorize_transactions upper df mappings description_column
                amount_column h
              = (Return df', <[df' := d']> h) /\
            extends_with h (<[df' := d']> h) df' d' /\
            (<[df' := d']> h) !! df = Some d /\
            index d' = index d /\
            (forall pos x, descriptions !! pos = Some x ->
                cell_at d' "category" pos =
                  Some (CStr (categorize_transaction upper (str x) 0
                                (match mappings with
                                 | Some m => m
                                 | None => DEFAULT_CATEGORY_MAPPINGS
                                 end))) /\
                cell_at d' "auto_categorized" pos = Some (CBool true)) /\
            (forall col,
                col <> "category"%string -> col <> "auto_categorized"%string ->
                column (columns d') col = column (columns d) col)
      | None =>
          exists df',
            categorize_transactions upper df mappings description_column
                amount_column h
              = (Raise (KeyError description_column), <[df' := d]> h) /\
            extends_with h (<[df' := d]> h) df' d /\
            (<[df' := d]> h) !! df = Some d
      end).
Proof.
  intros H Hwf. split.
  - intros label new_category. split.
    + intros Htaken.
      exists (fresh (dom h)), (overridden d label new_category).
      split; [now apply override_category_spec|].
      pose proof (insert_fresh_extends h (overridden d label new_category)) as E.
      split; [exact E|]. split; [now apply E|]. split; [|split].
      * apply has_label_iff. apply loc_set_keeps_label.
      * intros pos Hpos. now apply overridden_sets.
      * intros col pos l c Hpos Hc Hother. now apply overridden_keeps.
    + intros Hrefused.
      destruct (override_category_refused takes h df d label new_category H Hrefused)
        as (why & d' & Hrun & _).
      exists why, (fresh (dom h)), d'. split; [exact Hrun|].
      pose proof (insert_fresh_extends h d') as E.
      split; [exact E|]. now apply E.
  - intros mappings dc ac.
    rewrite (categorize_transactions_spec upper h df d mappings dc ac H).
    destruct (column (columns d) dc) as [descriptions|] eqn:Hcol.
    + exists (fresh (dom h)), (categorized upper d mappings descriptions).
      split; [reflexivity|].
      pose proof (insert_fresh_extends h (categorized upper d mappings descriptions)) as E.
      split; [exact E|]. split; [now apply E|]. split; [reflexivity|]. split.
      * intros pos x Hx. apply categorized_cells; [|exact Hx].
        now apply (column_length d dc).
      * intros col Hc Hf. now apply categorized_other_columns.
    + exists (fresh (dom h)). split; [reflexivity|].
      pose proof (insert_fresh_extends h d) as E.
      split; [exact E|]. now apply E.
Qed.

(** C10, as stated, fails: a set is not returned for every input. The
    frame of two expenses that are not classified yet refuses the string
    under pandas 3, for a label of its index; a label that does not fit the
    64 bits of the index is refused whatever the columns hold; and a frame
    without the description column makes [categorize_transactions] raise
    [KeyError]. *)
Lemma functions_do_not_always_return :
  (In 0%Z (index unclassified_frame) /\
   exists h',
     override_category takes_unless_all_missing 1%positive 0 "groceries"
       {[ 1%positive := unclassified_frame ]}
       = (Raise (LocError ValueNotTaken), h')) /\
  (exists h',
     override_category takes_unless_all_missing 1%positive (2 ^ 63) "gift"
       {[ 1%positive := classified_frame ]}
       = (Raise (LocError LabelOutOfRange), h')) /\
  (exists h',
     categorize_transactions upper_ascii 1%positive None "description" "amount"
       {[ 1%positive := classified_frame ]}
       = (Raise (KeyError "description"), h')).
Proof.
  split; [|split].
  - split; [left; reflexivity|].
    destruct (override_category_refused takes_unless_all_missing
                {[ 1%positive := unclassified_frame ]} 1%positive unclassified_frame
                0 "groceries")
      as (why & d' & Hrun & Hwhy); [reflexivity|reflexivity|].
    rewrite (Hwhy eq_refl) in Hrun. eexists. exact Hrun.
  - eexists. unfold override_category, bind.
    rewrite (copy_spec _ 1%positive classified_frame) by reflexivity.
    rewrite (loc_assign_spec takes_unless_all_missing _ _ classified_frame)
      by apply lookup_insert_eq.
    reflexivity.
  - eexists.
    rewrite (categorize_transactions_spec upper_ascii _ 1%positive classified_frame)
      by reflexivity.
    reflexivity.
Qed.

End CopySemantics.

(** ** Instances on the frames above *)

Module Instances.
Import Categories Frames FrameFacts StoreFacts.

Lemma override_sets_category_and_clears_flag_witness :
  exists df' d',
    override_category takes_unless_all_missing 1%positive 5 "streaming"
      {[ 1%positive := classified_frame ]}
      = (Return df', <[df' := d']> {[ 1%positive := classified_frame ]}) /\
    cell_at classified_frame "category" 1 = Some (CStr "entertainment") /\
    cell_at classified_frame "auto_categorized" 1 = Some (CBool true) /\
    cell_at d' "category" 1 = Some (CStr "streaming") /\
    cell_at d' "auto_categorized" 1 = Some (CBool false) /\
    cell_at d' "category" 0 = Some (CStr "food").
Proof.
  destruct (Override.override_sets_category_and_clears_flag takes_unless_all_missing
              {[ 1%positive := classified_frame ]} 1%positive
              classified_frame 5 "streaming") as [Hset _].
  - reflexivity.
  - repeat constructor.
  - right. left. reflexivity.
  - destruct (Hset eq_refl) as (df' & d' & Hrun & _ & Hnew & Hold & _).
    exists df', d'. split; [exact Hrun|].
    split; [reflexivity|]. split; [reflexivity|].
    split; [apply (Hnew 1%nat); reflexivity|].
    split; [apply (Hnew 1%nat); reflexivity|].
    apply (Hold "category"%string 0%nat 3%Z); [reflexivity|reflexivity|].
    left. discriminate.
Defined.

Lemma functions_work_on_a_copy_witness :
  (exists df' d',
     override_category takes_unless_all_missing 1%positive 3 "groceries"
       {[ 1%positive := overridden_frame ]}
       = (Return df', <[df' := d']> {[ 1%positive := overridden_frame ]}) /\
     (<[df' := d']> ({[ 1%positive := overridden_frame ]} : store)) !! 1%positive
       = Some overridden_frame /\
     cell_at overridden_frame "category" 0 = Some (CStr "food") /\
     cell_at overridden_frame "auto_categorized" 0 = Some (CBool true) /\
     cell_at d' "category" 0 = Some (CStr "groceries") /\
     cell_at d' "auto_categorized" 0 = Some (CBool false)) /\
  (exists df' d',
     categorize_transactions upper_ascii 1%positive None "recipient_name" "amount"
       {[ 1%positive := overridden_frame ]}
       = (Return df', <[df' := d']> {[ 1%positive := overridden_frame ]}) /\
     (<[df' := d']> ({[ 1%positive := overridden_frame ]} : store)) !! 1%positive
       = Some overridden_frame /\
     cell_at overridden_frame "category" 1 = Some (CStr "streaming") /\
     cell_at overridden_frame "auto_categorized" 1 = Some (CBool false) /\
     cell_at d' "category" 1 = Some (CStr "entertainment") /\
     cell_at d' "auto_categorized" 1 = Some (CBool true)).
Proof.
  destruct (CopySemantics.functions_work_on_a_copy takes_unless_all_missing
              upper_ascii {[ 1%positive := overridden_frame ]} 1%positive
              overridden_frame) as [Hoverride Hcategorize].
  - reflexivity.
  - repeat constructor.
  - split.
    + destruct (Hoverride 3%Z "groceries"%string) as [Htaken _].
      destruct (Htaken eq_refl) as (df' & d' & Hrun & _ & Hsame & _ & Hnew & Hold).
      exists df', d'. split; [exact Hrun|]. split; [exact Hsame|].
      split; [reflexivity|]. split; [reflexivity|].
      assert (Hpos : index d' !! 0%nat = Some 3%Z).
      { apply (Hold "recipient_name"%string 0%nat 3%Z (CStr "LIDL HELSINKI"));
          [reflexivity|reflexivity|].
        right. split; discriminate. }
      split; apply (Hnew 0%nat Hpos).
    + specialize (Hcategorize None "recipient_name"%string "amount"%string).
      cbn [column columns overridden_frame String.eqb Ascii.eqb Bool.eqb] in Hcategorize.
      destruct Hcategorize as (df' & d' & Hrun & _ & Hsame & _ & Hnew & _).
      exists df', d'. split; [exact Hrun|]. split; [exact Hsame|].
      split; [reflexivity|]. split; [reflexivity|].
      destruct (Hnew 1%nat (CStr "NETFLIX") eq_refl) as [Hcat Hflag].
      split; [|exact Hflag].
      rewrite Hcat. vm_compute. reflexivity.
Defined.

End Instances.
